(** * LottoGen: historical-draw parsing, statistics and weighted picks

    A shallow embedding of the core of [LottoGen.py] (date normalisation,
    the two page parsers, de-duplication by date, the fallback fetcher, the
    statistics engine, the weighting model, the biased sampler and the
    top-probability selector), followed by the properties established
    about it.

    Conventions of the embedding.
    - Python [int] is [Z].  Python [float] has two models: IEEE 754
      binary64 numbers with round-to-nearest-even (module [Double]), which
      is the arithmetic of the code, used where a result depends on the
      value of a weight; and exact rationals [Q], used for the properties
      of the sampler and of the weighting model that no rounding can
      change.
    - Text is ASCII: [str] is [list ascii] ([string] at the interfaces).
    - A Python exception is the [Raise] branch of the [res] type.
    - [random.random()] is an oracle [nat -> Q] giving the value returned
      by the k-th call. *)

From Stdlib Require Import ZArith List String Ascii Bool Lia.
From Stdlib Require Import QArith Lqa Permutation Sorted SpecFloat.
Import ListNotations.
Open Scope Z_scope.

(* ================================================================== *)
(** ** Python primitives *)

Module Py.

Inductive exn : Type :=
| TypeError | IndexError | KeyError | ValueError | ZeroDivisionError
| OverflowError.

Inductive res (A : Type) : Type :=
| Ok (a : A)
| Raise (e : exn).
Arguments Ok {A} a.
Arguments Raise {A} e.

Definition bind {A B} (m : res A) (f : A -> res B) : res B :=
  match m with
  | Ok a => f a
  | Raise e => Raise e
  end.

Definition len {A} (l : list A) : Z := Z.of_nat (List.length l).

(** [l[i]]: negative indices count from the end, anything else outside
    the list raises [IndexError]. *)
Definition norm_index {A} (l : list A) (i : Z) : option nat :=
  let j := if i <? 0 then i + len l else i in
  if (0 <=? j) && (j <? len l) then Some (Z.to_nat j) else None.

Definition getitem {A} (l : list A) (i : Z) : res A :=
  match norm_index l i with
  | Some j =>
      match nth_error l j with
      | Some x => Ok x
      | None => Raise IndexError
      end
  | None => Raise IndexError
  end.

Fixpoint set_nth {A} (l : list A) (j : nat) (x : A) : list A :=
  match l, j with
  | [], _ => []
  | _ :: t, O => x :: t
  | h :: t, S j' => h :: set_nth t j' x
  end.

(** [l[i] = x] *)
Definition setitem {A} (l : list A) (i : Z) (x : A) : res (list A) :=
  match norm_index l i with
  | Some j => Ok (set_nth l j x)
  | None => Raise IndexError
  end.

(** Slice bounds are clamped, never an error. *)
Definition clamp {A} (l : list A) (k : Z) : nat :=
  Z.to_nat (if k <? 0 then Z.max 0 (k + len l) else Z.min k (len l)).

(** [l[:k]] *)
Definition slice_to {A} (l : list A) (k : Z) : list A := firstn (clamp l k) l.

(** [l[k:]] *)
Definition slice_from {A} (l : list A) (k : Z) : list A := skipn (clamp l k) l.

(** [range(a, b)] *)
Definition range (a b : Z) : list Z :=
  map (fun k => a + Z.of_nat k) (seq 0 (Z.to_nat (b - a))).

(** [sorted(l, key=key)] and [sorted(l, key=key, reverse=True)] for keys
    under a total order [ltb].  Python's sort is stable in both
    directions, which fixes the result: it is the one produced by
    inserting the elements from the right, each before the first element
    that does not have to precede it. *)
Section Sorted.
Context {A K : Type} (key : A -> K) (ltb : K -> K -> bool).

Fixpoint insert_asc (x : A) (l : list A) : list A :=
  match l with
  | [] => [x]
  | y :: t => if ltb (key y) (key x) then y :: insert_asc x t
              else x :: y :: t
  end.

Fixpoint insert_desc (x : A) (l : list A) : list A :=
  match l with
  | [] => [x]
  | y :: t => if ltb (key x) (key y) then y :: insert_desc x t
              else x :: y :: t
  end.

Definition sorted (l : list A) : list A := fold_right insert_asc [] l.
Definition sorted_rev (l : list A) : list A := fold_right insert_desc [] l.
End Sorted.

(** A [dict] keeps one value per key; assigning to a key that is present
    replaces its value in place. *)
Section Dict.
Context {K V : Type} (eqb : K -> K -> bool).

Fixpoint dict_set (d : list (K * V)) (k : K) (v : V) : list (K * V) :=
  match d with
  | [] => [(k, v)]
  | (k', v') :: t => if eqb k k' then (k, v) :: t
                     else (k', v') :: dict_set t k v
  end.

Fixpoint dict_get (d : list (K * V)) (k : K) : res V :=
  match d with
  | [] => Raise KeyError
  | (k', v') :: t => if eqb k k' then Ok v' else dict_get t k
  end.

Definition dict_keys (d : list (K * V)) : list K := map fst d.
End Dict.

(** [set.add] on a set kept as a duplicate-free list. *)
Definition set_add (s : list Z) (x : Z) : list Z :=
  if existsb (Z.eqb x) s then s else s ++ [x].

End Py.

Import Py.

Notation "x <- m ;; f" := (Py.bind m (fun x => f))
  (at level 61, m at next level, right associativity).

(* ================================================================== *)
(** ** Regular expressions

    The fragment of Python's [re] used by the parsers and by
    [datetime.strptime]: literals, character classes, sequence, ordered
    alternation, greedy repetition, word boundary, capture groups.  The
    matcher backtracks in Python's order (leftmost alternative first,
    longest repetition first). *)

Module Re.

Inductive regex : Type :=
| Eps
| Cls (p : ascii -> bool)
| Seq (a b : regex)
| Alt (a b : regex)
| Star (a : regex)
| WordB
| Grp (name : ascii) (a : regex).

Definition code (c : ascii) : N := N_of_ascii c.

Definition is_digit (c : ascii) : bool :=
  ((48 <=? code c) && (code c <=? 57))%N.

Definition is_upper (c : ascii) : bool :=
  ((65 <=? code c) && (code c <=? 90))%N.

Definition is_lower (c : ascii) : bool :=
  ((97 <=? code c) && (code c <=? 122))%N.

(** [\w] *)
Definition is_word (c : ascii) : bool :=
  is_digit c || is_upper c || is_lower c || (code c =? 95)%N.

(** [\s], and what [str.strip] removes *)
Definition is_space (c : ascii) : bool :=
  ((9 <=? code c) && (code c <=? 13) || (28 <=? code c) && (code c <=? 32))%N.

Definition lower (c : ascii) : ascii :=
  if is_upper c then ascii_of_N (code c + 32) else c.

Definition Chr (c : ascii) : regex := Cls (Ascii.eqb c).
(** a literal under [re.IGNORECASE] *)
Definition ChrI (c : ascii) : regex := Cls (fun x => Ascii.eqb (lower x) (lower c)).
Definition digit : regex := Cls is_digit.
Definition space : regex := Cls is_space.
Definition Opt (a : regex) : regex := Alt a Eps.
Definition Plus (a : regex) : regex := Seq a (Star a).

Fixpoint lit (s : list ascii) : regex :=
  match s with
  | [] => Eps
  | c :: t => Seq (Chr c) (lit t)
  end.

Fixpoint litI (s : list ascii) : regex :=
  match s with
  | [] => Eps
  | c :: t => Seq (ChrI c) (litI t)
  end.

(** [a1|a2|...|an] *)
Fixpoint alts (l : list regex) : regex :=
  match l with
  | [] => Cls (fun _ => false)
  | [a] => a
  | a :: t => Alt a (alts t)
  end.

Definition captures : Type := list (ascii * list ascii).

Definition is_word_opt (c : option ascii) : bool :=
  match c with
  | Some x => is_word x
  | None => false
  end.

Section Matcher.
Context {R : Type}.

(** [rmatch r prev s caps k]: match [r] at the front of [s], where
    [prev] is the character just before [s]; [k] continues with the
    rest and yields the first success. *)
Fixpoint rmatch (r : regex) (prev : option ascii) (s : list ascii)
    (caps : captures)
    (k : option ascii -> list ascii -> captures -> option R)
    {struct r} : option R :=
  match r with
  | Eps => k prev s caps
  | Cls p =>
      match s with
      | c :: s' => if p c then k (Some c) s' caps else None
      | [] => None
      end
  | Seq a b =>
      rmatch a prev s caps (fun p' s' c' => rmatch b p' s' c' k)
  | Alt a b =>
      match rmatch a prev s caps k with
      | Some x => Some x
      | None => rmatch b prev s caps k
      end
  | Star a =>
      (fix star (fuel : nat) (prev : option ascii) (s : list ascii)
           (caps : captures) {struct fuel} : option R :=
         match fuel with
         | O => k prev s caps
         | S fuel' =>
             match rmatch a prev s caps
                     (fun p' s' c' =>
                        if (List.length s' <? List.length s)%nat
                        then star fuel' p' s' c' else None) with
             | Some x => Some x
             | None => k prev s caps
             end
         end) (List.length s) prev s caps
  | WordB =>
      if xorb (is_word_opt prev) (is_word_opt (hd_error s))
      then k prev s caps else None
  | Grp name a =>
      rmatch a prev s caps
        (fun p' s' c' =>
           k p' s' (c' ++ [(name, firstn (List.length s - List.length s') s)]))
  end.
End Matcher.

Record found : Type := {
  group0 : list ascii;
  groups : captures;
  rest : list ascii
}.

(** a match starting exactly at the front of [s] *)
Definition match_at (r : regex) (prev : option ascii) (s : list ascii)
  : option found :=
  rmatch r prev s []
    (fun _ s' c =>
       Some {| group0 := firstn (List.length s - List.length s') s;
               groups := c; rest := s' |}).

(** [re.search(r, s)]: the leftmost match *)
Fixpoint search_from (r : regex) (prev : option ascii) (s : list ascii)
  : option found :=
  match match_at r prev s with
  | Some m => Some m
  | None =>
      match s with
      | [] => None
      | c :: s' => search_from r (Some c) s'
      end
  end.

Definition search (r : regex) (s : list ascii) : option found :=
  search_from r None s.

(** [re.findall(r, s)] for a pattern without groups that matches no
    empty string: the non-overlapping matches, left to right.  [skip]
    counts the characters of the current match still to pass. *)
Fixpoint findall_from (r : regex) (prev : option ascii) (s : list ascii)
    (skip : nat) : list (list ascii) :=
  match s with
  | [] => []
  | c :: s' =>
      match skip with
      | S n => findall_from r (Some c) s' n
      | O =>
          match match_at r prev s with
          | Some m =>
              group0 m :: findall_from r (Some c) s' (List.length (group0 m) - 1)
          | None => findall_from r (Some c) s' 0
          end
      end
  end.

Definition findall (r : regex) (s : list ascii) : list (list ascii) :=
  findall_from r None s 0.

(** [re.split(r, s)] for a pattern that matches no empty string: the
    pieces between the matches, each followed by the groups of the match
    that ended it. *)
Fixpoint split_from (r : regex) (prev : option ascii) (s : list ascii)
    (skip : nat) (cur : list ascii) : list (list ascii) :=
  match s with
  | [] => [rev cur]
  | c :: s' =>
      match skip with
      | S n => split_from r (Some c) s' n cur
      | O =>
          match match_at r prev s with
          | Some m =>
              match group0 m with
              | [] => split_from r (Some c) s' 0 (c :: cur)
              | _ :: m' =>
                  rev cur :: map snd (groups m)
                    ++ split_from r (Some c) s' (List.length m') []
              end
          | None => split_from r (Some c) s' 0 (c :: cur)
          end
      end
  end.

Definition split (r : regex) (s : list ascii) : list (list ascii) :=
  split_from r None s 0 [].

End Re.

(* ================================================================== *)
(** ** [datetime.strptime] and [date.isoformat]

    The directives used by [DATE_PATTERNS], in an English locale.  The
    format is turned into a regular expression (a run of white space
    becomes [\s+], a directive its group, any other character itself),
    matched case-insensitively at the start of the data, and the match
    must reach the end of the data. *)

Module Strptime.
Import Re.

Definition str (s : string) : list ascii := list_ascii_of_string s.

Definition f_weekday : list string :=
  ["monday"; "tuesday"; "wednesday"; "thursday"; "friday"; "saturday";
   "sunday"]%string.

Definition f_month : list string :=
  ["january"; "february"; "march"; "april"; "may"; "june"; "july";
   "august"; "september"; "october"; "november"; "december"]%string.

(** the names as alternatives, longest first *)
Definition seqToRE (names : list string) : regex :=
  alts (map (fun s => litI (str s))
            (Py.sorted_rev (fun s => Z.of_nat (String.length s)) Z.ltb names)).

Definition nonzero_digit (c : ascii) : bool :=
  ((49 <=? code c) && (code c <=? 57))%N.

Definition directive (c : ascii) : option regex :=
  if Ascii.eqb c "A" then Some (Grp "A" (seqToRE f_weekday))
  else if Ascii.eqb c "B" then Some (Grp "B" (seqToRE f_month))
  else if Ascii.eqb c "d" then
    Some (Grp "d" (alts
      [ Seq (Chr "3") (Cls (fun x => Ascii.eqb x "0" || Ascii.eqb x "1"));
        Seq (Cls (fun x => Ascii.eqb x "1" || Ascii.eqb x "2")) digit;
        Seq (Chr "0") (Cls nonzero_digit);
        Cls nonzero_digit;
        Seq (Chr " ") (Cls nonzero_digit) ]))
  else if Ascii.eqb c "Y" then
    Some (Grp "Y" (Seq digit (Seq digit (Seq digit digit))))
  else None.

Fixpoint format_regex (fmt : list ascii) (in_space : bool) : option regex :=
  match fmt with
  | [] => Some Eps
  | c :: t =>
      if is_space c then
        if in_space then format_regex t true
        else option_map (Seq (Plus space)) (format_regex t true)
      else if Ascii.eqb c "%" then
        match t with
        | d :: t' =>
            match directive d, format_regex t' false with
            | Some r, Some k => Some (Seq r k)
            | _, _ => None
            end
        | [] => None
        end
      else option_map (Seq (ChrI c)) (format_regex t false)
  end.

(** [int(s)] on white space followed by decimal digits *)
Fixpoint digits_value (acc : Z) (s : list ascii) : option Z :=
  match s with
  | [] => Some acc
  | c :: t => if is_digit c
              then digits_value (10 * acc + Z.of_N (code c - 48)) t
              else None
  end.

Fixpoint lstrip (s : list ascii) : list ascii :=
  match s with
  | c :: t => if is_space c then lstrip t else s
  | [] => []
  end.

(** [s.strip()] *)
Definition strip (s : list ascii) : list ascii :=
  rev (lstrip (rev (lstrip s))).

Definition int (s : list ascii) : option Z :=
  match strip s with
  | [] => None
  | d => digits_value 0 d
  end.

Fixpoint group (name : ascii) (c : captures) : option (list ascii) :=
  match c with
  | [] => None
  | (n, v) :: t => if Ascii.eqb n name then Some v else group name t
  end.

Fixpoint index_of (x : list ascii) (l : list string) (i : Z) : option Z :=
  match l with
  | [] => None
  | y :: t => if list_eq_dec ascii_dec x (str y) then Some i
              else index_of x t (i + 1)
  end.

Definition is_leap (y : Z) : bool :=
  (y mod 4 =? 0) && (negb (y mod 100 =? 0) || (y mod 400 =? 0)).

Definition days_in_month (y m : Z) : Z :=
  if m =? 2 then (if is_leap y then 29 else 28)
  else if (m =? 4) || (m =? 6) || (m =? 9) || (m =? 11) then 30
  else 31.

(** the year, month and day a successful [strptime(...).date()] holds;
    [None] stands for the [ValueError] of every failure *)
Definition strptime (data fmt : list ascii) : option (Z * Z * Z) :=
  match format_regex fmt false with
  | None => None
  | Some r =>
      match match_at r None data with
      | None => None
      | Some m =>
          match rest m with
          | _ :: _ => None
          | [] =>
              let year := match group "Y" (groups m) with
                          | Some v => int v
                          | None => Some 1900
                          end in
              let month := match group "B" (groups m) with
                           | Some v => index_of (map lower v) f_month 1
                           | None => Some 1
                           end in
              let day := match group "d" (groups m) with
                         | Some v => int v
                         | None => Some 1
                         end in
              match year, month, day with
              | Some y, Some mo, Some d =>
                  if (1 <=? y) && (y <=? 9999) && (1 <=? d)
                     && (d <=? days_in_month y mo)
                  then Some (y, mo, d) else None
              | _, _, _ => None
              end
          end
      end
  end.

Definition digit_char (d : Z) : ascii := ascii_of_N (48 + Z.to_N (d mod 10)).

(** ["%04d-%02d-%02d"] *)
Definition isoformat (ymd : Z * Z * Z) : string :=
  let '(y, m, d) := ymd in
  string_of_list_ascii
    [ digit_char (y / 1000); digit_char (y / 100); digit_char (y / 10);
      digit_char y; "-"%char; digit_char (m / 10); digit_char m; "-"%char;
      digit_char (d / 10); digit_char d ].

End Strptime.

(* ================================================================== *)
(** ** Utils and parsing *)

Definition str (s : string) : list ascii := list_ascii_of_string s.

Definition DATE_PATTERNS : list string :=
  ["%A %B %d %Y"; "%A, %B %d, %Y"; "%B %d, %Y"]%string.

(** [None] is Python's [None]. *)
Definition try_parse_date (text : list ascii) : option string :=
  let t := Strptime.strip
             (filter (fun c => negb (Ascii.eqb c ",")) text) in
  (fix loop (fmts : list string) : option string :=
     match fmts with
     | [] => None
     | fmt :: more =>
         match Strptime.strptime t (str fmt) with
         | Some ymd => Some (Strptime.isoformat ymd)
         | None => loop more
         end
     end) DATE_PATTERNS.

(** A draw as the parsers build it: [(date, main, bonus)].  The date is
    whatever [try_parse_date] returned, so it can be [None]. *)
Record draw : Type := Draw {
  date : option string;
  main : list Z;
  bonus : option Z
}.

Definition date_eqb (a b : option string) : bool :=
  match a, b with
  | Some x, Some y => String.eqb x y
  | None, None => true
  | _, _ => false
  end.

Definition date_ltb (a b : option string) : bool :=
  match a, b with
  | Some x, Some y => String.ltb x y
  | _, _ => false
  end.

Definition is_some {A} (o : option A) : bool :=
  match o with
  | Some _ => true
  | None => false
  end.

(** [sorted(uniq.keys())]: strings compare by code point; comparing
    [None] with anything is a [TypeError], which needs two keys. *)
Definition sorted_keys (keys : list (option string))
  : res (list (option string)) :=
  match keys with
  | [] | [_] => Ok keys
  | _ => if forallb is_some keys
         then Ok (Py.sorted (fun k => k) date_ltb keys)
         else Raise TypeError
  end.

Fixpoint collect (uniq : list (option string * (list Z * option Z)))
    (keys : list (option string)) : res (list draw) :=
  match keys with
  | [] => Ok []
  | d :: more =>
      v <- dict_get date_eqb uniq d ;;
      tl <- collect uniq more ;;
      Ok (Draw d (fst v) (snd v) :: tl)
  end.

Definition dedupe_by_date (draws : list draw) : res (list draw) :=
  let uniq :=
    fold_left (fun u r => dict_set date_eqb u (date r) (main r, bonus r))
              draws [] in
  keys <- sorted_keys (dict_keys uniq) ;;
  collect uniq keys.

(** What the parsers read off a parsed page: its flattened visible text
    ([soup.get_text(" ", strip=True)]) and, for every table found by
    [find_all("table")], for every row found in it by [find_all("tr")],
    the texts of its [td]/[th] cells. *)
Record soup : Type := Soup {
  get_text : list ascii;
  tables : list (list (list (list ascii)))
}.

Definition month_names : list string :=
  ["January"; "February"; "March"; "April"; "May"; "June"; "July";
   "August"; "September"; "October"; "November"; "December"]%string.

Definition month_re : Re.regex :=
  Re.Grp "1" (Re.alts (map (fun s => Re.lit (str s)) month_names)).

(** [{month}\s+\d{1,2},?\s+\d{4}] *)
Definition date_re (month : list ascii) : Re.regex :=
  Re.Seq (Re.lit month)
   (Re.Seq (Re.Plus Re.space)
    (Re.Seq Re.digit
     (Re.Seq (Re.Opt Re.digit)
      (Re.Seq (Re.Opt (Re.Chr ","))
       (Re.Seq (Re.Plus Re.space)
        (Re.Seq Re.digit (Re.Seq Re.digit (Re.Seq Re.digit Re.digit)))))))).

(** [\b\d{1,2}\b] *)
Definition num_re : Re.regex :=
  Re.Seq Re.WordB
   (Re.Seq Re.digit (Re.Seq (Re.Opt Re.digit) Re.WordB)).

Definition int_of (s : list ascii) : Z :=
  match Strptime.digits_value 0 s with
  | Some z => z
  | None => 0
  end.

(** [[int(n) for n in re.findall(r"\b\d{1,2}\b", text) if 1 <= int(n) <= max_n]] *)
Definition numbers_in (max_n : Z) (text : list ascii) : list Z :=
  filter (fun n => (1 <=? n) && (n <=? max_n))
         (map int_of (Re.findall num_re text)).

(** the tail of both parsers: keep the candidate when it has [count]
    numbers *)
Definition emit (date_iso : option string) (nums : list Z) (count : Z)
    (draws : list draw) : res (list draw) :=
  if len nums >=? count then
    let main := slice_to nums count in
    if len nums >? count then
      b <- getitem nums count ;;
      Ok (draws ++ [Draw date_iso main (Some b)])
    else Ok (draws ++ [Draw date_iso main None])
  else Ok draws.

(** the body of the loop of [parse_wclc_print] for one [i] *)
Definition wclc_block (max_n count : Z) (month rest : list ascii)
    (draws : list draw) : res (list draw) :=
  let block := month ++ rest in
  match Re.search (date_re month) block with
  | None => Ok draws
  | Some mdate =>
      let date_iso := try_parse_date (Re.group0 mdate) in
      let nums := numbers_in max_n block in
      emit date_iso nums count draws
  end.

(** [for i in range(1, len(parts), 2)] over [parts[1:]] *)
Fixpoint wclc_loop (max_n count : Z) (parts : list (list ascii))
    (draws : list draw) : res (list draw) :=
  match parts with
  | [] => Ok draws
  | [month] => wclc_block max_n count month [] draws
  | month :: rest :: more =>
      draws' <- wclc_block max_n count month rest draws ;;
      wclc_loop max_n count more draws'
  end.

Definition parse_wclc_print (s : soup) (max_n count : Z) : res (list draw) :=
  let text := get_text s in
  let parts := Re.split month_re text in
  draws <- wclc_loop max_n count (tl parts) [] ;;
  dedupe_by_date draws.

(** [for c in cells: date_iso = try_parse_date(c); if date_iso: break] *)
Fixpoint first_date (cells : list (list ascii)) : option string :=
  match cells with
  | [] => None
  | c :: more =>
      match try_parse_date c with
      | Some d => Some d
      | None => first_date more
      end
  end.

(** the [seen]/[cleaned] loop *)
Fixpoint clean (nums : list Z) (seen cleaned : list Z) : list Z :=
  match nums with
  | [] => cleaned
  | v :: more =>
      if existsb (Z.eqb v) seen then clean more seen cleaned
      else clean more (set_add seen v) (cleaned ++ [v])
  end.

Definition generic_row (max_n count : Z) (cells : list (list ascii))
    (draws : list draw) : res (list draw) :=
  match cells with
  | [] => Ok draws
  | _ =>
      match first_date cells with
      | None => Ok draws
      | Some d =>
          let nums := flat_map (numbers_in max_n) cells in
          let cleaned := clean nums [] [] in
          emit (Some d) cleaned count draws
      end
  end.

Fixpoint for_each {A S} (body : A -> S -> res S) (l : list A) (s : S)
  : res S :=
  match l with
  | [] => Ok s
  | x :: more => s' <- body x s ;; for_each body more s'
  end.

Definition parse_generic_tables (s : soup) (max_n count : Z)
  : res (list draw) :=
  draws <- for_each (fun table => for_each (generic_row max_n count) table)
                    (tables s) [] ;;
  dedupe_by_date draws.

(* ================================================================== *)
(** ** Source fallback fetcher *)

Record source_group : Type := SourceGroup {
  label : string;
  urls : list string;
  parser : string
}.

Record game_config : Type := GameConfig {
  count : Z;
  max_n : Z;
  sources : list source_group;
  official_info : string
}.

Definition GAMES : list (string * game_config) :=
  [ ("Lotto 6/49",
     GameConfig 6 49
       [ SourceGroup "WCLC"
           [ "https://www.wclc.com/winning-numbers/lotto-649-extra.htm?channel=print";
             "https://www.wclc.com/winning-numbers/lotto-649-extra.htm?channel=print&printMode=true" ]
           "wclc";
         SourceGroup "OLG"
           [ "https://www.olg.ca/en/lottery/play-lotto-649-encore/past-results.html";
             "https://lottery.olg.ca/en-ca/winning-numbers/lotto-6-49" ]
           "generic";
         SourceGroup "ALC"
           [ "https://www.alc.ca/content/alc/en/winning-numbers.html" ]
           "generic" ]
       "https://www.olg.ca/en/lottery/play-lotto-649-encore/past-results.html");
    ("Lotto Max",
     GameConfig 7 50
       [ SourceGroup "WCLC"
           [ "https://www.wclc.com/winning-numbers/lotto-max-extra.htm?channel=print";
             "https://www.wclc.com/winning-numbers/lotto-max-extra.htm?channel=print&printMode=true" ]
           "wclc";
         SourceGroup "OLG"
           [ "https://www.olg.ca/en/lottery/play-lotto-max-encore/past-results.html";
             "https://lottery.olg.ca/en-ca/winning-numbers/lotto-max" ]
           "generic";
         SourceGroup "ALC"
           [ "https://www.alc.ca/content/alc/en/winning-numbers.html" ]
           "generic" ]
       "https://www.olg.ca/en/lottery/play-lotto-max-encore/past-results.html")
  ]%string.

(** What the fetcher does to the outside, in order: a request, or a
    message handed to [progress_cb] (the data its text is built from). *)
Inductive event : Type :=
| Request (url : string)
| SkipMsg (label url : string) (status_code : Z)
| ParsedMsg (label url : string) (n : Z)
| ErrorMsg (label url : string).

Definition requested (log : list event) : list string :=
  flat_map (fun e => match e with Request u => [u] | _ => [] end) log.

Section Fetch.
(** [requests] and [BeautifulSoup] were imported *)
Variable available : bool.
(** [requests.get(url, ...)] as the k-th request of the call: the
    status code and body, or [None] when it raises *)
Variable http_get : nat -> string -> option (Z * list ascii).
(** [BeautifulSoup(text, "html.parser")] *)
Variable make_soup : list ascii -> res soup.

(** the body of [for url in group["urls"]]; every exception raised
    inside it is caught there *)
Definition fetch_url (cfg : game_config) (g : source_group) (url : string)
    (st : list draw * list event) : list draw * list event :=
  let '(all_draws, log) := st in
  let k := List.length (requested log) in
  let log := log ++ [Request url] in
  match http_get k url with
  | None => (all_draws, log ++ [ErrorMsg (label g) url])
  | Some (status_code, text) =>
      if negb (status_code =? 200)
      then (all_draws, log ++ [SkipMsg (label g) url status_code])
      else
        match (s <- make_soup text ;;
               if String.eqb (parser g) "wclc"
               then parse_wclc_print s (max_n cfg) (count cfg)
               else parse_generic_tables s (max_n cfg) (count cfg)) with
        | Ok parsed =>
            (all_draws ++ parsed,
             log ++ [ParsedMsg (label g) url (len parsed)])
        | Raise _ => (all_draws, log ++ [ErrorMsg (label g) url])
        end
  end.

(** one round of [for group in cfg["sources"]] up to its [if] *)
Definition fetch_group (cfg : game_config) (g : source_group)
    (log : list event) : res (list draw) * list event :=
  let '(all_draws, log') :=
    fold_left (fun st url => fetch_url cfg g url st) (urls g) ([], log) in
  (dedupe_by_date all_draws, log').

Fixpoint try_groups (cfg : game_config) (groups : list source_group)
    (log : list event) : res (list draw * string) * list event :=
  match groups with
  | [] => (Ok ([], "none"%string), log)
  | g :: more =>
      match fetch_group cfg g log with
      | (Raise e, log') => (Raise e, log')
      | (Ok [], log') => try_groups cfg more log'
      | (Ok all_draws, log') => (Ok (all_draws, label g), log')
      end
  end.

Definition fetch_with (cfg : game_config)
  : res (list draw * string) * list event :=
  if negb available then (Ok ([], "offline"%string), [])
  else try_groups cfg (sources cfg) [].

Definition fetch_archives_with_fallback (game_key : string)
  : res (list draw * string) * list event :=
  match dict_get String.eqb GAMES game_key with
  | Raise e => (Raise e, [])
  | Ok cfg => fetch_with cfg
  end.
End Fetch.

(* ================================================================== *)
(** ** Stats and picks *)

Record stats : Type := Stats {
  freq : list Z;
  last_seen : list (option Z);
  hot : list (Z * Z);
  cold : list (Z * Z);
  overdue : list (Z * Z);
  sample_size : Z
}.

(** [l[n]] for an index known to be inside the list *)
Definition item {A} (l : list A) (n : Z) (d : A) : A := nth (Z.to_nat n) l d.

(** [freq[n] += 1; last_seen[n] = i] *)
Definition tally (i n : Z) (st : list Z * list (option Z))
  : res (list Z * list (option Z)) :=
  f <- getitem (fst st) n ;;
  freq' <- setitem (fst st) n (f + 1) ;;
  last' <- setitem (snd st) n (Some i) ;;
  Ok (freq', last').

(** [for d, main, bonus in draws: i += 1; for n in main: ...] *)
Fixpoint tally_draws (draws : list draw) (i : Z)
    (st : list Z * list (option Z))
  : res (Z * (list Z * list (option Z))) :=
  match draws with
  | [] => Ok (i, st)
  | d :: more =>
      st' <- for_each (tally (i + 1)) (main d) st ;;
      tally_draws more (i + 1) st'
  end.

(** [draws[-lookback:]] under [if lookback:] *)
Definition window (draws : list draw) (lookback : option Z) : list draw :=
  match lookback with
  | None => draws
  | Some lb => if lb =? 0 then draws else slice_from draws (- lb)
  end.

(** [None] is the empty dict returned for an empty draw list. *)
Definition compute_stats (draws : list draw) (max_n count : Z)
    (lookback : option Z) : res (option stats) :=
  match draws with
  | [] => Ok None
  | _ =>
      let draws := window draws lookback in
      let freq := repeat 0 (Z.to_nat (max_n + 1)) in
      let last_seen := repeat (@None Z) (Z.to_nat (max_n + 1)) in
      r <- tally_draws draws 0 (freq, last_seen) ;;
      let '(i, (freq, last_seen)) := r in
      let cur := i + 1 in
      let overdue :=
        map (fun n => (n, match item last_seen n None with
                          | Some ls => cur - ls
                          | None => cur
                          end)) (range 1 (max_n + 1)) in
      let overdue := sorted_rev snd Z.ltb overdue in
      let by_freq := map (fun n => (n, item freq n 0)) (range 1 (max_n + 1)) in
      let hot := sorted_rev snd Z.ltb by_freq in
      let cold := sorted snd Z.ltb by_freq in
      Ok (Some (Stats freq last_seen hot cold overdue i))
  end.

(** [{n: i+1 for i, (n, _) in enumerate(ranking)}] *)
Fixpoint rank_dict (ranking : list (Z * Z)) (i : Z) (d : list (Z * Z))
  : list (Z * Z) :=
  match ranking with
  | [] => d
  | (n, _) :: more => rank_dict more (i + 1) (dict_set Z.eqb d n (i + 1))
  end.

(** The weighting model, the sampler and the selector follow, first in
    exact arithmetic: a quotient, a product or a sum is the rational
    number itself.  The module [Double] below has the weights and the
    selector in the arithmetic of the code. *)

(** [(len(rank) + 1 - rank[n]) / len(rank)] *)
Definition rank_score (rank : list (Z * Z)) (n : Z) : res Q :=
  r <- dict_get Z.eqb rank n ;;
  if len rank =? 0 then Raise ZeroDivisionError
  else Ok (inject_Z (len rank + 1 - r) / inject_Z (len rank))%Q.

Definition flavor_bonus (flavor : string) (hr orank : Q) : Q :=
  if String.eqb flavor "hot" then (2 * hr + (1 # 2) * orank)%Q
  else if String.eqb flavor "overdue" then (2 * orank + (1 # 2) * hr)%Q
  else (1 * hr + 1 * orank)%Q.

Definition smart_weight (st : option stats) (max_n : Z) (flavor : string)
  : res (list Q) :=
  let base := repeat 1%Q (Z.to_nat (max_n + 1)) in
  match st with
  | None => Raise KeyError
  | Some st =>
      let hot_rank := rank_dict (hot st) 0 [] in
      let overdue_rank := rank_dict (overdue st) 0 [] in
      for_each (fun n base =>
                  hr <- rank_score hot_rank n ;;
                  orank <- rank_score overdue_rank n ;;
                  b <- getitem base n ;;
                  setitem base n (b + flavor_bonus flavor hr orank)%Q)
               (range 1 (max_n + 1)) base
  end.

(** [itertools.accumulate] *)
Fixpoint running (total : Q) (w : list Q) : list Q :=
  match w with
  | [] => []
  | x :: t => (total + x)%Q :: running (total + x)%Q t
  end.

Definition accumulate (w : list Q) : list Q :=
  match w with
  | [] => []
  | x :: t => x :: running x t
  end.

Definition Qltb (x y : Q) : bool := negb (Qle_bool y x).

(** [bisect.bisect(a, x, lo, hi)], that is [bisect_right]:
    [while lo < hi: mid = (lo + hi) // 2;
       if x < a[mid]: hi = mid  else: lo = mid + 1]
    and [lo] is returned.  The interval shrinks at every iteration, so
    [hi - lo] iterations are enough. *)
Fixpoint bisect_loop (fuel : nat) (a : list Q) (x : Q) (lo hi : nat) : nat :=
  match fuel with
  | O => lo
  | S fuel' =>
      if (lo <? hi)%nat then
        let mid := ((lo + hi) / 2)%nat in
        if Qltb x (nth mid a 0%Q) then bisect_loop fuel' a x lo mid
        else bisect_loop fuel' a x (S mid) hi
      else lo
  end.

Definition bisect (a : list Q) (x : Q) (lo hi : nat) : nat :=
  bisect_loop (hi - lo) a x lo hi.

(** [random.choices(population, weights=weights, k=1)[0]] when
    [random.random()] returns [r] *)
Definition choices (population : list Z) (weights : list Q) (r : Q) : res Z :=
  let cum_weights := accumulate weights in
  if negb (len cum_weights =? len population) then Raise ValueError
  else
    total <- getitem cum_weights (-1) ;;
    if Qle_bool total 0 then Raise ValueError
    else getitem population
           (Z.of_nat (bisect cum_weights (r * total)%Q 0
                        (List.length population - 1))).

(** the state of the loop of [smart_pick]: the weights, the picks, and
    the number of iterations done *)
Definition pick_state : Type := list Q * list Z * nat.

(** one iteration; also gives the number selected *)
Definition pick_step (max_n : Z) (random : nat -> Q) (st : pick_state)
  : res (Z * pick_state) :=
  let '(base, picks, k) := st in
  i <- choices (range 1 (max_n + 1)) (slice_from base 1) (random k) ;;
  base' <- setitem base i 0%Q ;;
  Ok (i, (base', set_add picks i, S k)).

(** [while len(picks) < count]; [Ok None] when [fuel] iterations were
    not enough *)
Fixpoint pick_loop (fuel : nat) (max_n count : Z) (random : nat -> Q)
    (st : pick_state) : res (option pick_state) :=
  if len (snd (fst st)) <? count then
    match fuel with
    | O => Ok None
    | S fuel' =>
        r <- pick_step max_n random st ;;
        pick_loop fuel' max_n count random (snd r)
    end
  else Ok (Some st).

Definition smart_pick (fuel : nat) (random : nat -> Q) (st : option stats)
    (max_n count : Z) (flavor : string) : res (option (list Z)) :=
  base <- smart_weight st max_n flavor ;;
  r <- pick_loop fuel max_n count random (base, [], O) ;;
  Ok (option_map (fun s : pick_state =>
                    sorted (fun n => n) Z.ltb (snd (fst s))) r).

(** [sorted(range(1, max_n+1), key=lambda n: base[n], reverse=True)] *)
Definition ranking_of (base : list Q) (max_n : Z) : list Z :=
  sorted_rev (fun n => item base n 0%Q) Qltb (range 1 (max_n + 1)).

Definition top_line (base : list Q) (max_n count : Z) : list Z :=
  sorted (fun n => n) Z.ltb (slice_to (ranking_of base max_n) count).

Definition top_probability_line (st : option stats) (max_n count : Z)
    (flavor : string) : res (list Z) :=
  base <- smart_weight st max_n flavor ;;
  Ok (top_line base max_n count).

(* ================================================================== *)
(** ** The weighting model and the selector in double precision

    The weights as the code computes them: [float] is IEEE 754 binary64,
    every operation rounds to nearest, ties to even.  [int / int] is the
    correctly rounded quotient of the two integers, whatever their size. *)

Module Double.

Definition prec : Z := 53.
Definition emax : Z := 1024.

Definition double : Type := spec_float.

Definition add : double -> double -> double := SFadd prec emax.
Definition mul : double -> double -> double := SFmul prec emax.

(** [x < y] *)
Definition ltb : double -> double -> bool := SFltb.

(** the literals [0.0], [0.5], [1.0] and [2.0] *)
Definition zero : double := S754_zero false.
Definition half : double := S754_finite false 4503599627370496 (-53).
Definition one : double := S754_finite false 4503599627370496 (-52).
Definition two : double := S754_finite false 4503599627370496 (-51).

(** [a / b] for integers: [ZeroDivisionError] for a zero divisor,
    [OverflowError] when the quotient is too large for a float *)
Definition truediv (a b : Z) : res double :=
  match b with
  | 0 => Raise ZeroDivisionError
  | _ =>
      match a with
      | 0 => Ok (S754_zero (b <? 0))
      | _ =>
          match SFdiv prec emax
                  (S754_finite (a <? 0) (Z.to_pos (Z.abs a)) 0)
                  (S754_finite (b <? 0) (Z.to_pos (Z.abs b)) 0) with
          | S754_infinity _ => Raise OverflowError
          | q => Ok q
          end
      end
  end.

(** [(len(rank) + 1 - rank[n]) / len(rank)] *)
Definition rank_score (rank : list (Z * Z)) (n : Z) : res double :=
  r <- dict_get Z.eqb rank n ;;
  truediv (len rank + 1 - r) (len rank).

Definition flavor_bonus (flavor : string) (hr orank : double) : double :=
  if String.eqb flavor "hot" then add (mul two hr) (mul half orank)
  else if String.eqb flavor "overdue" then add (mul two orank) (mul half hr)
  else add (mul one hr) (mul one orank).

Definition smart_weight (st : option stats) (max_n : Z) (flavor : string)
  : res (list double) :=
  let base := repeat one (Z.to_nat (max_n + 1)) in
  match st with
  | None => Raise KeyError
  | Some st =>
      let hot_rank := rank_dict (hot st) 0 [] in
      let overdue_rank := rank_dict (overdue st) 0 [] in
      for_each (fun n base =>
                  hr <- rank_score hot_rank n ;;
                  orank <- rank_score overdue_rank n ;;
                  b <- getitem base n ;;
                  setitem base n (add b (flavor_bonus flavor hr orank)))
               (range 1 (max_n + 1)) base
  end.

(** [sorted(range(1, max_n+1), key=lambda n: base[n], reverse=True)] *)
Definition ranking_of (base : list double) (max_n : Z) : list Z :=
  sorted_rev (fun n => item base n zero) ltb (range 1 (max_n + 1)).

Definition top_line (base : list double) (max_n count : Z) : list Z :=
  sorted (fun n => n) Z.ltb (slice_to (ranking_of base max_n) count).

Definition top_probability_line (st : option stats) (max_n count : Z)
    (flavor : string) : res (list Z) :=
  base <- smart_weight st max_n flavor ;;
  Ok (top_line base max_n count).

End Double.

(* ================================================================== *)
(** ** The update worker and the smart-pick action *)

(** [self.draw_cache] and [self.stats_cache].  In the second, [None]
    stands for the two falsy values it can hold, [None] and the empty
    dict: its readers only test [if not stats]. *)
Record caches : Type := Caches {
  draw_cache : list (string * list draw);
  stats_cache : list (string * option stats)
}.

Definition is_empty {A} (l : list A) : bool :=
  match l with
  | [] => true
  | _ => false
  end.

Section Worker.
Variable available : bool.
(** the web during the fetch for a game *)
Variable http_get : string -> nat -> string -> option (Z * list ascii).
Variable make_soup : list ascii -> res soup.
(** what [self._get_lookback()] returns *)
Variable lookback : option Z.

(** The body of [for game in GAMES.keys()] in [_update_worker], the
    lines written to the analysis box left out: the exception that ends
    it, if any, and the caches as they are by then. *)
Definition update_game (game : string) (c : caches) : option exn * caches :=
  match fst (fetch_archives_with_fallback available (http_get game)
               make_soup game) with
  | Raise e => (Some e, c)
  | Ok (draws, source_label) =>
      let c := Caches (dict_set String.eqb (draw_cache c) game draws)
                      (stats_cache c) in
      if String.eqb source_label "none" || is_empty draws
      then (None, Caches (draw_cache c)
                         (dict_set String.eqb (stats_cache c) game None))
      else
        match (cfg <- dict_get String.eqb GAMES game ;;
               compute_stats draws (max_n cfg) (count cfg) lookback) with
        | Raise e => (Some e, c)
        | Ok st =>
            (None, Caches (draw_cache c)
                          (dict_set String.eqb (stats_cache c) game st))
        end
  end.

Fixpoint update_games (games : list string) (c : caches)
  : option exn * caches :=
  match games with
  | [] => (None, c)
  | game :: more =>
      match update_game game c with
      | (Some e, c') => (Some e, c')
      | (None, c') => update_games more c'
      end
  end.

(** [Some e] is the exception the [except] clause caught *)
Definition _update_worker (c : caches) : option exn * caches :=
  update_games (dict_keys GAMES) c.
End Worker.

(** [generate_smart_with_bonus], the display and the history file left
    out: [None] when the warning box is shown, else the three lines and
    the bonus line.  [randoms j] is [random.random()] during the [j]-th
    call of [smart_pick]; a line is [None] when [fuel] iterations were
    not enough for it.  The bonus line is a function of the weights, so
    it is computed in double precision. *)
Definition generate_smart_with_bonus (fuel : nat) (randoms : nat -> nat -> Q)
    (c : caches) (game flavor : string)
  : res (option (list (option (list Z)) * list Z)) :=
  cfg <- dict_get String.eqb GAMES game ;;
  match (match dict_get String.eqb (stats_cache c) game with
         | Ok stats => stats
         | Raise _ => None
         end) with
  | None => Ok None
  | Some st =>
      l1 <- smart_pick fuel (randoms 0%nat) (Some st) (max_n cfg) (count cfg)
              flavor ;;
      l2 <- smart_pick fuel (randoms 1%nat) (Some st) (max_n cfg) (count cfg)
              flavor ;;
      l3 <- smart_pick fuel (randoms 2%nat) (Some st) (max_n cfg) (count cfg)
              flavor ;;
      bonus_line <- Double.top_probability_line (Some st) (max_n cfg)
                      (count cfg) flavor ;;
      Ok (Some ([l1; l2; l3], bonus_line))
  end.

(* ================================================================== *)
(** * Properties *)

(** ** Lists, indices and ranges *)

Lemma len_nonneg {A} (l : list A) : 0 <= len l.
Proof. unfold len; lia. Qed.

Lemma norm_index_in {A} (l : list A) (i : Z) :
  0 <= i < len l -> norm_index l i = Some (Z.to_nat i).
Proof.
  intros H. unfold norm_index.
  destruct (Z.ltb_spec i 0); [lia|].
  destruct (Z.leb_spec 0 i); [|lia].
  destruct (Z.ltb_spec i (len l)); [reflexivity|lia].
Qed.

Lemma getitem_in {A} (l : list A) (i : Z) (d : A) :
  0 <= i < len l -> getitem l i = Ok (item l i d).
Proof.
  intros H. unfold getitem, item. rewrite norm_index_in by assumption.
  destruct (nth_error l (Z.to_nat i)) eqn:E.
  - now rewrite (nth_error_nth _ _ d E).
  - apply nth_error_None in E. unfold len in H. lia.
Qed.

Lemma setitem_in {A} (l : list A) (i : Z) (x : A) :
  0 <= i < len l -> setitem l i x = Ok (set_nth l (Z.to_nat i) x).
Proof. intros H. unfold setitem. now rewrite norm_index_in. Qed.

Lemma set_nth_length {A} (l : list A) (j : nat) (x : A) :
  List.length (set_nth l j x) = List.length l.
Proof.
  revert j; induction l as [|h t IH]; intros [|j]; simpl; auto.
Qed.

Lemma nth_set_nth_eq {A} (l : list A) (j : nat) (x d : A) :
  (j < List.length l)%nat -> nth j (set_nth l j x) d = x.
Proof.
  revert j; induction l as [|h t IH]; intros [|j] H; simpl in *;
    try lia; auto. apply IH; lia.
Qed.

Lemma nth_set_nth_neq {A} (l : list A) (j k : nat) (x d : A) :
  j <> k -> nth k (set_nth l j x) d = nth k l d.
Proof.
  revert j k; induction l as [|h t IH]; intros [|j] [|k] H; simpl;
    try congruence; auto.
Qed.

Lemma len_set_nth {A} (l : list A) (j : nat) (x : A) :
  len (set_nth l j x) = len l.
Proof. unfold len. now rewrite set_nth_length. Qed.

Lemma item_set_nth_eq {A} (l : list A) (n : Z) (x d : A) :
  0 <= n < len l -> item (set_nth l (Z.to_nat n) x) n d = x.
Proof. intros H. unfold item. apply nth_set_nth_eq. unfold len in H. lia. Qed.

Lemma item_set_nth_neq {A} (l : list A) (n m : Z) (x d : A) :
  0 <= n -> 0 <= m -> n <> m ->
  item (set_nth l (Z.to_nat n) x) m d = item l m d.
Proof. intros Hn Hm H. unfold item. apply nth_set_nth_neq. lia. Qed.

Lemma range_length (a b : Z) : List.length (range a b) = Z.to_nat (b - a).
Proof. unfold range. now rewrite length_map, length_seq. Qed.

Lemma In_range (a b n : Z) : In n (range a b) <-> a <= n < b.
Proof.
  unfold range. rewrite in_map_iff. split.
  - intros [k [<- Hk]]. apply in_seq in Hk. lia.
  - intros H. exists (Z.to_nat (n - a)). split; [lia|].
    apply in_seq. lia.
Qed.

Lemma range_sorted (a b : Z) : StronglySorted Z.lt (range a b).
Proof.
  unfold range. generalize (Z.to_nat (b - a)) as m. intros m.
  generalize 0%nat as s. induction m as [|m IH]; intros s; simpl.
  - constructor.
  - constructor; [apply IH|].
    apply Forall_forall. intros x Hx. apply in_map_iff in Hx.
    destruct Hx as [k [<- Hk]]. apply in_seq in Hk. lia.
Qed.

Lemma NoDup_range (a b : Z) : NoDup (range a b).
Proof.
  generalize (range_sorted a b). generalize (range a b) as l.
  induction 1 as [|x l Hs IH Hx]; constructor; auto.
  intros Hin. rewrite Forall_forall in Hx. specialize (Hx x Hin). lia.
Qed.

Lemma for_each_app {A S} (body : A -> S -> res S) (l1 l2 : list A) (s : S) :
  for_each body (l1 ++ l2) s = (s' <- for_each body l1 s ;; for_each body l2 s').
Proof.
  revert s; induction l1 as [|x t IH]; intros s; simpl; [reflexivity|].
  destruct (body x s); simpl; auto.
Qed.

Lemma for_each_invariant {A S} (body : A -> S -> res S) (P : S -> Prop)
    (l : list A) :
  (forall x s s', body x s = Ok s' -> P s -> P s') ->
  forall s s', for_each body l s = Ok s' -> P s -> P s'.
Proof.
  intros Hb. induction l as [|x t IH]; intros s s' H Hs; cbn [for_each] in H.
  - now injection H as <-.
  - destruct (body x s) as [s1|] eqn:E; [|discriminate].
    cbn [Py.bind] in H. apply (IH s1 s' H). apply (Hb x s s1 E Hs).
Qed.

(* ================================================================== *)
(** ** The statistics engine *)

Definition Zsum (l : list Z) : Z := fold_right Z.add 0 l.

(** [sum(frequency[n] for n in 1..maxNumber)] *)
Definition frequency_sum (st : stats) (max_n : Z) : Z :=
  Zsum (map (fun n => item (freq st) n 0) (range 1 (max_n + 1))).

Lemma Zsum_cons (x : Z) (l : list Z) : Zsum (x :: l) = x + Zsum l.
Proof. reflexivity. Qed.

Lemma Zsum_bump (g g' : Z -> Z) (n : Z) (l : list Z) :
  NoDup l -> In n l -> g' n = g n + 1 ->
  (forall m, m <> n -> g' m = g m) ->
  Zsum (map g' l) = Zsum (map g l) + 1.
Proof.
  intros Hnd Hin Hn Hm. induction Hnd as [|x l Hx Hnd IH]; [easy|].
  cbn [map]. rewrite !Zsum_cons. destruct (Z.eq_dec x n) as [->|Hne].
  - assert (E : map g' l = map g l).
    { apply map_ext_in. intros m Hml. apply Hm. congruence. }
    rewrite Hn, E. lia.
  - destruct Hin as [->|Hin]; [congruence|].
    rewrite (Hm x Hne), (IH Hin). lia.
Qed.

Section Tally.
Variable max_n : Z.

Let total (f : list Z) : Z :=
  Zsum (map (fun n => item f n 0) (range 1 (max_n + 1))).

Let shaped (st : list Z * list (option Z)) : Prop :=
  len (fst st) = Z.of_nat (Z.to_nat (max_n + 1)) /\
  len (snd st) = Z.of_nat (Z.to_nat (max_n + 1)).

Lemma tally_ok (i n : Z) (st : list Z * list (option Z)) :
  shaped st -> 1 <= n <= max_n ->
  exists st', tally i n st = Ok st' /\ shaped st' /\
              total (fst st') = total (fst st) + 1.
Proof.
  intros [Hf Hl] Hn. destruct st as [f l]. simpl in *. unfold tally. simpl.
  rewrite (getitem_in f n 0) by lia. simpl.
  rewrite setitem_in by lia. simpl.
  rewrite setitem_in by lia. simpl.
  eexists; split; [reflexivity|]. split.
  - split; simpl; rewrite len_set_nth; assumption.
  - simpl. unfold total. apply Zsum_bump with (n := n).
    + apply NoDup_range.
    + apply In_range. lia.
    + apply item_set_nth_eq. lia.
    + intros m Hm. unfold item. apply nth_set_nth_neq. lia.
Qed.

Lemma tally_main_ok (i : Z) (ns : list Z) (st : list Z * list (option Z)) :
  shaped st -> (forall n, In n ns -> 1 <= n <= max_n) ->
  exists st', for_each (tally i) ns st = Ok st' /\ shaped st' /\
              total (fst st') = total (fst st) + len ns.
Proof.
  revert st. induction ns as [|n ns IH]; intros st Hs Hns; simpl.
  - exists st. repeat split; try apply Hs. unfold len; simpl; lia.
  - destruct (tally_ok i n st Hs) as [st1 [E1 [Hs1 T1]]].
    { apply Hns. now left. }
    rewrite E1. simpl.
    destruct (IH st1 Hs1) as [st2 [E2 [Hs2 T2]]].
    { intros m Hm. apply Hns. now right. }
    exists st2. repeat split; try apply Hs2; [assumption|].
    rewrite T2, T1. unfold len. simpl. lia.
Qed.

Lemma tally_draws_ok (count : Z) (draws : list draw) (i : Z)
    (st : list Z * list (option Z)) :
  shaped st ->
  (forall d, In d draws ->
     len (main d) = count /\ forall n, In n (main d) -> 1 <= n <= max_n) ->
  exists st', tally_draws draws i st = Ok (i + len draws, st') /\
              shaped st' /\
              total (fst st') = total (fst st) + len draws * count.
Proof.
  revert i st. induction draws as [|d ds IH]; intros i st Hs Hd;
    cbn [tally_draws].
  - exists st. unfold len; simpl. repeat split; try apply Hs.
    + do 2 f_equal. lia.
    + lia.
  - destruct (Hd d (or_introl eq_refl)) as [Hc Hr].
    destruct (tally_main_ok (i + 1) (main d) st Hs Hr) as [st1 [E1 [Hs1 T1]]].
    rewrite E1. cbn [Py.bind].
    destruct (IH (i + 1) st1 Hs1) as [st2 [E2 [Hs2 T2]]].
    { intros d' Hd'. apply Hd. now right. }
    exists st2. rewrite E2. repeat split; try apply Hs2.
    + do 2 f_equal. unfold len. cbn [List.length]. lia.
    + rewrite T2, T1, Hc. 
      replace (len (d :: ds)) with (len ds + 1)
        by (unfold len; cbn [List.length]; lia).
      lia.
Qed.

Lemma total_zero :
  total (repeat 0 (Z.to_nat (max_n + 1))) = 0.
Proof.
  unfold total. induction (range 1 (max_n + 1)) as [|n l IH]; simpl; auto.
  rewrite IH. unfold item. rewrite nth_repeat. reflexivity.
Qed.
End Tally.

Lemma tally_lengths (i n : Z) (st st' : list Z * list (option Z)) :
  tally i n st = Ok st' ->
  List.length (fst st') = List.length (fst st) /\
  List.length (snd st') = List.length (snd st).
Proof.
  unfold tally. destruct (getitem (fst st) n); [|discriminate].
  cbn [Py.bind]. unfold setitem.
  destruct (norm_index (fst st) n); [|discriminate]. cbn [Py.bind].
  destruct (norm_index (snd st) n); [|discriminate]. cbn [Py.bind].
  intros H. injection H as <-. cbn [fst snd].
  now rewrite !set_nth_length.
Qed.

Lemma tally_draws_lengths (draws : list draw) (i j : Z)
    (st st' : list Z * list (option Z)) :
  tally_draws draws i st = Ok (j, st') ->
  List.length (fst st') = List.length (fst st) /\
  List.length (snd st') = List.length (snd st).
Proof.
  revert i st. induction draws as [|d ds IH]; intros i st H;
    cbn [tally_draws] in H.
  - injection H as _ <-. now split.
  - destruct (for_each (tally (i + 1)) (main d) st) as [st1|] eqn:E;
      [|discriminate].
    cbn [Py.bind] in H. apply IH in H.
    assert (L : List.length (fst st1) = List.length (fst st) /\
                List.length (snd st1) = List.length (snd st)).
    { apply (for_each_invariant (tally (i + 1))
               (fun s => List.length (fst s) = List.length (fst st) /\
                         List.length (snd s) = List.length (snd st))
               (main d)) with (s := st); auto.
      intros n s s' Ht [H1 H2]. apply tally_lengths in Ht.
      destruct Ht as [T1 T2]. split; congruence. }
    destruct H as [H1 H2], L as [L1 L2]. split; congruence.
Qed.

(** The snapshot's arrays have an entry for every number of 0..max_n, so
    the readings [freq[n]] and [last_seen[n]] for n in 1..max_n are inside
    them. *)
Lemma compute_stats_lengths (draws : list draw) (max_n count : Z)
    (lookback : option Z) (st : stats) :
  compute_stats draws max_n count lookback = Ok (Some st) ->
  List.length (freq st) = Z.to_nat (max_n + 1) /\
  List.length (last_seen st) = Z.to_nat (max_n + 1).
Proof.
  unfold compute_stats. destruct draws as [|d ds]; [discriminate|].
  destruct (tally_draws _ 0 _) as [[i [f l]]|e] eqn:E; [|discriminate].
  cbn [Py.bind]. intros H. injection H as <-. cbn [freq last_seen].
  apply tally_draws_lengths in E. cbn [fst snd] in E.
  now rewrite !repeat_length in E.
Qed.

Lemma In_window (draws : list draw) (lookback : option Z) (d : draw) :
  In d (window draws lookback) -> In d draws.
Proof.
  unfold window. destruct lookback as [lb|]; auto.
  destruct (lb =? 0); auto. unfold slice_from. intros H.
  rewrite <- (firstn_skipn (clamp draws (- lb)) draws).
  apply in_or_app. now right.
Qed.

Lemma tally_draws_main (a b : list draw) (i : Z)
    (st : list Z * list (option Z)) :
  map main a = map main b -> tally_draws a i st = tally_draws b i st.
Proof.
  revert b i st. induction a as [|x a IH]; intros [|y b] i st H;
    simpl in *; try discriminate; auto.
  injection H as Hx Hab. rewrite Hx.
  destruct (for_each (tally (i + 1)) (main y) st); simpl; auto.
Qed.

Lemma window_main (a b : list draw) (lookback : option Z) :
  map main a = map main b ->
  map main (window a lookback) = map main (window b lookback).
Proof.
  intros H. unfold window. destruct lookback as [lb|]; auto.
  destruct (lb =? 0); auto. unfold slice_from.
  assert (L : List.length a = List.length b).
  { rewrite <- (length_map main a), H. apply length_map. }
  unfold clamp, len. rewrite L, <- !skipn_map, H. reflexivity.
Qed.

(** C6. For a non-empty draw list whose records all have [count] main
    numbers, each in 1..max_n, and any lookback, [compute_stats] returns
    a snapshot whose frequencies over 1..max_n add up to
    [sample_size * count], where [sample_size] is the number of draws
    left by the trailing lookback slice. *)
Theorem frequency_sum_is_sample_size_times_count
    (draws : list draw) (max_n count : Z) (lookback : option Z) :
  draws <> [] ->
  (forall d, In d draws ->
     len (main d) = count /\ forall n, In n (main d) -> 1 <= n <= max_n) ->
  exists st,
    compute_stats draws max_n count lookback = Ok (Some st) /\
    sample_size st = len (window draws lookback) /\
    frequency_sum st max_n = sample_size st * count.
Proof.
  intros Hne Hd. unfold compute_stats.
  destruct draws as [|d0 ds]; [congruence|].
  set (w := window (d0 :: ds) lookback).
  destruct (tally_draws_ok max_n count w 0
              (repeat 0 (Z.to_nat (max_n + 1)),
               repeat None (Z.to_nat (max_n + 1))))
    as [[f l] [E [_ T]]].
  - split; simpl; unfold len; rewrite repeat_length; reflexivity.
  - intros d Hin. apply Hd. apply (In_window _ lookback). exact Hin.
  - fold w. rewrite E. simpl. eexists; split; [reflexivity|]. simpl.
    split; [lia|]. unfold frequency_sum. simpl. simpl in T.
    rewrite T, total_zero. lia.
Qed.


Definition sample_draws : list draw :=
  [ Draw (Some "2025-01-01"%string) [1; 4] (Some 3);
    Draw (Some "2025-01-04"%string) [1; 2] None;
    Draw (Some "2025-01-08"%string) [3; 4] (Some 2) ].

Lemma frequency_sum_witness :
  exists st,
    compute_stats sample_draws 4 2 (Some 2) = Ok (Some st) /\
    sample_size st = len (window sample_draws (Some 2)) /\
    frequency_sum st 4 = sample_size st * 2.
Proof.
  apply frequency_sum_is_sample_size_times_count.
  - discriminate.
  - intros d [<-|[<-|[<-|[]]]]; (split; [reflexivity|]);
      intros n Hn; simpl in Hn; lia.
Defined.

(** C9. Two draw lists that agree, record by record, on the date and the
    main numbers (so they can differ only in the bonus) give the same
    result of [compute_stats], for every [max_n], [count] and lookback:
    the same frequency, last_seen, hot, cold, overdue and sample_size, or
    the same exception. *)
Theorem compute_stats_ignores_bonus
    (ds1 ds2 : list draw) (max_n count : Z) (lookback : option Z) :
  map (fun d => (date d, main d)) ds1 = map (fun d => (date d, main d)) ds2 ->
  compute_stats ds1 max_n count lookback
  = compute_stats ds2 max_n count lookback.
Proof.
  intros H.
  assert (Hm : map main ds1 = map main ds2).
  { apply (f_equal (map snd)) in H. rewrite !map_map in H. exact H. }
  unfold compute_stats.
  destruct ds1 as [|x xs], ds2 as [|y ys]; try discriminate; auto.
  rewrite (tally_draws_main _ _ 0 _ (window_main _ _ lookback Hm)).
  reflexivity.
Qed.

Lemma compute_stats_ignores_bonus_witness :
  compute_stats sample_draws 4 2 None
  = compute_stats (map (fun d => Draw (date d) (main d) (Some 7)) sample_draws)
      4 2 None.
Proof.
  apply compute_stats_ignores_bonus. reflexivity.
Defined.

(* ================================================================== *)
(** ** Python's stable sort *)

Lemma StronglySorted_impl {A} (R R' : A -> A -> Prop) (l : list A) :
  (forall a b, In a l -> In b l -> R a b -> R' a b) ->
  StronglySorted R l -> StronglySorted R' l.
Proof.
  intros H Hs. induction Hs as [|x l Hs IH Hx]; constructor.
  - apply IH. intros a b Ha Hb. apply H; now right.
  - rewrite Forall_forall in *. intros y Hy.
    apply H; [now left|now right|auto].
Qed.

Lemma StronglySorted_perm_eq {A} (R : A -> A -> Prop) (l1 l2 : list A) :
  (forall a b, R a b -> R b a -> False) ->
  StronglySorted R l1 -> StronglySorted R l2 -> Permutation l1 l2 ->
  l1 = l2.
Proof.
  intros Hanti H1. revert l2.
  induction H1 as [|a t1 Hs1 IH Ha]; intros l2 H2 Hp.
  - apply Permutation_nil in Hp. now subst.
  - destruct H2 as [|b t2 Hs2 Hb].
    + apply Permutation_sym, Permutation_nil in Hp. discriminate.
    + rewrite Forall_forall in Ha, Hb.
      assert (E : a = b).
      { assert (Ia : In a (b :: t2))
          by (apply (Permutation_in _ Hp); now left).
        assert (Ib : In b (a :: t1))
          by (apply (Permutation_in _ (Permutation_sym Hp)); now left).
        destruct Ia as [Ia|Ia]; [congruence|].
        destruct Ib as [Ib|Ib]; [congruence|].
        exfalso. apply (Hanti a b); auto. }
      subst b. f_equal. apply IH; auto.
      apply (Permutation_cons_inv Hp).
Qed.

Section SortFacts.
Context {A K : Type} (key : A -> K) (ltb : K -> K -> bool).
Hypothesis ltb_asym : forall a b, ltb a b = true -> ltb b a = false.
Hypothesis ltb_negtrans :
  forall a b c, ltb a b = false -> ltb b c = false -> ltb a c = false.
(** the order of the input list *)
Variable before : A -> A -> Prop.

(** [a] comes before [b] in a descending stable sort *)
Definition desc_before (a b : A) : Prop :=
  ltb (key a) (key b) = false /\ (ltb (key b) (key a) = true \/ before a b).

(** [a] comes before [b] in an ascending stable sort *)
Definition asc_before (a b : A) : Prop :=
  ltb (key b) (key a) = false /\ (ltb (key a) (key b) = true \/ before a b).

Lemma insert_desc_perm (x : A) (l : list A) :
  Permutation (insert_desc key ltb x l) (x :: l).
Proof.
  induction l as [|y t IH]; simpl; auto.
  destruct (ltb (key x) (key y)); auto.
  rewrite IH. apply perm_swap.
Qed.

Lemma insert_asc_perm (x : A) (l : list A) :
  Permutation (insert_asc key ltb x l) (x :: l).
Proof.
  induction l as [|y t IH]; simpl; auto.
  destruct (ltb (key y) (key x)); auto.
  rewrite IH. apply perm_swap.
Qed.

Lemma sorted_rev_perm (l : list A) : Permutation (sorted_rev key ltb l) l.
Proof.
  induction l as [|x t IH]; simpl; auto.
  rewrite insert_desc_perm. now constructor.
Qed.

Lemma sorted_perm (l : list A) : Permutation (sorted key ltb l) l.
Proof.
  induction l as [|x t IH]; simpl; auto.
  rewrite insert_asc_perm. now constructor.
Qed.

Lemma insert_desc_sorted (x : A) (l : list A) :
  StronglySorted desc_before l -> Forall (before x) l ->
  StronglySorted desc_before (insert_desc key ltb x l).
Proof.
  intros Hs. induction Hs as [|y t Hs IH Hy]; intros Hx; simpl.
  - repeat constructor.
  - inversion Hx as [|? ? Hxy Hxt]; subst.
    destruct (ltb (key x) (key y)) eqn:E.
    + constructor; [apply IH; assumption|].
      rewrite Forall_forall. intros z Hz.
      apply (Permutation_in _ (insert_desc_perm x t)) in Hz.
      destruct Hz as [<-|Hz].
      * split; [now apply ltb_asym|now left].
      * rewrite Forall_forall in Hy. now apply Hy.
    + constructor; [now constructor|].
      constructor; [split; auto|].
      rewrite Forall_forall in *. intros z Hz. split.
      * apply (ltb_negtrans _ (key y)); [assumption|]. apply (Hy z Hz).
      * right. now apply Hxt.
Qed.

Lemma insert_asc_sorted (x : A) (l : list A) :
  StronglySorted asc_before l -> Forall (before x) l ->
  StronglySorted asc_before (insert_asc key ltb x l).
Proof.
  intros Hs. induction Hs as [|y t Hs IH Hy]; intros Hx; simpl.
  - repeat constructor.
  - inversion Hx as [|? ? Hxy Hxt]; subst.
    destruct (ltb (key y) (key x)) eqn:E.
    + constructor; [apply IH; assumption|].
      rewrite Forall_forall. intros z Hz.
      apply (Permutation_in _ (insert_asc_perm x t)) in Hz.
      destruct Hz as [<-|Hz].
      * split; [now apply ltb_asym|now left].
      * rewrite Forall_forall in Hy. now apply Hy.
    + constructor; [now constructor|].
      constructor; [split; auto|].
      rewrite Forall_forall in *. intros z Hz. split.
      * apply (ltb_negtrans _ (key y)); [apply (Hy z Hz)|assumption].
      * right. now apply Hxt.
Qed.

Lemma sorted_rev_sorted (l : list A) :
  StronglySorted before l -> StronglySorted desc_before (sorted_rev key ltb l).
Proof.
  induction 1 as [|x t Hs IH Hx]; simpl; [constructor|].
  apply insert_desc_sorted; [assumption|].
  rewrite Forall_forall in *. intros z Hz. apply Hx.
  apply (Permutation_in _ (sorted_rev_perm t)). assumption.
Qed.

Lemma sorted_sorted (l : list A) :
  StronglySorted before l -> StronglySorted asc_before (sorted key ltb l).
Proof.
  induction 1 as [|x t Hs IH Hx]; simpl; [constructor|].
  apply insert_asc_sorted; [assumption|].
  rewrite Forall_forall in *. intros z Hz. apply Hx.
  apply (Permutation_in _ (sorted_perm t)). assumption.
Qed.
End SortFacts.

Lemma Zltb_asym (a b : Z) : (a <? b) = true -> (b <? a) = false.
Proof. intros H. apply Z.ltb_lt in H. apply Z.ltb_ge. lia. Qed.

Lemma Zltb_negtrans (a b c : Z) :
  (a <? b) = false -> (b <? c) = false -> (a <? c) = false.
Proof. rewrite !Z.ltb_ge. lia. Qed.

Lemma Qltb_lt (x y : Q) : Qltb x y = true <-> (x < y)%Q.
Proof.
  unfold Qltb. rewrite negb_true_iff. split.
  - intros H. apply Qnot_le_lt. intros C. apply Qle_bool_iff in C. congruence.
  - intros H. destruct (Qle_bool y x) eqn:E; auto.
    apply Qle_bool_iff in E. exfalso. apply (Qlt_not_le _ _ H E).
Qed.

Lemma Qltb_ge (x y : Q) : Qltb x y = false <-> (y <= x)%Q.
Proof.
  unfold Qltb. rewrite negb_false_iff. apply Qle_bool_iff.
Qed.



Lemma NoDup_sorted_neq (l : list Z) :
  NoDup l -> StronglySorted (fun a b => a <> b) l.
Proof.
  induction 1 as [|x l Hx Hnd IH]; constructor; auto.
  rewrite Forall_forall. intros y Hy ->. contradiction.
Qed.

(** [sorted(s)] of a set of integers is strictly increasing *)
Lemma sorted_set_increasing (s : list Z) :
  NoDup s -> StronglySorted Z.lt (sorted (fun n => n) Z.ltb s).
Proof.
  intros Hnd.
  apply (StronglySorted_impl
           (asc_before (fun n => n) Z.ltb (fun a b => a <> b))).
  - intros a b _ _ [H1 [H2|H2]].
    + now apply Z.ltb_lt.
    + apply Z.ltb_ge in H1. lia.
  - apply sorted_sorted.
    + apply Zltb_asym.
    + apply Zltb_negtrans.
    + now apply NoDup_sorted_neq.
Qed.

(* ================================================================== *)
(** ** The weighting model *)

(** the ranks a ranking without repeated numbers gives, counted from
    [i + 1] *)
Fixpoint ranks_from (i : Z) (ranking : list (Z * Z)) : list (Z * Z) :=
  match ranking with
  | [] => []
  | (n, _) :: more => (n, i + 1) :: ranks_from (i + 1) more
  end.

Lemma dict_set_fresh (d : list (Z * Z)) (k v : Z) :
  ~ In k (map fst d) -> dict_set Z.eqb d k v = d ++ [(k, v)].
Proof.
  induction d as [|[k' v'] t IH]; simpl; intros H; auto.
  destruct (Z.eqb_spec k k') as [->|Hne]; [tauto|].
  rewrite IH; tauto.
Qed.

Lemma ranks_from_keys (i : Z) (r : list (Z * Z)) :
  map fst (ranks_from i r) = map fst r.
Proof.
  revert i; induction r as [|[n v] t IH]; intros i; simpl; auto.
  now rewrite IH.
Qed.

Lemma ranks_from_length (i : Z) (r : list (Z * Z)) :
  len (ranks_from i r) = len r.
Proof.
  unfold len. rewrite <- (length_map fst), ranks_from_keys.
  now rewrite length_map.
Qed.

Lemma rank_dict_nodup (r : list (Z * Z)) (i : Z) (d : list (Z * Z)) :
  NoDup (map fst d ++ map fst r) ->
  rank_dict r i d = d ++ ranks_from i r.
Proof.
  revert i d. induction r as [|[n v] t IH]; intros i d H; simpl.
  - now rewrite app_nil_r.
  - simpl in H. rewrite dict_set_fresh.
    + rewrite IH.
      * now rewrite <- app_assoc.
      * rewrite map_app. simpl. rewrite <- app_assoc. exact H.
    + apply NoDup_remove_2 in H. intros C. apply H. apply in_or_app. now left.
Qed.

Lemma dict_get_app_fresh (d1 d2 : list (Z * Z)) (k : Z) :
  ~ In k (map fst d1) ->
  dict_get Z.eqb (d1 ++ d2) k = dict_get Z.eqb d2 k.
Proof.
  induction d1 as [|[k' v'] t IH]; simpl; intros H; auto.
  destruct (Z.eqb_spec k k') as [->|Hne]; [tauto|].
  apply IH. tauto.
Qed.

(** the rank of the number at position [length l1] *)
Lemma ranks_from_get (i : Z) (l1 l2 : list (Z * Z)) (n v : Z) :
  ~ In n (map fst l1) ->
  dict_get Z.eqb (ranks_from i (l1 ++ (n, v) :: l2)) n = Ok (i + len l1 + 1).
Proof.
  revert i. induction l1 as [|[m w] t IH]; intros i H; simpl.
  - rewrite Z.eqb_refl. f_equal. unfold len. simpl. lia.
  - simpl in H. destruct (Z.eqb_spec n m) as [->|Hne]; [tauto|].
    rewrite IH by tauto. f_equal. unfold len. cbn [List.length]. lia.
Qed.

Lemma in_keys_split (r : list (Z * Z)) (n : Z) :
  In n (map fst r) ->
  exists l1 v l2, r = l1 ++ (n, v) :: l2 /\ ~ In n (map fst l1).
Proof.
  induction r as [|[m w] t IH]; simpl; [tauto|].
  intros H. destruct (Z.eq_dec m n) as [->|Hne].
  - exists [], w, t. split; auto.
  - destruct H as [H|H]; [contradiction|].
    destruct (IH H) as [l1 [v [l2 [-> Hl1]]]].
    exists ((m, w) :: l1), v, l2. split; auto.
    simpl. tauto.
Qed.

Definition score_of (total rank : Z) : Q :=
  (inject_Z (total + 1 - rank) / inject_Z total)%Q.

(** the score of the number at position [length l1] of a ranking without
    repeated numbers *)
Lemma rank_score_at (l1 l2 : list (Z * Z)) (n v : Z) :
  NoDup (map fst (l1 ++ (n, v) :: l2)) ->
  rank_score (rank_dict (l1 ++ (n, v) :: l2) 0 []) n
  = Ok (score_of (len (l1 ++ (n, v) :: l2)) (len l1 + 1)).
Proof.
  intros Hnd. rewrite rank_dict_nodup by exact Hnd. simpl.
  unfold rank_score. rewrite ranks_from_get.
  - simpl. rewrite ranks_from_length.
    destruct (Z.eqb_spec (len (l1 ++ (n, v) :: l2)) 0) as [E|E].
    + unfold len in E. rewrite length_app in E. simpl in E. lia.
    + reflexivity.
  - rewrite map_app in Hnd. simpl in Hnd.
    apply NoDup_remove_2 in Hnd. intros C. apply Hnd. apply in_or_app.
    now left.
Qed.

Lemma score_of_pos (total rank : Z) :
  1 <= rank <= total -> (0 < score_of total rank)%Q.
Proof.
  intros H. unfold score_of. apply Qlt_shift_div_l.
  - change 0%Q with (inject_Z 0). rewrite <- Zlt_Qlt. lia.
  - rewrite Qmult_0_l. change 0%Q with (inject_Z 0). rewrite <- Zlt_Qlt. lia.
Qed.

Lemma score_of_lt (total r1 r2 : Z) :
  0 < total -> r1 < r2 -> (score_of total r2 < score_of total r1)%Q.
Proof.
  intros Ht H. unfold score_of, Qdiv. apply Qmult_lt_compat_r.
  - apply Qinv_lt_0_compat. change 0%Q with (inject_Z 0).
    rewrite <- Zlt_Qlt. lia.
  - rewrite <- Zlt_Qlt. lia.
Qed.

(** a snapshot whose hot and overdue rankings list every number of
    1..max_n, and no number twice *)
Definition snapshot_covers (st : stats) (max_n : Z) : Prop :=
  NoDup (map fst (hot st)) /\ NoDup (map fst (overdue st)) /\
  forall n, 1 <= n <= max_n ->
            In n (map fst (hot st)) /\ In n (map fst (overdue st)).

Lemma rank_score_covered (r : list (Z * Z)) (n : Z) :
  NoDup (map fst r) -> In n (map fst r) ->
  exists q, rank_score (rank_dict r 0 []) n = Ok q /\ (0 < q)%Q.
Proof.
  intros Hnd Hin. destruct (in_keys_split r n Hin) as [l1 [v [l2 [-> Hl1]]]].
  rewrite rank_score_at by exact Hnd. eexists; split; [reflexivity|].
  apply score_of_pos. unfold len. rewrite length_app. simpl. lia.
Qed.

Section WeightLoop.
Variables rs1 rs2 : Z -> res Q.
Variable fb : Q -> Q -> Q.

Let body (n : Z) (base : list Q) : res (list Q) :=
  hr <- rs1 n ;;
  orank <- rs2 n ;;
  b <- getitem base n ;;
  setitem base n (b + fb hr orank)%Q.

Lemma weight_loop (l : list Z) (base : list Q) :
  NoDup l ->
  (forall n, In n l -> 0 <= n < len base) ->
  (forall n, In n l -> exists hr orank, rs1 n = Ok hr /\ rs2 n = Ok orank) ->
  exists base',
    for_each body l base = Ok base' /\ len base' = len base /\
    (forall n, 0 <= n -> ~ In n l -> item base' n 0%Q = item base n 0%Q) /\
    (forall n, In n l ->
       exists hr orank, rs1 n = Ok hr /\ rs2 n = Ok orank /\
         item base' n 0%Q = (item base n 0 + fb hr orank)%Q).
Proof.
  intros Hnd. revert base.
  induction Hnd as [|x l Hx Hnd IH]; intros base Hr Hs.
  - exists base. simpl. repeat split; auto. intros n [].
  - destruct (Hs x (or_introl eq_refl)) as [hr [orank [E1 E2]]].
    assert (Hxr : 0 <= x < len base) by (apply Hr; now left).
    cbn [for_each]. unfold body at 1. rewrite E1, E2. cbn [Py.bind].
    rewrite (getitem_in base x 0%Q Hxr). cbn [Py.bind].
    rewrite setitem_in by exact Hxr. cbn [Py.bind].
    set (base1 := set_nth base (Z.to_nat x) (item base x 0 + fb hr orank)%Q).
    assert (L1 : len base1 = len base) by apply len_set_nth.
    destruct (IH base1) as [base' [E [L [Hout Hin]]]].
    { intros n Hn. rewrite L1. apply Hr. now right. }
    { intros n Hn. apply Hs. now right. }
    exists base'. split; [exact E|]. split; [congruence|]. split.
    + intros n Hn0 Hn. rewrite Hout by (simpl in Hn; tauto).
      apply item_set_nth_neq; try lia. simpl in Hn. intros C. apply Hn.
      now left.
    + intros n [<-|Hn].
      * exists hr, orank. repeat split; auto.
        rewrite Hout by (try lia; assumption).
        apply item_set_nth_eq. exact Hxr.
      * destruct (Hin n Hn) as [hr' [or' [F1 [F2 F3]]]].
        exists hr', or'. repeat split; auto. rewrite F3. f_equal.
        apply item_set_nth_neq; try lia.
        -- destruct (Hr n (or_intror Hn)). lia.
        -- intros ->. contradiction.
Qed.
End WeightLoop.

Lemma smart_weight_covered (st : stats) (max_n : Z) (flavor : string) :
  snapshot_covers st max_n ->
  exists base,
    smart_weight (Some st) max_n flavor = Ok base /\
    len base = Z.of_nat (Z.to_nat (max_n + 1)) /\
    forall n, 1 <= n <= max_n ->
      exists hr orank,
        rank_score (rank_dict (hot st) 0 []) n = Ok hr /\
        rank_score (rank_dict (overdue st) 0 []) n = Ok orank /\
        (0 < hr)%Q /\ (0 < orank)%Q /\
        item base n 0%Q = (1 + flavor_bonus flavor hr orank)%Q.
Proof.
  intros [Hh [Ho Hc]]. unfold smart_weight.
  set (base0 := repeat 1%Q (Z.to_nat (max_n + 1))).
  assert (L0 : len base0 = Z.of_nat (Z.to_nat (max_n + 1))).
  { unfold len, base0. now rewrite repeat_length. }
  destruct (weight_loop (rank_score (rank_dict (hot st) 0 []))
              (rank_score (rank_dict (overdue st) 0 []))
              (flavor_bonus flavor) (range 1 (max_n + 1)) base0)
    as [base [E [L [_ Hin]]]].
  - apply NoDup_range.
  - intros n Hn. apply In_range in Hn. lia.
  - intros n Hn. apply In_range in Hn.
    destruct (Hc n) as [H1 H2]; [lia|].
    destruct (rank_score_covered _ n Hh H1) as [q1 [E1 _]].
    destruct (rank_score_covered _ n Ho H2) as [q2 [E2 _]].
    now exists q1, q2.
  - exists base. split; [exact E|]. split; [congruence|].
    intros n Hn. destruct (Hin n) as [hr [orank [E1 [E2 E3]]]].
    { apply In_range. lia. }
    exists hr, orank. repeat split; auto.
    + destruct (Hc n Hn) as [H1 _].
      destruct (rank_score_covered _ n Hh H1) as [q1 [F1 P1]]. congruence.
    + destruct (Hc n Hn) as [_ H2].
      destruct (rank_score_covered _ n Ho H2) as [q2 [F2 P2]]. congruence.
    + rewrite E3. f_equal. unfold item, base0. apply nth_repeat_lt. lia.
Qed.

(* ================================================================== *)
(** ** The top-probability selector *)

Definition weight (base : list Q) (n : Z) : Q := item base n 0%Q.


Definition sample_stats : stats :=
  Stats [0; 2; 1; 1; 2] [None; Some 2; Some 2; Some 3; Some 3]
        [(1, 2); (4, 2); (2, 1); (3, 1)] [(2, 1); (3, 1); (1, 2); (4, 2)]
        [(1, 2); (2, 2); (3, 1); (4, 1)] 3.

Lemma sample_stats_computed :
  compute_stats sample_draws 4 2 None = Ok (Some sample_stats).
Proof. reflexivity. Qed.

Lemma sample_stats_covers : snapshot_covers sample_stats 4.
Proof.
  unfold snapshot_covers; simpl. repeat split.
  - repeat constructor; simpl; intuition lia.
  - repeat constructor; simpl; intuition lia.
  - lia.
  - lia.
Defined.



(** The ranking and the line of the sample snapshot: 1 is heaviest, 2 and
    4 follow, 3 is last. *)
Example top_probability_line_sample :
  top_probability_line (Some sample_stats) 4 2 "balanced" = Ok [1; 2].
Proof. reflexivity. Qed.

(* ================================================================== *)
(** ** The biased line sampler *)

(** [random.random()] returns a value in [0, 1) *)
Definition valid_random (random : nat -> Q) : Prop :=
  forall k, (0 <= random k)%Q /\ (random k < 1)%Q.

(** the last running total *)
Definition final (total : Q) (w : list Q) : Q := fold_left Qplus w total.

Lemma running_length (s : Q) (w : list Q) :
  List.length (running s w) = List.length w.
Proof. revert s; induction w as [|y t IH]; intros s; simpl; auto. Qed.

Lemma running_last (s d : Q) (w : list Q) :
  w <> [] -> last (running s w) d = final s w.
Proof.
  revert s; induction w as [|y t IH]; intros s Hne; [congruence|].
  destruct t as [|z t']; [reflexivity|].
  change (last (running s (y :: z :: t')) d)
    with (last (running (s + y)%Q (z :: t')) d).
  rewrite IH by discriminate. reflexivity.
Qed.

Lemma getitem_last {A} (l : list A) (x d : A) :
  getitem (x :: l) (-1) = Ok (last (x :: l) d).
Proof.
  unfold getitem, norm_index.
  change (-1 <? 0) with true. cbv iota.
  assert (L : len (x :: l) = Z.of_nat (List.length l) + 1).
  { unfold len. cbn [List.length]. lia. }
  rewrite L.
  destruct (Z.leb_spec 0 (-1 + (Z.of_nat (List.length l) + 1))); [|lia].
  destruct (Z.ltb_spec (-1 + (Z.of_nat (List.length l) + 1))
              (Z.of_nat (List.length l) + 1)); [|lia].
  cbn [andb].
  replace (Z.to_nat (-1 + (Z.of_nat (List.length l) + 1)))
    with (List.length l) by lia.
  clear. revert x. induction l as [|y t IH]; intros x; [reflexivity|].
  cbn [List.length nth_error]. rewrite IH. reflexivity.
Qed.

Lemma final_ge (s : Q) (w : list Q) :
  Forall (fun x => 0 <= x)%Q w -> (s <= final s w)%Q.
Proof.
  intros H. revert s. induction H as [|y t Hy Ht IH]; intros s.
  - apply Qle_refl.
  - cbn [final fold_left]. apply (Qle_trans _ (s + y)%Q); [lra|apply IH].
Qed.

Lemma final_gt (s : Q) (w : list Q) :
  Forall (fun x => 0 <= x)%Q w -> Exists (fun x => 0 < x)%Q w ->
  (s < final s w)%Q.
Proof.
  intros H. revert s. induction H as [|y t Hy Ht IH]; intros s He.
  - inversion He.
  - cbn [final fold_left]. inversion He as [? ? Hp|? ? Hp]; subst.
    + apply (Qlt_le_trans _ (s + y)%Q); [lra|now apply final_ge].
    + apply (Qle_lt_trans _ (s + y)%Q); [lra|now apply IH].
Qed.

(** the first position below [hi] whose entry exceeds [x], else [hi] *)
Fixpoint first_above (a : list Q) (x : Q) (hi : nat) : nat :=
  match hi, a with
  | S hi', y :: t => if Qltb x y then O else S (first_above t x hi')
  | _, _ => O
  end.

Lemma first_above_le (a : list Q) (x : Q) (hi : nat) :
  (hi <= List.length a)%nat -> (first_above a x hi <= hi)%nat.
Proof.
  revert a. induction hi as [|hi IH]; intros [|y t] H; simpl in *; try lia.
  destruct (Qltb x y); [lia|]. specialize (IH t). lia.
Qed.

Lemma first_above_before (a : list Q) (x : Q) (hi i : nat) :
  (i < first_above a x hi)%nat -> Qltb x (nth i a 0%Q) = false.
Proof.
  revert a i. induction hi as [|hi IH]; intros [|y t] i H; simpl in *;
    try lia.
  destruct (Qltb x y) eqn:E; [lia|]. destruct i as [|i]; [exact E|].
  apply (IH t). lia.
Qed.

Lemma first_above_at (a : list Q) (x : Q) (hi : nat) :
  (hi <= List.length a)%nat -> (first_above a x hi < hi)%nat ->
  Qltb x (nth (first_above a x hi) a 0%Q) = true.
Proof.
  revert a. induction hi as [|hi IH]; intros [|y t] Hl H; simpl in *;
    try lia.
  destruct (Qltb x y) eqn:E; [exact E|]. apply (IH t); lia.
Qed.

(** non-decreasing lists *)
Definition ascending (a : list Q) : Prop :=
  forall i j, (i <= j < List.length a)%nat -> (nth i a 0 <= nth j a 0)%Q.

(** On a non-decreasing list the binary search returns the first
    position whose entry exceeds [x]. *)
Lemma bisect_loop_first_above (a : list Q) (x : Q) (top : nat) :
  ascending a -> (top <= List.length a)%nat ->
  forall fuel lo hi,
    (hi - lo <= fuel)%nat ->
    (lo <= first_above a x top <= hi)%nat -> (hi <= top)%nat ->
    bisect_loop fuel a x lo hi = first_above a x top.
Proof.
  intros Ha Ht. set (r := first_above a x top).
  induction fuel as [|fuel IH]; intros lo hi Hf Hr Hh; cbn [bisect_loop].
  - lia.
  - destruct (Nat.ltb_spec lo hi) as [Hlt|Hge]; [|lia].
    set (mid := ((lo + hi) / 2)%nat).
    assert (Hm : (lo <= mid < hi)%nat).
    { unfold mid. split.
      - apply Nat.div_le_lower_bound; lia.
      - apply Nat.Div0.div_lt_upper_bound; lia. }
    cbv zeta. fold mid.
    destruct (Qltb x (nth mid a 0%Q)) eqn:E.
    + apply IH; try lia.
      destruct (Nat.le_gt_cases r mid) as [Hle|Hgt]; [lia|].
      rewrite (first_above_before a x top mid Hgt) in E. discriminate.
    + apply IH; try lia.
      destruct (Nat.le_gt_cases (S mid) r) as [Hle|Hgt]; [lia|].
      assert (Hrt : (r < top)%nat) by lia.
      assert (X := first_above_at a x top Ht Hrt). fold r in X.
      apply Qltb_lt in X. apply Qltb_ge in E.
      assert (M : (nth r a 0 <= nth mid a 0)%Q) by (apply Ha; lia).
      exfalso. apply (Qlt_irrefl x).
      apply (Qlt_le_trans _ _ _ X). apply (Qle_trans _ _ _ M E).
Qed.

Lemma bisect_first_above (a : list Q) (x : Q) (hi : nat) :
  ascending a -> (hi <= List.length a)%nat ->
  bisect a x 0 hi = first_above a x hi.
Proof.
  intros Ha Hh. unfold bisect.
  apply bisect_loop_first_above; auto; try lia.
  split; [lia|now apply first_above_le].
Qed.

Lemma running_bounds (s : Q) (w : list Q) :
  Forall (fun x => 0 <= x)%Q w ->
  StronglySorted Qle (running s w) /\ Forall (Qle s) (running s w).
Proof.
  intros H. revert s. induction H as [|y t Hy Ht IH]; intros s; simpl.
  - split; constructor.
  - destruct (IH (s + y)%Q) as [S1 S2]. split.
    + now constructor.
    + constructor; [lra|].
      rewrite Forall_forall in *. intros z Hz.
      apply (Qle_trans _ (s + y)%Q); [lra|now apply S2].
Qed.

Lemma StronglySorted_ascending (a : list Q) :
  StronglySorted Qle a -> ascending a.
Proof.
  induction 1 as [|y t Hs IH Hy]; intros i j Hij; simpl in Hij; [lia|].
  destruct i as [|i], j as [|j]; simpl; try lia.
  - apply Qle_refl.
  - rewrite Forall_forall in Hy. apply Hy. apply nth_In. lia.
  - apply IH. lia.
Qed.

(** the running totals of non-negative weights never decrease *)
Lemma accumulate_ascending (w : list Q) :
  Forall (fun x => 0 <= x)%Q w -> ascending (accumulate w).
Proof.
  intros H. apply StronglySorted_ascending.
  destruct H as [|y t Hy Ht]; simpl; [constructor|].
  destruct (running_bounds y t Ht) as [S1 S2]. now constructor.
Qed.

Lemma first_above_running (w : list Q) (s x : Q) :
  w <> [] -> (s <= x)%Q -> (x < final s w)%Q ->
  (first_above (running s w) x (List.length w - 1) < List.length w)%nat /\
  (0 < nth (first_above (running s w) x (List.length w - 1)) w 0)%Q.
Proof.
  revert s. induction w as [|y t IH]; intros s Hne Hs Hx; [congruence|].
  cbn [running final fold_left List.length] in *.
  replace (S (List.length t) - 1)%nat with (List.length t) by lia.
  destruct t as [|z t'].
  - cbn. split; [lia|]. cbn in Hx. lra.
  - cbn [List.length first_above].
    destruct (Qltb x (s + y)) eqn:E.
    + split; [lia|]. apply Qltb_lt in E. cbn. lra.
    + apply Qltb_ge in E.
      destruct (IH (s + y)%Q) as [H1 H2]; [discriminate|exact E|exact Hx|].
      cbn [List.length] in H1, H2.
      replace (S (List.length t') - 1)%nat with (List.length t') in H1, H2
        by lia.
      split; [cbn [List.length]; lia|]. exact H2.
Qed.

Lemma first_above_accumulate (y : Q) (t : list Q) (x : Q) :
  (0 <= x)%Q -> (x < final y t)%Q ->
  (first_above (accumulate (y :: t)) x (List.length t) <= List.length t)%nat /\
  (0 < nth (first_above (accumulate (y :: t)) x (List.length t)) (y :: t) 0)%Q.
Proof.
  intros H0 Hx. cbn [accumulate].
  destruct t as [|z t'].
  - cbn. split; [lia|]. cbn in Hx. lra.
  - cbn [List.length first_above]. destruct (Qltb x y) eqn:E.
    + split; [lia|]. apply Qltb_lt in E. cbn. lra.
    + apply Qltb_ge in E.
      destruct (first_above_running (z :: t') y x) as [H1 H2];
        [discriminate|exact E|exact Hx|].
      cbn [List.length] in H1, H2.
      replace (S (List.length t') - 1)%nat with (List.length t') in H1, H2
        by lia.
      split; [lia|]. exact H2.
Qed.

Lemma nth_range (a b : Z) (i : nat) (d : Z) :
  (i < Z.to_nat (b - a))%nat -> nth i (range a b) d = a + Z.of_nat i.
Proof.
  intros H. unfold range.
  rewrite (nth_indep _ d (a + Z.of_nat 0)).
  - rewrite (map_nth (fun k => a + Z.of_nat k)). now rewrite seq_nth.
  - now rewrite length_map, length_seq.
Qed.

Lemma pigeonhole (picks : list Z) (max_n : Z) :
  NoDup picks -> (Z.of_nat (List.length picks) < max_n) ->
  exists n, 1 <= n <= max_n /\ ~ In n picks.
Proof.
  intros Hnd Hlen.
  destruct (Forall_Exists_dec (fun n => In n picks)
              (fun n => in_dec Z.eq_dec n picks) (range 1 (max_n + 1)))
    as [Hall|Hex].
  - exfalso. rewrite Forall_forall in Hall.
    assert (L := NoDup_incl_length (NoDup_range 1 (max_n + 1)) Hall).
    rewrite range_length in L. lia.
  - apply Exists_exists in Hex. destruct Hex as [n [Hn Hnot]].
    exists n. apply In_range in Hn. split; [lia|exact Hnot].
Qed.

Section Sampler.
Variable max_n : Z.
Variable random : nat -> Q.
Hypothesis random_ok : valid_random random.

(** the loop invariant: picked numbers weigh nothing, the others weigh
    something, and every iteration added one pick *)
Definition picking (st : pick_state) (k : nat) : Prop :=
  let '(base, picks, k') := st in
  k' = k /\ List.length picks = k /\ len base = max_n + 1 /\
  NoDup picks /\ (forall p, In p picks -> 1 <= p <= max_n) /\
  forall n, 1 <= n <= max_n ->
    (In n picks -> (item base n 0 == 0)%Q) /\
    (~ In n picks -> (0 < item base n 0)%Q).

Lemma pick_step_ok (base : list Q) (picks : list Z) (k : nat) :
  picking (base, picks, k) k -> Z.of_nat k < max_n ->
  exists i,
    pick_step max_n random (base, picks, k)
    = Ok (i, (set_nth base (Z.to_nat i) 0%Q, picks ++ [i], S k)) /\
    1 <= i <= max_n /\ (0 < item base i 0)%Q /\ ~ In i picks /\
    picking (set_nth base (Z.to_nat i) 0%Q, picks ++ [i], S k) (S k).
Proof.
  intros [_ [Hk [Hb [Hnd [Hr Hw]]]]] Hlt.
  destruct base as [|b0 w]; [unfold len in Hb; simpl in Hb; lia|].
  assert (Lw : Z.of_nat (List.length w) = max_n).
  { unfold len in Hb. cbn [List.length] in Hb. lia. }
  assert (Wn : forall j, (j < List.length w)%nat ->
                         nth j w 0%Q = item (b0 :: w) (Z.of_nat j + 1) 0%Q).
  { intros j Hj. unfold item.
    replace (Z.to_nat (Z.of_nat j + 1)) with (S j) by lia. reflexivity. }
  assert (Hnn : Forall (fun x => 0 <= x)%Q w).
  { apply Forall_forall. intros x Hx.
    destruct (In_nth w x 0%Q Hx) as [j [Hj <-]]. rewrite Wn by exact Hj.
    destruct (Hw (Z.of_nat j + 1)) as [H1 H2]; [lia|].
    destruct (in_dec Z.eq_dec (Z.of_nat j + 1) picks) as [Hin|Hin].
    - rewrite (H1 Hin). apply Qle_refl.
    - apply Qlt_le_weak. now apply H2. }
  assert (Hpos : Exists (fun x => 0 < x)%Q w).
  { destruct (pigeonhole picks max_n Hnd) as [n [Hn Hnot]]; [lia|].
    apply Exists_exists. exists (nth (Z.to_nat (n - 1)) w 0%Q). split.
    - apply nth_In. lia.
    - rewrite Wn by lia. replace (Z.of_nat (Z.to_nat (n - 1)) + 1) with n by lia.
      now apply (Hw n Hn). }
  destruct w as [|y t]; [inversion Hpos|].
  assert (Htot : (0 < final y t)%Q).
  { inversion Hnn as [|? ? Hy Ht]; subst.
    inversion Hpos as [? ? Hp|? ? Hp]; subst.
    - apply (Qlt_le_trans _ y); [exact Hp|now apply final_ge].
    - apply (Qle_lt_trans _ y); [exact Hy|now apply final_gt]. }
  set (x := (random k * final y t)%Q).
  assert (Hx0 : (0 <= x)%Q).
  { unfold x. apply Qmult_le_0_compat; [apply random_ok|lra]. }
  assert (Hx1 : (x < final y t)%Q).
  { unfold x. setoid_replace (final y t) with (1 * final y t)%Q at 2 by ring.
    apply Qmult_lt_compat_r; [exact Htot|apply random_ok]. }
  destruct (first_above_accumulate y t x Hx0 Hx1) as [Hi Hwi].
  set (j := first_above (accumulate (y :: t)) x (List.length t)) in *.
  exists (Z.of_nat j + 1).
  assert (Hir : 1 <= Z.of_nat j + 1 <= max_n).
  { cbn [List.length] in Lw. lia. }
  assert (Hiw : (0 < item (b0 :: y :: t) (Z.of_nat j + 1) 0)%Q).
  { rewrite <- Wn; [exact Hwi|]. cbn [List.length]. lia. }
  assert (Hnot : ~ In (Z.of_nat j + 1) picks).
  { intros Hin. destruct (Hw _ Hir) as [H1 _]. rewrite (H1 Hin) in Hiw.
    apply (Qlt_irrefl 0). exact Hiw. }
  split; [|split; [exact Hir|split; [exact Hiw|split; [exact Hnot|]]]].
  - unfold pick_step, choices.
    assert (S1 : slice_from (b0 :: y :: t) 1 = y :: t).
    { unfold slice_from, clamp. change (1 <? 0) with false. cbv iota.
      replace (Z.to_nat (Z.min 1 (len (b0 :: y :: t)))) with 1%nat;
        [reflexivity|]. unfold len. cbn [List.length]. lia. }
    rewrite S1.
    assert (LA : len (accumulate (y :: t)) = len (range 1 (max_n + 1))).
    { unfold len. rewrite range_length. cbn [accumulate List.length].
      rewrite running_length. cbn [List.length] in Lw. lia. }
    rewrite LA, Z.eqb_refl. cbn [negb].
    cbn [accumulate]. rewrite (getitem_last (running y t) y y).
    cbn [Py.bind].
    assert (LT : last (y :: running y t) y = final y t).
    { destruct t as [|z t']; [reflexivity|].
      change (last (y :: running y (z :: t')) y)
        with (last (running y (z :: t')) y).
      apply running_last. discriminate. }
    rewrite LT.
    destruct (Qle_bool (final y t) 0) eqn:E.
    { apply Qle_bool_iff in E. exfalso. apply (Qlt_not_le _ _ Htot E). }
    replace (List.length (range 1 (max_n + 1)) - 1)%nat with (List.length t).
    2:{ rewrite range_length. cbn [List.length] in Lw. lia. }
    change (y :: running y t) with (accumulate (y :: t)).
    rewrite (bisect_first_above (accumulate (y :: t)) _ (List.length t)
               (accumulate_ascending _ Hnn));
      [|cbn [accumulate List.length]; rewrite running_length; lia].
    change (first_above (accumulate (y :: t)) (random k * final y t)%Q
              (List.length t)) with j.
    rewrite (getitem_in _ _ 0).
    2:{ unfold len. rewrite range_length. cbn [List.length] in Lw. lia. }
    unfold item at 1. rewrite Nat2Z.id, nth_range.
    2:{ cbn [List.length] in Lw. lia. }
    cbn [Py.bind]. replace (1 + Z.of_nat j) with (Z.of_nat j + 1) by lia.
    rewrite setitem_in by (rewrite Hb; lia). cbn [Py.bind].
    unfold set_add.
    destruct (existsb (Z.eqb (Z.of_nat j + 1)) picks) eqn:Ex.
    { apply existsb_exists in Ex. destruct Ex as [p [Hp Hpe]].
      apply Z.eqb_eq in Hpe. subst p. contradiction. }
    reflexivity.
  - set (i := Z.of_nat j + 1) in *.
    split; [reflexivity|]. split; [rewrite length_app; simpl; lia|].
    split; [rewrite len_set_nth; exact Hb|]. split.
    { apply NoDup_app; [exact Hnd|repeat constructor; simpl; tauto|].
      intros p Hp [<-|[]]. contradiction. }
    split.
    { intros p Hp. apply in_app_or in Hp. destruct Hp as [Hp|[<-|[]]]; auto. }
    intros n Hn. destruct (Z.eq_dec n i) as [->|Hne].
    + rewrite item_set_nth_eq by (rewrite Hb; lia). split.
      * intros _. reflexivity.
      * intros C. exfalso. apply C. apply in_or_app. right. now left.
    + rewrite item_set_nth_neq by lia. destruct (Hw n Hn) as [H1 H2]. split.
      * intros Hin. apply in_app_or in Hin.
        destruct Hin as [Hin|[Hin|[]]]; [now apply H1|congruence].
      * intros Hnin. apply H2. intros C. apply Hnin. apply in_or_app.
        now left.
Qed.
End Sampler.

(** [j] iterations of the loop body, the loop condition left aside *)
Fixpoint pick_steps (j : nat) (max_n : Z) (random : nat -> Q)
    (st : pick_state) : res pick_state :=
  match j with
  | O => Ok st
  | S j' =>
      r <- pick_step max_n random st ;;
      pick_steps j' max_n random (snd r)
  end.

Section SamplerLoop.
Variables max_n count : Z.
Variable random : nat -> Q.
Hypothesis random_ok : valid_random random.
Hypothesis count_ok : 1 <= count <= max_n.

Lemma picking_step (st : pick_state) (k : nat) :
  picking max_n st k -> Z.of_nat k < max_n ->
  exists i st',
    pick_step max_n random st = Ok (i, st') /\ picking max_n st' (S k).
Proof.
  destruct st as [[base picks] k']. intros H Hlt.
  assert (E : k' = k) by apply H. subst k'.
  destruct (pick_step_ok max_n random random_ok base picks k H Hlt)
    as [i [E [_ [_ [_ P]]]]].
  eauto.
Qed.

Lemma pick_steps_ok (m : nat) (st : pick_state) (k : nat) :
  picking max_n st k -> Z.of_nat (k + m) <= max_n ->
  exists st', pick_steps m max_n random st = Ok st' /\
              picking max_n st' (k + m).
Proof.
  revert st k. induction m as [|m IH]; intros st k H Hle.
  - exists st. rewrite Nat.add_0_r. now split.
  - destruct (picking_step st k H) as [i [st1 [E P]]]; [lia|].
    cbn [pick_steps]. rewrite E. cbn [Py.bind snd].
    destruct (IH st1 (S k) P) as [st' [E' P']]; [lia|].
    exists st'. split; [exact E'|].
    replace (k + S m)%nat with (S k + m)%nat by lia. exact P'.
Qed.

Lemma picking_guard (st : pick_state) (k : nat) :
  picking max_n st k ->
  (len (snd (fst st)) <? count) = (Z.of_nat k <? count).
Proof.
  destruct st as [[base picks] k']. intros [_ [H _]]. cbn [fst snd].
  unfold len. now rewrite H.
Qed.

Lemma pick_loop_steps (m : nat) (st : pick_state) (k fuel : nat) :
  picking max_n st k -> Z.of_nat (k + m) = count -> (m <= fuel)%nat ->
  pick_loop fuel max_n count random st
  = (st' <- pick_steps m max_n random st ;; Ok (Some st')).
Proof.
  revert st k fuel. induction m as [|m IH]; intros st k fuel H Hk Hf.
  - cbn [pick_steps Py.bind].
    destruct fuel; cbn [pick_loop]; rewrite (picking_guard st k H);
      (destruct (Z.ltb_spec (Z.of_nat k) count); [lia|reflexivity]).
  - destruct fuel as [|fuel]; [lia|]. cbn [pick_loop pick_steps].
    rewrite (picking_guard st k H).
    destruct (Z.ltb_spec (Z.of_nat k) count); [|lia].
    destruct (picking_step st k H) as [i [st1 [E P]]]; [lia|].
    rewrite E. cbn [Py.bind snd]. apply (IH st1 (S k)); [exact P|lia|lia].
Qed.

Lemma pick_loop_short (fuel m : nat) (st : pick_state) (k : nat) :
  picking max_n st k -> Z.of_nat (k + m) = count -> (fuel < m)%nat ->
  pick_loop fuel max_n count random st = Ok None.
Proof.
  revert m st k. induction fuel as [|fuel IH]; intros m st k H Hk Hf;
    cbn [pick_loop]; rewrite (picking_guard st k H);
    (destruct (Z.ltb_spec (Z.of_nat k) count); [|lia]).
  - reflexivity.
  - destruct (picking_step st k H) as [i [st1 [E P]]]; [lia|].
    rewrite E. cbn [Py.bind snd]. destruct m as [|m]; [lia|].
    apply (IH m st1 (S k)); [exact P|lia|lia].
Qed.

Lemma picking_start (base : list Q) :
  len base = max_n + 1 ->
  (forall n, 1 <= n <= max_n -> (0 < item base n 0)%Q) ->
  picking max_n (base, [], O) O.
Proof.
  intros Hb Hw. unfold picking.
  split; [reflexivity|]. split; [reflexivity|]. split; [exact Hb|].
  split; [constructor|]. split; [intros q []|].
  intros n Hn. split; [intros []|]. intros _. now apply Hw.
Qed.
End SamplerLoop.

(** C8. When 1 <= count <= max_n and every number of 1..max_n starts
    with a positive weight, the loop of [smart_pick] ends after exactly
    [count] iterations (it ends with that much fuel, its counter then
    reads [count], and no smaller amount of fuel is enough).  In each of
    these iterations the number selected has a positive current weight
    and is not yet picked, the numbers already picked weigh zero, and the
    step appends the number to the picks and zeroes its weight, so the
    picks grow by one. *)
Theorem smart_pick_loop_terminates
    (base : list Q) (max_n count : Z) (random : nat -> Q) :
  valid_random random -> 1 <= count <= max_n ->
  len base = max_n + 1 ->
  (forall n, 1 <= n <= max_n -> (0 < item base n 0)%Q) ->
  (exists final_base picks,
     pick_loop (Z.to_nat count) max_n count random (base, [], O)
     = Ok (Some (final_base, picks, Z.to_nat count)) /\
     len picks = count) /\
  (forall fuel, (fuel < Z.to_nat count)%nat ->
     pick_loop fuel max_n count random (base, [], O) = Ok None) /\
  (forall j, (j < Z.to_nat count)%nat ->
     exists base_j picks_j i,
       pick_steps j max_n random (base, [], O) = Ok (base_j, picks_j, j) /\
       List.length picks_j = j /\
       pick_step max_n random (base_j, picks_j, j)
       = Ok (i, (set_nth base_j (Z.to_nat i) 0%Q, picks_j ++ [i], S j)) /\
       1 <= i <= max_n /\ (0 < item base_j i 0)%Q /\ ~ In i picks_j /\
       (forall p, In p picks_j -> (item base_j p 0 == 0)%Q) /\
       (item (set_nth base_j (Z.to_nat i) 0%Q) i 0 == 0)%Q).
Proof.
  intros Hr Hc Hb Hw.
  assert (P0 := picking_start max_n base Hb Hw).
  split; [|split].
  - destruct (pick_steps_ok max_n random Hr (Z.to_nat count) _ O P0)
      as [[[fb picks] k] [E P]]; [lia|].
    exists fb, picks.
    rewrite (pick_loop_steps max_n count random Hr Hc (Z.to_nat count) _ O);
      [|exact P0|lia|lia].
    rewrite E. cbn [Py.bind]. destruct P as [-> [Hl _]]. split.
    + reflexivity.
    + unfold len. rewrite Hl. simpl. lia.
  - intros fuel Hf.
    apply (pick_loop_short max_n count random Hr Hc fuel (Z.to_nat count) _ O);
      [exact P0|lia|exact Hf].
  - intros j Hj.
    destruct (pick_steps_ok max_n random Hr j _ O P0)
      as [[[bj pj] k] [E P]]; [lia|].
    simpl in P. assert (Ek : k = j) by apply P. subst k.
    destruct (pick_step_ok max_n random Hr bj pj j P) as [i [E1 [Hi [Hp [Hn P']]]]];
      [lia|].
    exists bj, pj, i. split; [exact E|]. split; [apply P|].
    split; [exact E1|]. split; [exact Hi|]. split; [exact Hp|].
    split; [exact Hn|]. split.
    + intros p Hin. destruct P as [_ [_ [_ [_ [Hrange Hz]]]]].
      apply (Hz p (Hrange p Hin)). exact Hin.
    + rewrite item_set_nth_eq; [reflexivity|].
      destruct P as [_ [_ [Hlen _]]]. lia.
Qed.

Definition coin (k : nat) : Q := if Nat.even k then 1 # 3 else 3 # 4.

Lemma coin_valid : valid_random coin.
Proof.
  intros k. unfold coin. destruct (Nat.even k); split;
    (unfold Qle, Qlt; simpl; lia).
Defined.

Lemma smart_pick_loop_witness :
  (exists final_base picks,
     pick_loop (Z.to_nat 2) 3 2 coin ([1; 2; 1 # 2; 3]%Q, [], O)
     = Ok (Some (final_base, picks, Z.to_nat 2)) /\
     len picks = 2) /\
  (forall fuel, (fuel < Z.to_nat 2)%nat ->
     pick_loop fuel 3 2 coin ([1; 2; 1 # 2; 3]%Q, [], O) = Ok None) /\
  (forall j, (j < Z.to_nat 2)%nat ->
     exists base_j picks_j i,
       pick_steps j 3 coin ([1; 2; 1 # 2; 3]%Q, [], O)
       = Ok (base_j, picks_j, j) /\
       List.length picks_j = j /\
       pick_step 3 coin (base_j, picks_j, j)
       = Ok (i, (set_nth base_j (Z.to_nat i) 0%Q, picks_j ++ [i], S j)) /\
       1 <= i <= 3 /\ (0 < item base_j i 0)%Q /\ ~ In i picks_j /\
       (forall p, In p picks_j -> (item base_j p 0 == 0)%Q) /\
       (item (set_nth base_j (Z.to_nat i) 0%Q) i 0 == 0)%Q).
Proof.
  apply (smart_pick_loop_terminates [1; 2; 1 # 2; 3]%Q 3 2 coin).
  - exact coin_valid.
  - lia.
  - reflexivity.
  - intros n Hn.
    assert (C : n = 1 \/ n = 2 \/ n = 3) by lia.
    destruct C as [-> | [-> | ->]]; reflexivity.
Defined.

Example smart_pick_loop_sample :
  pick_loop 2 3 2 coin ([1; 2; 1 # 2; 3]%Q, [], O)
  = Ok (Some ([1; 0; 1 # 2; 0]%Q, [1; 3], 2%nat)).
Proof. reflexivity. Qed.

Lemma flavor_bonus_pos (flavor : string) (hr orank : Q) :
  (0 < hr)%Q -> (0 < orank)%Q -> (0 < flavor_bonus flavor hr orank)%Q.
Proof.
  intros H1 H2. unfold flavor_bonus.
  destruct (String.eqb flavor "hot"); [lra|].
  destruct (String.eqb flavor "overdue"); lra.
Qed.

(** C7. For a snapshot whose hot and overdue rankings cover 1..max_n,
    and 1 <= count <= max_n, [smart_pick] returns, whatever values
    [random.random()] gives and with any fuel of at least [count]
    iterations, a line of exactly [count] distinct numbers, each in
    1..max_n, in increasing order. *)
Theorem smart_pick_returns_sorted_distinct_line
    (st : stats) (max_n count : Z) (flavor : string) (random : nat -> Q)
    (fuel : nat) :
  snapshot_covers st max_n -> 1 <= count <= max_n ->
  valid_random random -> (Z.to_nat count <= fuel)%nat ->
  exists line,
    smart_pick fuel random (Some st) max_n count flavor = Ok (Some line) /\
    len line = count /\ NoDup line /\
    (forall n, In n line -> 1 <= n <= max_n) /\
    StronglySorted Z.lt line.
Proof.
  intros Hcov Hc Hr Hf.
  destruct (smart_weight_covered st max_n flavor Hcov) as [base [E [L W]]].
  assert (Hb : len base = max_n + 1) by lia.
  assert (Hw : forall n, 1 <= n <= max_n -> (0 < item base n 0)%Q).
  { intros n Hn. destruct (W n Hn) as [hr [orank [_ [_ [P1 [P2 ->]]]]]].
    assert (P := flavor_bonus_pos flavor hr orank P1 P2). lra. }
  assert (P0 := picking_start max_n base Hb Hw).
  destruct (pick_steps_ok max_n random Hr (Z.to_nat count) _ O P0)
    as [[[fb picks] k] [E1 P]]; [lia|].
  unfold smart_pick. rewrite E. cbn [Py.bind].
  rewrite (pick_loop_steps max_n count random Hr Hc (Z.to_nat count) _ O);
    [|exact P0|lia|exact Hf].
  rewrite E1. cbn [Py.bind option_map fst snd].
  destruct P as [_ [Hl [_ [Hnd [Hrange _]]]]].
  set (line := sorted (fun n => n) Z.ltb picks).
  assert (Hp : Permutation line picks) by apply sorted_perm.
  exists line. split; [reflexivity|]. split.
  { unfold len. rewrite (Permutation_length Hp), Hl. simpl. lia. }
  split.
  { apply (Permutation_NoDup (Permutation_sym Hp) Hnd). }
  split.
  { intros n Hn. apply Hrange. apply (Permutation_in _ Hp Hn). }
  apply sorted_set_increasing. exact Hnd.
Qed.

Lemma smart_pick_witness :
  exists line,
    smart_pick 5 coin (Some sample_stats) 4 2 "overdue" = Ok (Some line) /\
    len line = 2 /\ NoDup line /\
    (forall n, In n line -> 1 <= n <= 4) /\
    StronglySorted Z.lt line.
Proof.
  apply smart_pick_returns_sorted_distinct_line.
  - exact sample_stats_covers.
  - lia.
  - exact coin_valid.
  - simpl. lia.
Defined.

Example smart_pick_sample :
  smart_pick 2 coin (Some sample_stats) 4 2 "overdue" = Ok (Some [1; 4]).
Proof. reflexivity. Qed.

(* ================================================================== *)
(** ** Weights of the [hot] flavor *)

(** [frequency[n]] and the recency gap of [n] in a snapshot *)
Definition frequency (st : stats) (n : Z) : Z := item (freq st) n 0.

Definition gap (st : stats) (n : Z) : Z :=
  match item (last_seen st) n None with
  | Some ls => sample_size st + 1 - ls
  | None => sample_size st + 1
  end.

Definition listing (f : Z -> Z) (max_n : Z) : list (Z * Z) :=
  map (fun n => (n, f n)) (range 1 (max_n + 1)).

Lemma compute_stats_shape (draws : list draw) (max_n count : Z)
    (lookback : option Z) (st : stats) :
  compute_stats draws max_n count lookback = Ok (Some st) ->
  hot st = sorted_rev snd Z.ltb (listing (frequency st) max_n) /\
  cold st = sorted snd Z.ltb (listing (frequency st) max_n) /\
  overdue st = sorted_rev snd Z.ltb (listing (gap st) max_n).
Proof.
  unfold compute_stats. destruct draws as [|d ds]; [discriminate|].
  destruct (tally_draws _ 0 _) as [[i [f l]]|e]; [|discriminate].
  cbn [Py.bind]. intros H. injection H as <-.
  unfold listing, frequency, gap. cbn [hot cold overdue freq last_seen sample_size].
  repeat split.
Qed.

Lemma listing_keys (f : Z -> Z) (max_n : Z) :
  map fst (listing f max_n) = range 1 (max_n + 1).
Proof. unfold listing. rewrite map_map. simpl. apply map_id. Qed.

Definition number_lt (x y : Z * Z) : Prop := fst x < fst y.

Lemma listing_sorted (f : Z -> Z) (max_n : Z) :
  StronglySorted number_lt (listing f max_n).
Proof.
  unfold listing. generalize (range_sorted 1 (max_n + 1)).
  generalize (range 1 (max_n + 1)) as l.
  induction 1 as [|x l Hs IH Hx]; simpl; constructor; auto.
  rewrite Forall_forall in *. intros y Hy. apply in_map_iff in Hy.
  destruct Hy as [n [<- Hn]]. unfold number_lt. simpl. now apply Hx.
Qed.

Lemma StronglySorted_app_inv {A} (R : A -> A -> Prop) (l1 l2 : list A) :
  StronglySorted R (l1 ++ l2) ->
  forall y x, In y l1 -> In x l2 -> R y x.
Proof.
  induction l1 as [|h t IH]; simpl; intros Hs y x Hy Hx; [tauto|].
  inversion Hs as [|? ? Hs' Hh]; subst. destruct Hy as [<-|Hy].
  - rewrite Forall_forall in Hh. apply Hh. apply in_or_app. now right.
  - now apply IH.
Qed.

Lemma StronglySorted_order {A} (R : A -> A -> Prop) (l : list A) (x y : A) :
  StronglySorted R l -> In x l -> In y l -> x <> y -> ~ R y x ->
  exists l1 l2 l3, l = l1 ++ x :: l2 ++ y :: l3.
Proof.
  intros Hs Hx Hy Hne Hnot.
  destruct (in_split x l Hx) as [l1 [r ->]].
  apply in_app_or in Hy. destruct Hy as [Hy|[Hy|Hy]].
  - exfalso. apply Hnot.
    apply (StronglySorted_app_inv R l1 (x :: r) Hs); [exact Hy|now left].
  - congruence.
  - destruct (in_split y r Hy) as [l2 [l3 ->]]. now exists l1, l2, l3.
Qed.

(** In the descending ranking of 1..max_n by [f], a number with a larger
    [f], or the same [f] and a smaller number, has the better score. *)
Lemma ranked_earlier (f : Z -> Z) (max_n a b : Z) :
  1 <= a <= max_n -> 1 <= b <= max_n ->
  f b < f a \/ (f b = f a /\ a < b) ->
  exists qa qb,
    rank_score (rank_dict (sorted_rev snd Z.ltb (listing f max_n)) 0 []) a
    = Ok qa /\
    rank_score (rank_dict (sorted_rev snd Z.ltb (listing f max_n)) 0 []) b
    = Ok qb /\
    (qb < qa)%Q.
Proof.
  intros Ha Hb Hab.
  set (r := sorted_rev snd Z.ltb (listing f max_n)).
  assert (Hp : Permutation r (listing f max_n)) by apply sorted_rev_perm.
  assert (Hs : StronglySorted (desc_before snd Z.ltb number_lt) r).
  { apply sorted_rev_sorted; [apply Zltb_asym|apply Zltb_negtrans|].
    apply listing_sorted. }
  assert (Hk : NoDup (map fst r)).
  { apply (Permutation_NoDup (l := range 1 (max_n + 1))); [|apply NoDup_range].
    rewrite <- (listing_keys f max_n). apply Permutation_map.
    now apply Permutation_sym. }
  assert (Ia : In (a, f a) r).
  { apply (Permutation_in _ (Permutation_sym Hp)). unfold listing.
    apply (in_map (fun n => (n, f n))). apply In_range. lia. }
  assert (Ib : In (b, f b) r).
  { apply (Permutation_in _ (Permutation_sym Hp)). unfold listing.
    apply (in_map (fun n => (n, f n))). apply In_range. lia. }
  destruct (StronglySorted_order _ r (a, f a) (b, f b) Hs Ia Ib)
    as [l1 [l2 [l3 E]]].
  - intros C. injection C as C1 C2. lia.
  - unfold desc_before, number_lt. simpl. intros [H1 H2].
    apply Z.ltb_ge in H1. destruct H2 as [H2|H2].
    + apply Z.ltb_lt in H2. lia.
    + lia.
  - exists (score_of (len r) (len l1 + 1)),
           (score_of (len r) (len (l1 ++ (a, f a) :: l2) + 1)).
    split; [|split].
    + rewrite E. rewrite E in Hk. apply rank_score_at. exact Hk.
    + rewrite E. rewrite E in Hk.
      replace (l1 ++ (a, f a) :: l2 ++ (b, f b) :: l3)
        with ((l1 ++ (a, f a) :: l2) ++ (b, f b) :: l3) in *
        by (rewrite <- app_assoc; reflexivity).
      apply rank_score_at. exact Hk.
    + apply score_of_lt.
      * rewrite E. unfold len. rewrite length_app. simpl. lia.
      * unfold len. rewrite length_app. simpl. lia.
Qed.

Lemma computed_snapshot_covers (draws : list draw) (max_n count : Z)
    (lookback : option Z) (st : stats) :
  compute_stats draws max_n count lookback = Ok (Some st) ->
  snapshot_covers st max_n.
Proof.
  intros H. destruct (compute_stats_shape _ _ _ _ _ H) as [Eh [_ Eo]].
  assert (P : forall f, Permutation
                          (map fst (sorted_rev snd Z.ltb (listing f max_n)))
                          (range 1 (max_n + 1))).
  { intros f. rewrite <- (listing_keys f max_n). apply Permutation_map.
    apply sorted_rev_perm. }
  unfold snapshot_covers. rewrite Eh, Eo. repeat split.
  - apply (Permutation_NoDup (Permutation_sym (P _))), NoDup_range.
  - apply (Permutation_NoDup (Permutation_sym (P _))), NoDup_range.
  - apply (Permutation_in _ (Permutation_sym (P _))), In_range. lia.
  - apply (Permutation_in _ (Permutation_sym (P _))), In_range. lia.
Qed.

(** the claim as the specification states it *)
Definition hot_ranks_frequent_first : Prop :=
  forall draws max_n count lookback st base a b,
    compute_stats draws max_n count lookback = Ok (Some st) ->
    smart_weight (Some st) max_n "hot" = Ok base ->
    1 <= a <= max_n -> 1 <= b <= max_n ->
    (forall n, 1 <= n <= max_n ->
               frequency st n <= frequency st a /\ gap st n <= gap st a) ->
    gap st b = gap st a -> frequency st b < frequency st a ->
    (weight base b < weight base a)%Q.

Definition hot_draws : list draw :=
  [ Draw (Some "2025-01-01"%string) [2; 3; 4; 5; 6; 7] None;
    Draw (Some "2025-01-04"%string) [1; 2; 3; 4; 5; 7] None;
    Draw (Some "2025-01-08"%string) [6; 8; 9; 10; 11; 12] None ].

Definition hot_stats : stats :=
  Stats [0; 1; 2; 2; 2; 2; 2; 2; 1; 1; 1; 1; 1]
        [None; Some 2; Some 2; Some 2; Some 2; Some 2; Some 3; Some 2;
         Some 3; Some 3; Some 3; Some 3; Some 3]
        [(2, 2); (3, 2); (4, 2); (5, 2); (6, 2); (7, 2); (1, 1); (8, 1);
         (9, 1); (10, 1); (11, 1); (12, 1)]
        [(1, 1); (8, 1); (9, 1); (10, 1); (11, 1); (12, 1); (2, 2); (3, 2);
         (4, 2); (5, 2); (6, 2); (7, 2)]
        [(1, 2); (2, 2); (3, 2); (4, 2); (5, 2); (7, 2); (6, 1); (8, 1);
         (9, 1); (10, 1); (11, 1); (12, 1)]
        3.

Definition hot_base : list Q :=
  [1; 720 # 288; 996 # 288; 936 # 288; 876 # 288; 816 # 288; 744 # 288;
   708 # 288; 588 # 288; 528 # 288; 468 # 288; 408 # 288; 348 # 288]%Q.

Lemma hot_stats_computed :
  compute_stats hot_draws 12 6 None = Ok (Some hot_stats).
Proof. vm_compute. reflexivity. Qed.

Lemma hot_base_computed :
  smart_weight (Some hot_stats) 12 "hot" = Ok hot_base.
Proof. vm_compute. reflexivity. Qed.

(** C4, counterexample.  After the draws [hot_draws] over 1..12, number 7
    has the highest frequency (2) and the highest recency gap (2), number
    1 has the same gap and a lower frequency (1), and yet flavor [hot]
    gives 1 the weight 5/2 and 7 the weight 59/24: the overdue ranking
    breaks the tie of the gaps by number, which puts 1 five places ahead
    of 7. *)
Lemma hot_ranks_frequent_first_counterexample : ~ hot_ranks_frequent_first.
Proof.
  intros H.
  assert (C : (weight hot_base 1 < weight hot_base 7)%Q).
  { apply (H hot_draws 12 6 None hot_stats hot_base 7 1
             hot_stats_computed hot_base_computed); try lia;
      try reflexivity.
    intros n Hn.
    assert (D : n = 1 \/ n = 2 \/ n = 3 \/ n = 4 \/ n = 5 \/ n = 6 \/ n = 7
                \/ n = 8 \/ n = 9 \/ n = 10 \/ n = 11 \/ n = 12) by lia.
    repeat (destruct D as [-> | D]; [vm_compute; split; discriminate|]).
    subst n. vm_compute; split; discriminate. }
  vm_compute in C. discriminate.
Qed.

(** C4, amended.  Under flavor [hot], for every snapshot computed by
    [compute_stats] over 1..max_n, a number [a] gets a strictly greater
    weight than any larger number [b] with the same recency gap and a
    lower frequency. *)
Theorem hot_prefers_frequent_smaller_number
    (draws : list draw) (max_n count : Z) (lookback : option Z)
    (st : stats) (a b : Z) :
  compute_stats draws max_n count lookback = Ok (Some st) ->
  1 <= a -> a < b -> b <= max_n ->
  gap st b = gap st a -> frequency st b < frequency st a ->
  exists base,
    smart_weight (Some st) max_n "hot" = Ok base /\
    (weight base b < weight base a)%Q.
Proof.
  intros H Ha Hab Hb Hg Hf.
  destruct (compute_stats_shape _ _ _ _ _ H) as [Eh [_ Eo]].
  destruct (smart_weight_covered st max_n "hot"
              (computed_snapshot_covers _ _ _ _ _ H)) as [base [E [_ W]]].
  exists base. split; [exact E|].
  destruct (W a) as [ha [oa [Ha1 [Ha2 [_ [_ Wa]]]]]]; [lia|].
  destruct (W b) as [hb [ob [Hb1 [Hb2 [_ [_ Wb]]]]]]; [lia|].
  destruct (ranked_earlier (frequency st) max_n a b) as [qa [qb [F1 [F2 F3]]]];
    [lia|lia|now left|].
  destruct (ranked_earlier (gap st) max_n a b) as [ga [gb [G1 [G2 G3]]]];
    [lia|lia|right; split; [exact Hg|exact Hab]|].
  rewrite Eh in Ha1, Hb1. rewrite Eo in Ha2, Hb2.
  assert (ha = qa) by congruence. assert (hb = qb) by congruence.
  assert (oa = ga) by congruence. assert (ob = gb) by congruence.
  subst. unfold weight. rewrite Wa, Wb. unfold flavor_bonus.
  change (String.eqb "hot" "hot") with true. cbv iota. lra.
Qed.

Lemma hot_prefers_frequent_smaller_number_witness :
  exists base,
    smart_weight (Some sample_stats) 4 "hot" = Ok base /\
    (weight base 2 < weight base 1)%Q.
Proof.
  apply (hot_prefers_frequent_smaller_number sample_draws 4 2 None
           sample_stats 1 2).
  - reflexivity.
  - lia.
  - lia.
  - lia.
  - reflexivity.
  - reflexivity.
Defined.

(* ================================================================== *)
(** ** The page parsers *)

(** ** What a match of the backtracking matcher consumed *)

Lemma rmatch_inv {R} (r : Re.regex) :
  forall prev s caps k (x : R),
    Re.rmatch r prev s caps k = Some x ->
    exists p' pre s' c', s = pre ++ s' /\ k p' s' c' = Some x.
Proof.
  induction r as [|p|a IHa b IHb|a IHa b IHb|a IHa| |name a IHa];
    intros prev s caps k x H; cbn [Re.rmatch] in H.
  - exists prev, [], s, caps. now split.
  - destruct s as [|c s']; [discriminate|].
    destruct (p c); [|discriminate].
    exists (Some c), [c], s', caps. now split.
  - apply IHa in H. destruct H as [p1 [pre1 [s1 [c1 [-> H]]]]].
    apply IHb in H. destruct H as [p2 [pre2 [s2 [c2 [-> H]]]]].
    exists p2, (pre1 ++ pre2), s2, c2. split; [now rewrite app_assoc|exact H].
  - destruct (Re.rmatch a prev s caps k) eqn:E.
    + injection H as ->. now apply IHa in E.
    + now apply IHb in H.
  - revert H. generalize (List.length s) as fuel. intros fuel.
    revert prev s caps. induction fuel as [|fuel IHf]; intros prev s caps H.
    + exists prev, [], s, caps. now split.
    + match type of H with
      | match ?m with _ => _ end = _ => destruct m eqn:E
      end.
      * injection H as ->. apply IHa in E.
        destruct E as [p1 [pre1 [s1 [c1 [-> E]]]]].
        destruct (_ <? _)%nat; [|discriminate].
        apply IHf in E. destruct E as [p2 [pre2 [s2 [c2 [-> E]]]]].
        exists p2, (pre1 ++ pre2), s2, c2.
        split; [now rewrite app_assoc|exact E].
      * exists prev, [], s, caps. now split.
  - destruct (xorb _ _); [|discriminate].
    exists prev, [], s, caps. now split.
  - apply IHa in H. destruct H as [p1 [pre1 [s1 [c1 [-> H]]]]].
    eexists p1, pre1, s1, _. split; [reflexivity|exact H].
Qed.

Lemma rmatch_lit {R} (w : list ascii) :
  forall prev s caps k (x : R),
    Re.rmatch (Re.lit w) prev s caps k = Some x ->
    exists p' s', s = w ++ s' /\ k p' s' caps = Some x.
Proof.
  induction w as [|c t IH]; intros prev s caps k x H; cbn in H.
  - now exists prev, s.
  - destruct s as [|c0 s0]; [discriminate|].
    destruct (Ascii.eqb_spec c c0) as [->|]; [|discriminate].
    apply IH in H. destruct H as [p' [s' [-> H]]]. now exists p', s'.
Qed.

Definition month_words : list (list ascii) := map str month_names.

Lemma rmatch_alts_lit {R} (names : list (list ascii)) :
  forall prev s caps k (x : R),
    Re.rmatch (Re.alts (map Re.lit names)) prev s caps k = Some x ->
    exists w p' s', In w names /\ s = w ++ s' /\ k p' s' caps = Some x.
Proof.
  induction names as [|a t IH]; intros prev s caps k x H.
  - cbn in H. destruct s; discriminate.
  - destruct t as [|b t'].
    + cbn [map Re.alts] in H. apply rmatch_lit in H.
      destruct H as [p' [s' [-> H]]]. exists a, p', s'. repeat split; auto.
      now left.
    + change (Re.alts (map Re.lit (a :: b :: t')))
        with (Re.Alt (Re.lit a) (Re.alts (map Re.lit (b :: t')))) in H.
      cbn [Re.rmatch] in H.
      destruct (Re.rmatch (Re.lit a) prev s caps k) eqn:E.
      * injection H as ->. apply rmatch_lit in E.
        destruct E as [p' [s' [-> E]]]. exists a, p', s'. repeat split; auto.
        now left.
      * apply IH in H. destruct H as [w [p' [s' [Hw [-> H]]]]].
        exists w, p', s'. repeat split; auto. now right.
Qed.

Lemma firstn_prefix {A} (w s' : list A) :
  firstn (List.length (w ++ s') - List.length s') (w ++ s') = w.
Proof.
  rewrite length_app. replace (List.length w + List.length s' - List.length s')%nat
    with (List.length w + 0)%nat by lia.
  rewrite firstn_app_2. simpl. apply app_nil_r.
Qed.

Lemma match_at_month (prev : option ascii) (s : list ascii) (m : Re.found) :
  Re.match_at month_re prev s = Some m ->
  In (Re.group0 m) month_words /\ map snd (Re.groups m) = [Re.group0 m].
Proof.
  unfold Re.match_at, month_re.
  change (map (fun s0 => Re.lit (str s0)) month_names)
    with (map Re.lit month_words).
  cbn [Re.rmatch]. intros H. apply rmatch_alts_lit in H.
  destruct H as [w [p' [s' [Hw [-> H]]]]]. injection H as <-.
  cbn [Re.group0 Re.groups]. rewrite firstn_prefix. now split.
Qed.

(** the parts after the first: month names, each followed by its text *)
Inductive blocks : list (list ascii) -> Prop :=
| blocks_nil : blocks []
| blocks_cons month text more :
    In month month_words -> blocks more -> blocks (month :: text :: more).

Lemma split_blocks (s : list ascii) :
  forall prev skip cur,
    exists piece more,
      Re.split_from month_re prev s skip cur = piece :: more /\ blocks more.
Proof.
  induction s as [|c s IH]; intros prev skip cur; cbn [Re.split_from].
  - exists (rev cur), []. split; [reflexivity|constructor].
  - destruct skip as [|n]; [|apply IH].
    destruct (Re.match_at month_re prev (c :: s)) as [m|] eqn:E; [|apply IH].
    destruct (match_at_month _ _ _ E) as [Hin Hg].
    destruct (Re.group0 m) as [|c0 m'] eqn:G; [apply IH|].
    rewrite Hg.
    destruct (IH (Some c) (List.length m') []) as [piece [more [-> Hb]]].
    exists (rev cur), ((c0 :: m') :: piece :: more). split; [reflexivity|].
    now constructor.
Qed.

Lemma search_from_inv (r : Re.regex) (s : list ascii) :
  forall prev m,
    Re.search_from r prev s = Some m ->
    exists prev' s', Re.match_at r prev' s' = Some m.
Proof.
  induction s as [|c s IH]; intros prev m H; cbn [Re.search_from] in H.
  - destruct (Re.match_at r prev []) eqn:E; [|discriminate].
    injection H as ->. eauto.
  - destruct (Re.match_at r prev (c :: s)) eqn:E.
    + injection H as ->. eauto.
    + now apply IH in H.
Qed.

(** the date substring starts with the month *)
Lemma date_substring_prefix (month block : list ascii) (m : Re.found) :
  Re.search (date_re month) block = Some m ->
  exists more, Re.group0 m = month ++ more.
Proof.
  intros H. apply search_from_inv in H. destruct H as [prev [s H]].
  unfold Re.match_at, date_re in H.
  remember (Re.Seq (Re.Plus Re.space) _) as tail_re eqn:T in H. clear T.
  cbn [Re.rmatch] in H.
  apply rmatch_lit in H. destruct H as [p1 [s1 [-> H]]].
  apply rmatch_inv in H. destruct H as [p2 [pre [s2 [c2 [-> H]]]]].
  cbv beta in H. injection H as <-. cbn [Re.group0]. exists pre.
  rewrite app_assoc. apply firstn_prefix.
Qed.

Lemma lstrip_app (u v : list ascii) (c : ascii) (v' : list ascii) :
  v = c :: v' -> Re.is_space c = false ->
  exists u', Strptime.lstrip (u ++ v) = u' ++ v /\ incl u' u.
Proof.
  intros -> Hc. induction u as [|x u IH]; cbn [app Strptime.lstrip].
  - rewrite Hc. exists []. split; [reflexivity|apply incl_refl].
  - destruct (Re.is_space x).
    + destruct IH as [u' [E Hi]]. exists u'. split; [exact E|].
      now apply incl_tl.
    + exists (x :: u). split; [reflexivity|apply incl_refl].
Qed.

(** stripping keeps a prefix that starts and ends with a visible
    character *)
Lemma strip_prefix (a y : list ascii) (c : ascii) (a' : list ascii)
    (d : ascii) (b' : list ascii) :
  a = c :: a' -> Re.is_space c = false ->
  rev a = d :: b' -> Re.is_space d = false ->
  exists y', Strptime.strip (a ++ y) = a ++ y' /\ incl y' y.
Proof.
  intros Ea Hc Er Hd. unfold Strptime.strip.
  assert (L : Strptime.lstrip (a ++ y) = a ++ y).
  { subst a. cbn [app Strptime.lstrip]. now rewrite Hc. }
  rewrite L, rev_app_distr.
  destruct (lstrip_app (rev y) (rev a) d b' Er Hd) as [u' [E Hi]].
  rewrite E, rev_app_distr, rev_involutive. exists (rev u'). split; auto.
  intros z Hz. apply in_rev in Hz. apply Hi in Hz. now apply in_rev.
Qed.

Lemma lower_comma (c : ascii) :
  Ascii.eqb (Re.lower c) (Re.lower ",") = true -> c = ","%char.
Proof.
  destruct c as [[] [] [] [] [] [] [] []]; vm_compute; congruence.
Qed.

(** no text without a comma fits the pattern ["%B %d, %Y"] *)
Lemma strptime_needs_comma (t : list ascii) :
  ~ In ","%char t -> Strptime.strptime t (str "%B %d, %Y") = None.
Proof.
  intros Hc. unfold Strptime.strptime.
  assert (F : exists a b c rest,
             Strptime.format_regex (str "%B %d, %Y") false
             = Some (Re.Seq a (Re.Seq b (Re.Seq c
                       (Re.Seq (Re.ChrI ",") rest))))).
  { repeat eexists. }
  destruct F as [a [b [c [rest ->]]]].
  destruct (Re.match_at _ None t) as [m|] eqn:E; [|reflexivity].
  exfalso. unfold Re.match_at in E. cbn [Re.rmatch] in E.
  apply rmatch_inv in E. destruct E as [p1 [pre1 [s1 [c1 [-> E]]]]].
  apply rmatch_inv in E. destruct E as [p2 [pre2 [s2 [c2 [-> E]]]]].
  apply rmatch_inv in E. destruct E as [p3 [pre3 [s3 [c3 [-> E]]]]].
  cbv beta in E. unfold Re.ChrI in E. cbn [Re.rmatch] in E.
  destruct s3 as [|x s3]; [discriminate|].
  destruct (Ascii.eqb (Re.lower x) (Re.lower ",")) eqn:X; [|discriminate].
  apply lower_comma in X. subst x. apply Hc.
  apply in_or_app; right. apply in_or_app; right. apply in_or_app; right.
  now left.
Qed.

Lemma try_parse_date_steps (text : list ascii) :
  try_parse_date text =
  let t := Strptime.strip (filter (fun c => negb (Ascii.eqb c ",")) text) in
  match Strptime.strptime t (str "%A %B %d %Y") with
  | Some ymd => Some (Strptime.isoformat ymd)
  | None =>
      match Strptime.strptime t (str "%A, %B %d, %Y") with
      | Some ymd => Some (Strptime.isoformat ymd)
      | None =>
          match Strptime.strptime t (str "%B %d, %Y") with
          | Some ymd => Some (Strptime.isoformat ymd)
          | None => None
          end
      end
  end.
Proof. reflexivity. Qed.

Lemma filter_no_comma (l : list ascii) :
  ~ In ","%char (filter (fun c => negb (Ascii.eqb c ",")) l).
Proof.
  intros H. apply filter_In in H. destruct H as [_ H].
  rewrite Ascii.eqb_refl in H. discriminate.
Qed.

(** a text that starts with a month name is never a date for
    [try_parse_date] *)
Lemma month_first_not_a_date (month more : list ascii) :
  In month month_words -> try_parse_date (month ++ more) = None.
Proof.
  intros Hm. rewrite try_parse_date_steps. cbv zeta.
  rewrite filter_app.
  set (y := filter _ more).
  assert (Hy : ~ In ","%char y) by apply filter_no_comma.
  clearbody y.
  unfold month_words in Hm. cbn in Hm.
  repeat (destruct Hm as [<- | Hm];
    [ match goal with
      | |- context [Strptime.strip (?f ++ y)] =>
          let a := eval vm_compute in f in
          change f with a;
          destruct (strip_prefix a y _ _ _ _ eq_refl eq_refl eq_refl eq_refl)
            as [y' [-> Hi]]
      end;
      rewrite (strptime_needs_comma (_ ++ y'));
      [ vm_compute; reflexivity
      | intros C; apply in_app_or in C; destruct C as [C|C];
        [ vm_compute in C; intuition discriminate | apply Hy, Hi, C ] ]
    | ]).
  destruct Hm.
Qed.

(** ** De-duplication keeps records of its input *)

Lemma date_eqb_eq (a b : option string) : date_eqb a b = true -> a = b.
Proof.
  destruct a as [x|], b as [y|]; simpl; try discriminate; auto.
  intros H. apply String.eqb_eq in H. now subst.
Qed.

Lemma dict_get_in {V} (d : list (option string * V)) (k : option string)
    (v : V) :
  dict_get date_eqb d k = Ok v -> In (k, v) d.
Proof.
  induction d as [|[k' v'] t IH]; simpl; [discriminate|].
  destruct (date_eqb k k') eqn:E.
  - intros H. injection H as ->. apply date_eqb_eq in E. subst. now left.
  - intros H. right. now apply IH.
Qed.

Lemma dict_set_in {V} (d : list (option string * V)) (k k' : option string)
    (v v' : V) :
  In (k', v') (dict_set date_eqb d k v) -> (k', v') = (k, v) \/ In (k', v') d.
Proof.
  induction d as [|[k0 v0] t IH]; simpl.
  - intros [H|[]]. now left.
  - destruct (date_eqb k k0).
    + intros [H|H]; [now left|right; now right].
    + intros [H|H]; [right; now left|].
      destruct (IH H); [now left|right; now right].
Qed.

Lemma uniq_in (draws : list draw)
    (d0 : list (option string * (list Z * option Z)))
    (k : option string) (v : list Z * option Z) :
  In (k, v) (fold_left
               (fun u r => dict_set date_eqb u (date r) (main r, bonus r))
               draws d0) ->
  In (k, v) d0 \/ In (Draw k (fst v) (snd v)) draws.
Proof.
  revert d0. induction draws as [|r t IH]; intros d0; simpl; [now left|].
  intros H. apply IH in H. destruct H as [H|H]; [|right; now right].
  apply dict_set_in in H. destruct H as [H|H]; [|now left].
  injection H as -> ->. right. left. now destruct r.
Qed.

Lemma collect_in (uniq : list (option string * (list Z * option Z)))
    (keys : list (option string)) (out : list draw) (r : draw) :
  collect uniq keys = Ok out -> In r out ->
  In (date r, (main r, bonus r)) uniq.
Proof.
  revert out. induction keys as [|d more IH]; intros out; simpl.
  - intros H. injection H as <-. intros [].
  - destruct (dict_get date_eqb uniq d) as [v|] eqn:E; [|discriminate].
    cbn [Py.bind]. destruct (collect uniq more) as [tl|]; [|discriminate].
    cbn [Py.bind]. intros H. injection H as <-. intros [<-|Hin].
    + cbn [date main bonus]. apply dict_get_in in E. now destruct v.
    + now apply (IH tl).
Qed.

(** every record [dedupe_by_date] returns is one of its input *)
Lemma dedupe_by_date_incl (draws out : list draw) :
  dedupe_by_date draws = Ok out -> incl out draws.
Proof.
  unfold dedupe_by_date. destruct (sorted_keys _) as [keys|]; [|discriminate].
  cbn [Py.bind]. intros H r Hr.
  apply (collect_in _ _ _ r H) in Hr. apply uniq_in in Hr.
  destruct Hr as [[]|Hr]. now destruct r.
Qed.

(** ** What the parsers emit *)

Lemma emit_in (d : option string) (nums : list Z) (count : Z)
    (draws out : list draw) (r : draw) :
  emit d nums count draws = Ok out -> In r out ->
  In r draws \/
  (date r = d /\ main r = slice_to nums count /\ count <= len nums).
Proof.
  unfold emit. destruct (Z.geb_spec (len nums) count) as [Hge|Hlt].
  - destruct (len nums >? count).
    + destruct (getitem nums count); [|discriminate]. cbn [Py.bind].
      intros H. injection H as <-. intros Hin. apply in_app_or in Hin.
      destruct Hin as [Hin|[<-|[]]]; [now left|right]. cbn. repeat split. lia.
    + intros H. injection H as <-. intros Hin. apply in_app_or in Hin.
      destruct Hin as [Hin|[<-|[]]]; [now left|right]. cbn. repeat split. lia.
  - intros H. injection H as <-. now left.
Qed.

Lemma wclc_block_dates (max_n count : Z) (month rest : list ascii)
    (draws out : list draw) :
  In month month_words ->
  wclc_block max_n count month rest draws = Ok out ->
  (forall r, In r draws -> date r = None) ->
  forall r, In r out -> date r = None.
Proof.
  intros Hm H Hd r Hr. unfold wclc_block in H.
  destruct (Re.search (date_re month) (month ++ rest)) as [mdate|] eqn:E.
  - destruct (date_substring_prefix _ _ _ E) as [more G].
    rewrite G, (month_first_not_a_date month more Hm) in H.
    destruct (emit_in _ _ _ _ _ r H Hr) as [Hin|[Hdate _]]; auto.
  - injection H as <-. auto.
Qed.

Lemma wclc_loop_dates (max_n count : Z) (parts : list (list ascii)) :
  blocks parts ->
  forall draws out,
    wclc_loop max_n count parts draws = Ok out ->
    (forall r, In r draws -> date r = None) ->
    forall r, In r out -> date r = None.
Proof.
  induction 1 as [|month text more Hm Hb IH]; intros draws out H Hd.
  - injection H as <-. exact Hd.
  - cbn [wclc_loop] in H.
    destruct (wclc_block max_n count month text draws) as [draws'|] eqn:E;
      [|discriminate].
    cbn [Py.bind] in H. apply (IH draws' out H).
    apply (wclc_block_dates _ _ _ _ _ _ Hm E Hd).
Qed.

Lemma parse_wclc_print_never_dates (s : soup) (max_n count : Z)
    (recs : list draw) (r : draw) :
    parse_wclc_print s max_n count = Ok recs -> In r recs -> date r = None.
Proof.
  unfold parse_wclc_print, Re.split.
  destruct (split_blocks (get_text s) None 0%nat []) as [piece [more [-> Hb]]].
  cbn [tl]. destruct (wclc_loop max_n count more []) as [draws|] eqn:E;
    [|discriminate].
  cbn [Py.bind]. intros H Hr. apply (dedupe_by_date_incl _ _ H) in Hr.
  apply (wclc_loop_dates max_n count more Hb [] draws E); [intros ? []|exact Hr].
Qed.

Lemma slice_to_length {A} (l : list A) (k : Z) :
  0 <= k <= len l -> len (slice_to l k) = k.
Proof.
  intros H. unfold slice_to, clamp, len in *.
  destruct (Z.ltb_spec k 0); [lia|].
  rewrite firstn_length_le; lia.
Qed.

Lemma slice_to_incl {A} (l : list A) (k : Z) : incl (slice_to l k) l.
Proof.
  unfold slice_to. intros x Hx.
  rewrite <- (firstn_skipn (clamp l k) l). apply in_or_app. now left.
Qed.

Lemma slice_to_NoDup {A} (l : list A) (k : Z) : NoDup l -> NoDup (slice_to l k).
Proof.
  unfold slice_to. intros H.
  rewrite <- (firstn_skipn (clamp l k) l) in H.
  now apply NoDup_app_remove_r in H.
Qed.

Lemma numbers_in_range (max_n : Z) (text : list ascii) (n : Z) :
  In n (numbers_in max_n text) -> 1 <= n <= max_n.
Proof. unfold numbers_in. intros H. apply filter_In in H. lia. Qed.

(** the shape both parsers give the main numbers *)
Definition main_shaped (max_n count : Z) (r : draw) : Prop :=
  len (main r) = count /\ forall n, In n (main r) -> 1 <= n <= max_n.

Lemma wclc_loop_shape (max_n count : Z) (parts : list (list ascii)) :
  0 <= count ->
  forall draws out,
    wclc_loop max_n count parts draws = Ok out ->
    Forall (main_shaped max_n count) draws ->
    Forall (main_shaped max_n count) out.
Proof.
  intros Hc.
  assert (B : forall month rest draws out,
             wclc_block max_n count month rest draws = Ok out ->
             Forall (main_shaped max_n count) draws ->
             Forall (main_shaped max_n count) out).
  { intros month rest draws out H Hd. unfold wclc_block in H.
    destruct (Re.search _ _); [|now injection H as <-].
    rewrite Forall_forall in *. intros r Hr.
    destruct (emit_in _ _ _ _ _ r H Hr) as [Hin|[_ [Hm Hl]]]; auto.
    split; rewrite Hm.
    - apply slice_to_length. lia.
    - intros n Hn. apply slice_to_incl in Hn.
      now apply numbers_in_range in Hn. }
  assert (G : forall n ps, (List.length ps <= n)%nat ->
             forall draws out,
               wclc_loop max_n count ps draws = Ok out ->
               Forall (main_shaped max_n count) draws ->
               Forall (main_shaped max_n count) out).
  { induction n as [|n IH]; intros ps Hn draws out H Hd.
    - destruct ps; [|simpl in Hn; lia]. now injection H as <-.
    - destruct ps as [|month [|rest more]]; cbn [wclc_loop] in H.
      + now injection H as <-.
      + now apply (B month [] draws out).
      + destruct (wclc_block max_n count month rest draws) as [draws'|] eqn:E;
          [|discriminate].
        cbn [Py.bind] in H. apply (IH more) with (draws := draws').
        * simpl in Hn. lia.
        * exact H.
        * now apply (B month rest draws draws'). }
  intros draws out. apply (G (List.length parts) parts). lia.
Qed.

Lemma parse_wclc_print_main_shape (s : soup) (max_n count : Z)
    (recs : list draw) (r : draw) :
  0 <= count ->
  parse_wclc_print s max_n count = Ok recs -> In r recs ->
  main_shaped max_n count r.
Proof.
  intros Hc. unfold parse_wclc_print.
  destruct (wclc_loop max_n count _ []) as [draws|] eqn:E; [|discriminate].
  cbn [Py.bind]. intros H Hr. apply (dedupe_by_date_incl _ _ H) in Hr.
  assert (F := wclc_loop_shape max_n count _ Hc [] draws E (Forall_nil _)).
  rewrite Forall_forall in F. now apply F.
Qed.

Lemma clean_NoDup (nums seen cleaned : list Z) :
  NoDup cleaned -> incl cleaned seen -> NoDup (clean nums seen cleaned).
Proof.
  revert seen cleaned. induction nums as [|v more IH]; intros seen cleaned Hn Hi;
    cbn [clean]; [exact Hn|].
  destruct (existsb (Z.eqb v) seen) eqn:E; [now apply IH|].
  apply IH.
  - apply NoDup_app; [exact Hn|repeat constructor; simpl; tauto|].
    intros x Hx [<-|[]].
    assert (X : existsb (Z.eqb v) seen = true).
    { apply existsb_exists. exists v. split; [now apply Hi|apply Z.eqb_refl]. }
    congruence.
  - unfold set_add. rewrite E. intros x Hx. apply in_app_or in Hx.
    apply in_or_app. destruct Hx as [Hx|Hx]; [left; now apply Hi|now right].
Qed.

Lemma clean_incl (nums seen cleaned : list Z) :
  incl (clean nums seen cleaned) (cleaned ++ nums).
Proof.
  revert seen cleaned. induction nums as [|v more IH]; intros seen cleaned;
    cbn [clean].
  - rewrite app_nil_r. apply incl_refl.
  - destruct (existsb (Z.eqb v) seen).
    + intros x Hx. apply IH in Hx. apply in_app_or in Hx.
      apply in_or_app. destruct Hx; [now left|right; now right].
    + intros x Hx. apply IH in Hx. rewrite <- app_assoc in Hx. exact Hx.
Qed.

(** what [parse_generic_tables] guarantees of a record *)
Definition row_shaped (max_n count : Z) (r : draw) : Prop :=
  main_shaped max_n count r /\ NoDup (main r) /\ date r <> None.

Lemma generic_row_shape (max_n count : Z) (cells : list (list ascii))
    (draws out : list draw) :
  0 <= count ->
  generic_row max_n count cells draws = Ok out ->
  Forall (row_shaped max_n count) draws ->
  Forall (row_shaped max_n count) out.
Proof.
  intros Hc H Hd. unfold generic_row in H.
  destruct cells as [|c cs]; [now injection H as <-|].
  destruct (first_date (c :: cs)) as [d|]; [|now injection H as <-].
  rewrite Forall_forall in *. intros r Hr.
  destruct (emit_in _ _ _ _ _ r H Hr) as [Hin|[Hdate [Hm Hl]]]; auto.
  split; [split|split].
  - rewrite Hm. apply slice_to_length. lia.
  - rewrite Hm. intros n Hn. apply slice_to_incl, clean_incl in Hn.
    cbn [app] in Hn. apply in_flat_map in Hn. destruct Hn as [cell [_ Hn]].
    now apply numbers_in_range in Hn.
  - rewrite Hm. apply slice_to_NoDup, clean_NoDup; [constructor|].
    intros x [].
  - rewrite Hdate. discriminate.
Qed.

Lemma parse_generic_tables_shape (s : soup) (max_n count : Z)
    (recs : list draw) (r : draw) :
  0 <= count ->
  parse_generic_tables s max_n count = Ok recs -> In r recs ->
  row_shaped max_n count r.
Proof.
  intros Hc. unfold parse_generic_tables.
  destruct (for_each _ (tables s) []) as [draws|] eqn:E; [|discriminate].
  cbn [Py.bind]. intros H Hr. apply (dedupe_by_date_incl _ _ H) in Hr.
  assert (F : Forall (row_shaped max_n count) draws).
  { apply (for_each_invariant _ (Forall (row_shaped max_n count)) _
             (fun table s0 s1 Ht =>
                for_each_invariant _ (Forall (row_shaped max_n count)) table
                  (fun cells d0 d1 => generic_row_shape max_n count cells d0 d1 Hc)
                  s0 s1 Ht)
             [] draws E).
    constructor. }
  rewrite Forall_forall in F. now apply F.
Qed.

Lemma date_eqb_refl (a : option string) : date_eqb a a = true.
Proof. destruct a; simpl; auto. apply String.eqb_refl. Qed.

Lemma dict_set_keys {V} (d : list (option string * V)) (k x : option string)
    (v : V) :
  In x (map fst (dict_set date_eqb d k v)) -> x = k \/ In x (map fst d).
Proof.
  induction d as [|[k0 v0] t IH]; simpl.
  - intros [H|[]]. now left.
  - destruct (date_eqb k k0) eqn:E; simpl.
    + apply date_eqb_eq in E. subst. tauto.
    + intros [H|H]; [tauto|]. destruct (IH H); tauto.
Qed.

Lemma dict_set_keys_NoDup {V} (d : list (option string * V))
    (k : option string) (v : V) :
  NoDup (map fst d) -> NoDup (map fst (dict_set date_eqb d k v)).
Proof.
  induction d as [|[k0 v0] t IH]; simpl; intros H.
  - repeat constructor. intros [].
  - inversion H as [|? ? Hk Ht]; subst.
    destruct (date_eqb k k0) eqn:E; simpl.
    + apply date_eqb_eq in E. subst. now constructor.
    + constructor; [|now apply IH].
      intros C. apply dict_set_keys in C. destruct C as [C|C]; [|contradiction].
      subst. rewrite date_eqb_refl in E. discriminate.
Qed.

Lemma sorted_keys_perm (keys keys' : list (option string)) :
  sorted_keys keys = Ok keys' -> Permutation keys' keys.
Proof.
  unfold sorted_keys. destruct keys as [|a [|b t]].
  - intros H. now injection H as <-.
  - intros H. now injection H as <-.
  - destruct (forallb is_some (a :: b :: t)); [|discriminate].
    intros H. injection H as <-.
    apply (sorted_perm (fun k => k) date_ltb (a :: b :: t)).
Qed.

Lemma collect_dates (uniq : list (option string * (list Z * option Z)))
    (keys : list (option string)) (out : list draw) :
  collect uniq keys = Ok out -> map date out = keys.
Proof.
  revert out. induction keys as [|d more IH]; intros out; simpl.
  - intros H. now injection H as <-.
  - destruct (dict_get date_eqb uniq d); [|discriminate]. cbn [Py.bind].
    destruct (collect uniq more) as [tl|]; [|discriminate]. cbn [Py.bind].
    intros H. injection H as <-. simpl. f_equal. now apply IH.
Qed.

Lemma uniq_keys_NoDup (draws : list draw)
    (d0 : list (option string * (list Z * option Z))) :
  NoDup (map fst d0) ->
  NoDup (map fst (fold_left
                    (fun u r => dict_set date_eqb u (date r) (main r, bonus r))
                    draws d0)).
Proof.
  revert d0. induction draws as [|r t IH]; intros d0 H; simpl; auto.
  apply IH. now apply dict_set_keys_NoDup.
Qed.

(** one record per date *)
Lemma dedupe_by_date_NoDup (draws out : list draw) :
  dedupe_by_date draws = Ok out -> NoDup (map date out).
Proof.
  unfold dedupe_by_date.
  destruct (sorted_keys _) as [keys|] eqn:E; [|discriminate].
  cbn [Py.bind]. intros H. rewrite (collect_dates _ _ _ H).
  apply (Permutation_NoDup (Permutation_sym (sorted_keys_perm _ _ E))).
  apply uniq_keys_NoDup. constructor.
Qed.

(** All its records being undated, the print-layout parser returns at
    most one. *)
Lemma parse_wclc_print_at_most_one (s : soup) (max_n count : Z)
    (recs : list draw) :
  parse_wclc_print s max_n count = Ok recs -> (List.length recs <= 1)%nat.
Proof.
  intros H.
  assert (D : forall r, In r recs -> date r = None)
    by (intros r; apply (parse_wclc_print_never_dates s max_n count recs r H)).
  assert (N : NoDup (map date recs)).
  { unfold parse_wclc_print in H.
    destruct (wclc_loop _ _ _ _); [|discriminate]. cbn [Py.bind] in H.
    now apply dedupe_by_date_NoDup in H. }
  destruct recs as [|r1 [|r2 t]]; simpl; try lia.
  exfalso. simpl in N. inversion N as [|? ? Hn _]; subst. apply Hn.
  left. rewrite (D r1), (D r2); simpl; auto.
Qed.

(* ================================================================== *)
(** ** The print-layout parser on concrete pages *)

Definition scenario_text : list ascii :=
  str "Saturday January 4, 2025 01 05 12 23 34 47 09".

(** C1.  On the page text of the scenario, with max_n = 49 and count = 6,
    [parse_wclc_print] returns one record, but not the expected one: its
    date is [None] (the date substring "January 4, 2025" has no weekday
    and, once its comma is stripped, fits none of [DATE_PATTERNS]), its
    main numbers are 4, 1, 5, 12, 23, 34 (the day of the month is read as
    the first number) and its bonus is 47. *)
Theorem parse_wclc_print_scenario :
  parse_wclc_print (Soup scenario_text []) 49 6
  = Ok [Draw None [4; 1; 5; 12; 23; 34] (Some 47)].
Proof. vm_compute. reflexivity. Qed.

(** The pieces of the scenario: the split, the date substring and its
    normalisation, the numbers of the block. *)
Example scenario_split :
  Re.split month_re scenario_text
  = [str "Saturday "; str "January"; str " 4, 2025 01 05 12 23 34 47 09"].
Proof. vm_compute. reflexivity. Qed.

Example scenario_date_substring :
  option_map Re.group0
    (Re.search (date_re (str "January"))
       (str "January 4, 2025 01 05 12 23 34 47 09"))
  = Some (str "January 4, 2025").
Proof. vm_compute. reflexivity. Qed.

Example scenario_date_not_parsed :
  try_parse_date (str "January 4, 2025") = None.
Proof. vm_compute. reflexivity. Qed.

Example scenario_date_with_weekday :
  try_parse_date (str "Saturday January 4, 2025") = Some "2025-01-04"%string.
Proof. vm_compute. reflexivity. Qed.

Example scenario_numbers :
  numbers_in 49 (str "January 4, 2025 01 05 12 23 34 47 09")
  = [4; 1; 5; 12; 23; 34; 47; 9].
Proof. vm_compute. reflexivity. Qed.

(** A page whose draw repeats the day of the month among its numbers
    makes [parse_wclc_print] return a record whose main numbers are not
    distinct: the block's numbers are filtered by range only. *)
Lemma parse_wclc_print_repeats_numbers :
  exists r,
    parse_wclc_print
      (Soup (str "Saturday January 4, 2025 04 11 12 23 34 47 09") []) 49 6
    = Ok [r] /\
    main r = [4; 4; 11; 12; 23; 34] /\ ~ NoDup (main r).
Proof.
  eexists. split; [vm_compute; reflexivity|]. split; [reflexivity|].
  cbn [main]. intros H. inversion H as [|? ? Hin _]; subst.
  apply Hin. now left.
Qed.

(** the claim as the specification states it, for both parsers *)
Definition parsers_emit_distinct_numbers : Prop :=
  forall s max_n count recs r,
    1 <= count < max_n ->
    parse_wclc_print s max_n count = Ok recs \/
    parse_generic_tables s max_n count = Ok recs ->
    In r recs ->
    len (main r) = count /\
    (forall n, In n (main r) -> 1 <= n <= max_n) /\
    NoDup (main r).

(** C3, counterexample.  The print-layout parser takes the first [count]
    numbers of a block that are in range, repeated or not: on the page
    of [parse_wclc_print_repeats_numbers] its record has the main
    numbers 4, 4, 11, 12, 23, 34. *)
Lemma parsers_emit_distinct_numbers_counterexample :
  ~ parsers_emit_distinct_numbers.
Proof.
  intros H. destruct parse_wclc_print_repeats_numbers as [r [E [_ N]]].
  apply N.
  apply (H (Soup (str "Saturday January 4, 2025 04 11 12 23 34 47 09") [])
           49 6 [r] r); [lia|now left|now left].
Qed.

(** C3.  For any page and any parameters with 1 <= count < max_n, every
    record of either parser has exactly [count] main numbers, each in
    1..max_n; the main numbers of a record of [parse_generic_tables] are
    also distinct.  (Those of a record of [parse_wclc_print] need not
    be: it filters by range only.) *)
Theorem parsed_records_have_count_numbers_in_range
    (s : soup) (max_n count : Z) (recs : list draw) (r : draw) :
  1 <= count < max_n -> In r recs ->
  (parse_wclc_print s max_n count = Ok recs ->
   len (main r) = count /\
   forall n, In n (main r) -> 1 <= n <= max_n) /\
  (parse_generic_tables s max_n count = Ok recs ->
   len (main r) = count /\
   (forall n, In n (main r) -> 1 <= n <= max_n) /\
   NoDup (main r)).
Proof.
  intros Hc Hr. split; intros H.
  - apply (parse_wclc_print_main_shape s max_n count recs r); [lia| |];
      assumption.
  - destruct (parse_generic_tables_shape s max_n count recs r) as [[L R] [N _]];
      [lia|assumption|assumption|].
    auto.
Qed.

(** a page announcing one draw *)
Definition announcement_text : list ascii :=
  str "Draw of Wednesday January 8, 2025: 03 14 21 30 41 44 Bonus 17".

(** C2.  A block whose date substring fails to normalise is not dropped:
    on this page the date substring is "January 8, 2025", for which
    [try_parse_date] returns [None], and [parse_wclc_print] still returns
    a record for the block, with [None] as its date.  (By
    [parse_wclc_print_never_dates] this is what happens to every block of
    every page.) *)
Theorem parse_wclc_print_emits_undated_record :
  exists r,
    parse_wclc_print (Soup announcement_text []) 49 6 = Ok [r] /\
    date r = None /\ main r = [8; 3; 14; 21; 30; 41] /\
    option_map Re.group0
      (Re.search (date_re (str "January"))
         (str "January 8, 2025: 03 14 21 30 41 44 Bonus 17"))
    = Some (str "January 8, 2025") /\
    try_parse_date (str "January 8, 2025") = None.
Proof.
  eexists. split; [vm_compute; reflexivity|].
  split; [reflexivity|]. split; [reflexivity|].
  split; vm_compute; reflexivity.
Qed.

(** The generic parser on the same draw laid out as a table row: the
    date cell normalises and the numbers are de-duplicated. *)
Example parse_generic_tables_sample :
  parse_generic_tables
    (Soup [] [[[str "Wednesday January 8, 2025"; str "03 14 21 30 41 44";
                str "17"]]]) 49 6
  = Ok [Draw (Some "2025-01-08"%string) [8; 3; 14; 21; 30; 41] (Some 44)].
Proof. vm_compute. reflexivity. Qed.

(** the draw of [announcement_text] as each parser reads it, from the
    text and from a table row *)
Lemma parsed_records_witness :
  let rw := Draw None [8; 3; 14; 21; 30; 41] (Some 44) in
  let rg := Draw (Some "2025-01-08"%string) [8; 3; 14; 21; 30; 41] (Some 44) in
  (len (main rw) = 6 /\ forall n, In n (main rw) -> 1 <= n <= 49) /\
  (len (main rg) = 6 /\ (forall n, In n (main rg) -> 1 <= n <= 49) /\
   NoDup (main rg)).
Proof.
  split.
  - apply (proj1 (parsed_records_have_count_numbers_in_range
                    (Soup announcement_text []) 49 6
                    [Draw None [8; 3; 14; 21; 30; 41] (Some 44)]
                    (Draw None [8; 3; 14; 21; 30; 41] (Some 44))
                    ltac:(lia) (or_introl eq_refl))).
    vm_compute. reflexivity.
  - apply (proj2 (parsed_records_have_count_numbers_in_range
                    (Soup [] [[[str "Wednesday January 8, 2025";
                                str "03 14 21 30 41 44"; str "17"]]]) 49 6
                    [Draw (Some "2025-01-08"%string) [8; 3; 14; 21; 30; 41]
                       (Some 44)]
                    (Draw (Some "2025-01-08"%string) [8; 3; 14; 21; 30; 41]
                       (Some 44))
                    ltac:(lia) (or_introl eq_refl))).
    vm_compute. reflexivity.
Defined.

(** ** When de-duplication cannot fail *)

Lemma dict_get_key {V} (d : list (option string * V)) (k : option string) :
  In k (map fst d) -> exists v, dict_get date_eqb d k = Ok v.
Proof.
  induction d as [|[k' v'] t IH]; simpl; [tauto|].
  intros H. destruct (date_eqb k k') eqn:E; [now exists v'|].
  destruct H as [H|H]; [|now apply IH].
  subst. rewrite date_eqb_refl in E. discriminate.
Qed.

Lemma collect_ok (uniq : list (option string * (list Z * option Z)))
    (keys : list (option string)) :
  incl keys (map fst uniq) -> exists out, collect uniq keys = Ok out.
Proof.
  induction keys as [|d more IH]; intros H; cbn [collect].
  - now exists [].
  - destruct (dict_get_key uniq d) as [v ->]; [apply H; now left|].
    destruct IH as [tl ->]; [intros x Hx; apply H; now right|].
    cbn [Py.bind]. eauto.
Qed.

Lemma uniq_keys_in (draws : list draw) (k : option string) :
  In k (map fst (fold_left
                   (fun u r => dict_set date_eqb u (date r) (main r, bonus r))
                   draws [])) ->
  exists r, In r draws /\ date r = k.
Proof.
  intros H. apply in_map_iff in H. destruct H as [[k' v] [<- H]].
  apply uniq_in in H. destruct H as [[]|H].
  eexists. split; [exact H|reflexivity].
Qed.

(** records that are all undated, or all dated, de-duplicate without an
    exception *)
Lemma dedupe_by_date_ok (draws : list draw) :
  (forall r, In r draws -> date r = None) \/
  (forall r, In r draws -> date r <> None) ->
  exists out, dedupe_by_date draws = Ok out.
Proof.
  intros H. unfold dedupe_by_date.
  set (uniq := fold_left _ draws []).
  assert (N : NoDup (dict_keys uniq))
    by (apply uniq_keys_NoDup; constructor).
  assert (K : forall k, In k (dict_keys uniq) ->
                        exists r, In r draws /\ date r = k)
    by (intros k; apply uniq_keys_in).
  assert (S : exists keys, sorted_keys (dict_keys uniq) = Ok keys).
  { unfold sorted_keys. destruct (dict_keys uniq) as [|a [|b t]] eqn:E; eauto.
    destruct H as [H|H].
    - exfalso. inversion N as [|? ? Hn _]; subst. apply Hn. left.
      destruct (K a) as [ra [Ia Da]]; [now left|].
      destruct (K b) as [rb [Ib Db]]; [right; now left|].
      rewrite <- Da, <- Db, (H ra Ia), (H rb Ib). reflexivity.
    - assert (F : forallb is_some (a :: b :: t) = true).
      { apply forallb_forall. intros k Hk. destruct (K k Hk) as [r [Ir Dr]].
        specialize (H r Ir). rewrite Dr in H. now destruct k. }
      rewrite F. eauto. }
  destruct S as [keys E]. rewrite E. cbn [Py.bind].
  apply collect_ok. intros k Hk.
  apply (Permutation_in _ (sorted_keys_perm _ _ E)). exact Hk.
Qed.

Lemma parse_generic_tables_dated (s : soup) (max_n count : Z)
    (recs : list draw) (r : draw) :
  parse_generic_tables s max_n count = Ok recs -> In r recs ->
  date r <> None.
Proof.
  unfold parse_generic_tables.
  destruct (for_each _ (tables s) []) as [draws|] eqn:E; [|discriminate].
  cbn [Py.bind]. intros H Hr. apply (dedupe_by_date_incl _ _ H) in Hr.
  set (P := Forall (fun d : draw => date d <> None)).
  assert (R : forall cells d0 d1,
             generic_row max_n count cells d0 = Ok d1 -> P d0 -> P d1).
  { intros cells d0 d1 Hg Hd. unfold generic_row in Hg.
    destruct cells as [|c cs]; [now injection Hg as <-|].
    destruct (first_date (c :: cs)) as [d|]; [|now injection Hg as <-].
    unfold P in *. rewrite Forall_forall in *. intros x Hx.
    destruct (emit_in _ _ _ _ _ x Hg Hx) as [Hin|[Hdate _]]; auto.
    rewrite Hdate. discriminate. }
  assert (F : P draws).
  { apply (for_each_invariant _ P _
             (fun table s0 s1 Ht => for_each_invariant _ P table R s0 s1 Ht)
             [] draws E).
    constructor. }
  unfold P in F. rewrite Forall_forall in F. now apply F.
Qed.

(* ================================================================== *)
(** ** The fallback fetcher *)

Section FetchFacts.
Variable http_get : nat -> string -> option (Z * list ascii).
Variable make_soup : list ascii -> res soup.
Variable cfg : game_config.

(** the log after the groups [groups] were all tried, in order *)
Fixpoint log_after (groups : list source_group) (log : list event)
  : list event :=
  match groups with
  | [] => log
  | g :: more => log_after more (snd (fetch_group http_get make_soup cfg g log))
  end.

(** every group of [groups], tried in order, ends with no record *)
Fixpoint zero_yield (groups : list source_group) (log : list event) : Prop :=
  match groups with
  | [] => True
  | g :: more =>
      fst (fetch_group http_get make_soup cfg g log) = Ok [] /\
      zero_yield more (snd (fetch_group http_get make_soup cfg g log))
  end.

Lemma requested_app (l1 l2 : list event) :
  requested (l1 ++ l2) = requested l1 ++ requested l2.
Proof. unfold requested. apply flat_map_app. Qed.

Lemma fetch_url_requested (g : source_group) (url : string)
    (st : list draw * list event) :
  requested (snd (fetch_url http_get make_soup cfg g url st))
  = requested (snd st) ++ [url].
Proof.
  destruct st as [all_draws log]. unfold fetch_url. cbn [snd].
  destruct (http_get _ url) as [[status_code text]|].
  - destruct (negb (status_code =? 200)).
    + cbn [snd]. rewrite !requested_app. simpl. now rewrite app_nil_r.
    + destruct (Py.bind _ _); cbn [snd]; rewrite !requested_app; simpl;
        now rewrite app_nil_r.
  - cbn [snd]. rewrite !requested_app. simpl. now rewrite app_nil_r.
Qed.

Lemma fetch_urls_requested (g : source_group) (l : list string)
    (st : list draw * list event) :
  requested (snd (fold_left
                    (fun st url => fetch_url http_get make_soup cfg g url st)
                    l st))
  = requested (snd st) ++ l.
Proof.
  revert st. induction l as [|u l IH]; intros st; simpl.
  - now rewrite app_nil_r.
  - rewrite IH, fetch_url_requested, <- app_assoc. reflexivity.
Qed.

Lemma fetch_group_requested (g : source_group) (log : list event) :
  requested (snd (fetch_group http_get make_soup cfg g log))
  = requested log ++ urls g.
Proof.
  unfold fetch_group.
  assert (H := fetch_urls_requested g (urls g) ([], log)).
  destruct (fold_left _ (urls g) ([], log)) as [all_draws log'].
  exact H.
Qed.

Lemma log_after_requested (groups : list source_group) (log : list event) :
  requested (log_after groups log) = requested log ++ flat_map urls groups.
Proof.
  revert log. induction groups as [|g more IH]; intros log; simpl.
  - now rewrite app_nil_r.
  - rewrite IH, fetch_group_requested, <- app_assoc. reflexivity.
Qed.

Lemma try_groups_zero (pre rest : list source_group) (log : list event) :
  zero_yield pre log ->
  try_groups http_get make_soup cfg (pre ++ rest) log
  = try_groups http_get make_soup cfg rest (log_after pre log).
Proof.
  revert log. induction pre as [|g more IH]; intros log H; simpl; auto.
  destruct H as [H1 H2].
  destruct (fetch_group http_get make_soup cfg g log) as [r log'].
  cbn [fst snd] in *. subst r. now apply IH.
Qed.
(** the records a group gathers are all undated (print-layout parser) or
    all dated (generic parser) *)
Definition uniform (g : source_group) (draws : list draw) : Prop :=
  if String.eqb (parser g) "wclc"
  then forall r, In r draws -> date r = None
  else forall r, In r draws -> date r <> None.

Lemma uniform_app (g : source_group) (a b : list draw) :
  uniform g a -> uniform g b -> uniform g (a ++ b).
Proof.
  unfold uniform. destruct (String.eqb (parser g) "wclc");
    intros Ha Hb r Hr; apply in_app_or in Hr; destruct Hr; auto.
Qed.

Lemma fetch_url_uniform (g : source_group) (url : string)
    (st : list draw * list event) :
  uniform g (fst st) ->
  uniform g (fst (fetch_url http_get make_soup cfg g url st)).
Proof.
  destruct st as [all_draws log]. cbn [fst]. intros H. unfold fetch_url.
  destruct (http_get _ url) as [[status_code text]|]; [|exact H].
  destruct (negb (status_code =? 200)); [exact H|].
  destruct (make_soup text) as [s|]; cbn [Py.bind]; [|exact H].
  destruct (String.eqb (parser g) "wclc") eqn:E.
  - destruct (parse_wclc_print s (max_n cfg) (count cfg)) as [parsed|] eqn:P;
      cbn [fst]; [|exact H].
    apply uniform_app; [exact H|]. unfold uniform. rewrite E.
    intros r. apply (parse_wclc_print_never_dates _ _ _ _ r P).
  - destruct (parse_generic_tables s (max_n cfg) (count cfg)) as [parsed|] eqn:P;
      cbn [fst]; [|exact H].
    apply uniform_app; [exact H|]. unfold uniform. rewrite E.
    intros r. apply (parse_generic_tables_dated _ _ _ _ r P).
Qed.

(** no group ends with an exception *)
Lemma fetch_group_ok (g : source_group) (log : list event) :
  exists recs, fst (fetch_group http_get make_soup cfg g log) = Ok recs.
Proof.
  unfold fetch_group.
  assert (U : forall l st, uniform g (fst st) ->
                uniform g (fst (fold_left
                  (fun st url => fetch_url http_get make_soup cfg g url st)
                  l st))).
  { induction l as [|u l IH]; intros st Hst; simpl; auto.
    apply IH. now apply fetch_url_uniform. }
  specialize (U (urls g) ([], log)).
  destruct (fold_left _ (urls g) ([], log)) as [all_draws log'].
  cbn [fst] in *. apply dedupe_by_date_ok.
  assert (U0 : uniform g []).
  { unfold uniform. destruct (String.eqb (parser g) "wclc"); intros r []. }
  specialize (U U0). unfold uniform in U.
  destruct (String.eqb (parser g) "wclc"); [now left|now right].
Qed.

Lemma try_groups_ok (groups : list source_group) (log : list event) :
  exists recs lbl,
    fst (try_groups http_get make_soup cfg groups log) = Ok (recs, lbl).
Proof.
  revert log. induction groups as [|g more IH]; intros log; cbn [try_groups].
  - now exists [], "none"%string.
  - destruct (fetch_group_ok g log) as [recs E].
    destruct (fetch_group http_get make_soup cfg g log) as [r log'].
    cbn [fst] in E. subst r. destruct recs as [|r0 recs']; [apply IH|].
    now exists (r0 :: recs'), (label g).
Qed.
End FetchFacts.

(** C5.  Without the fetch and parse libraries the fetcher returns
    [([], "offline")] and makes no request.  With them it tries the
    groups in their configured order: when the groups before [g] each
    end with no record and [g] ends with the records [recs], not empty,
    it returns [(recs, label g)] and has requested the URLs of those
    groups and of [g], once each and in order, and none of a later
    group; when every group ends with no record it returns
    [([], "none")].  No other case exists: the fetcher never ends with an
    exception. *)
Theorem fallback_returns_first_group_with_records
    (available : bool) (http_get : nat -> string -> option (Z * list ascii))
    (make_soup : list ascii -> res soup) (cfg : game_config) :
  (available = false ->
   fetch_with available http_get make_soup cfg
   = (Ok ([], "offline"%string), [])) /\
  (available = true ->
   forall pre g post recs,
     sources cfg = pre ++ g :: post ->
     zero_yield http_get make_soup cfg pre [] ->
     fst (fetch_group http_get make_soup cfg g
            (log_after http_get make_soup cfg pre [])) = Ok recs ->
     recs <> [] ->
     fst (fetch_with available http_get make_soup cfg) = Ok (recs, label g) /\
     requested (snd (fetch_with available http_get make_soup cfg))
     = flat_map urls (pre ++ [g])) /\
  (available = true ->
   zero_yield http_get make_soup cfg (sources cfg) [] ->
   fst (fetch_with available http_get make_soup cfg)
   = Ok ([], "none"%string) /\
   requested (snd (fetch_with available http_get make_soup cfg))
   = flat_map urls (sources cfg)) /\
  (exists recs lbl,
     fst (fetch_with available http_get make_soup cfg) = Ok (recs, lbl)).
Proof.
  split; [|split; [|split]].
  - intros ->. reflexivity.
  - intros -> pre g post recs Hsrc Hzero Hg Hne.
    unfold fetch_with. cbn [negb]. rewrite Hsrc.
    rewrite try_groups_zero by exact Hzero. cbn [try_groups].
    assert (R := fetch_group_requested http_get make_soup cfg g
                   (log_after http_get make_soup cfg pre [])).
    destruct (fetch_group http_get make_soup cfg g _) as [r log'].
    cbn [fst snd] in *. subst r.
    destruct recs as [|r0 recs']; [congruence|]. cbn [fst snd]. split.
    + reflexivity.
    + rewrite R, log_after_requested, flat_map_app. simpl.
      now rewrite app_nil_r.
  - intros -> Hzero. unfold fetch_with. cbn [negb].
    rewrite <- (app_nil_r (sources cfg)) at 1 2.
    rewrite try_groups_zero by exact Hzero. cbn [try_groups fst snd].
    split; [reflexivity|]. now rewrite log_after_requested.
  - unfold fetch_with. destruct available; cbn [negb].
    + apply try_groups_ok.
    + now exists [], "offline"%string.
Qed.

(** A run of the scenario of the specification: the first group answers
    HTTP 500 on both URLs, the second parses to nothing, the third has a
    draw, and a fourth is never asked. *)
Definition demo_web (k : nat) (url : string) : option (Z * list ascii) :=
  if String.eqb url "https://one.example/a" then Some (500, [])
  else if String.eqb url "https://one.example/b" then Some (500, [])
  else if String.eqb url "https://two.example/" then
    Some (200, str "results are not available")
  else if String.eqb url "https://three.example/" then
    Some (200, str "Saturday January 4, 2025")
  else None.

(** a page made of one table with one row with one cell *)
Definition demo_soup (text : list ascii) : res soup :=
  Ok (Soup text [[[text]]]).

Definition demo_one : source_group :=
  SourceGroup "ONE"
    ["https://one.example/a"; "https://one.example/b"]%string
    "generic"%string.
Definition demo_two : source_group :=
  SourceGroup "TWO" ["https://two.example/"%string] "wclc"%string.
Definition demo_three : source_group :=
  SourceGroup "THREE" ["https://three.example/"%string] "generic"%string.
Definition demo_four : source_group :=
  SourceGroup "FOUR" ["https://four.example/"%string] "generic"%string.

Definition demo_config : game_config :=
  GameConfig 1 49 [demo_one; demo_two; demo_three; demo_four]
    "https://one.example/"%string.

Lemma fallback_witness :
  fst (fetch_with true demo_web demo_soup demo_config)
  = Ok ([Draw (Some "2025-01-04"%string) [4] None], label demo_three) /\
  requested (snd (fetch_with true demo_web demo_soup demo_config))
  = flat_map urls ([demo_one; demo_two] ++ [demo_three]).
Proof.
  destruct (fallback_returns_first_group_with_records
              true demo_web demo_soup demo_config) as [_ [H _]].
  apply (H eq_refl [demo_one; demo_two] demo_three [demo_four]
           [Draw (Some "2025-01-04"%string) [4] None]).
  - reflexivity.
  - cbn [zero_yield]. split; [vm_compute; reflexivity|].
    split; [vm_compute; reflexivity|]. exact I.
  - vm_compute. reflexivity.
  - discriminate.
Defined.

Example fallback_sample_log :
  snd (fetch_with true demo_web demo_soup demo_config)
  = [ Request "https://one.example/a";
      SkipMsg "ONE" "https://one.example/a" 500;
      Request "https://one.example/b";
      SkipMsg "ONE" "https://one.example/b" 500;
      Request "https://two.example/";
      ParsedMsg "TWO" "https://two.example/" 0;
      Request "https://three.example/";
      ParsedMsg "THREE" "https://three.example/" 1 ]%string.
Proof. vm_compute. reflexivity. Qed.

(* ================================================================== *)
(** * Further properties *)

(** ** Date normalisation *)

Lemma lstrip_incl (s : list ascii) : incl (Strptime.lstrip s) s.
Proof.
  induction s as [|c t IH]; simpl; [apply incl_refl|].
  destruct (Re.is_space c); [now apply incl_tl|apply incl_refl].
Qed.

Lemma strip_incl (s : list ascii) : incl (Strptime.strip s) s.
Proof.
  unfold Strptime.strip. intros c Hc. apply in_rev in Hc.
  apply lstrip_incl in Hc. apply in_rev in Hc. now apply lstrip_incl in Hc.
Qed.

(** no text without a comma fits the pattern ["%A, %B %d, %Y"] *)
Lemma strptime_weekday_comma (t : list ascii) :
  ~ In ","%char t -> Strptime.strptime t (str "%A, %B %d, %Y") = None.
Proof.
  intros Hc. unfold Strptime.strptime.
  assert (F : exists a rest,
             Strptime.format_regex (str "%A, %B %d, %Y") false
             = Some (Re.Seq a (Re.Seq (Re.ChrI ",") rest))).
  { repeat eexists. }
  destruct F as [a [rest ->]].
  destruct (Re.match_at _ None t) as [m|] eqn:E; [|reflexivity].
  exfalso. unfold Re.match_at in E. cbn [Re.rmatch] in E.
  apply rmatch_inv in E. destruct E as [p1 [pre1 [s1 [c1 [-> E]]]]].
  cbv beta in E. unfold Re.ChrI in E. cbn [Re.rmatch] in E.
  destruct s1 as [|x s1]; [discriminate|].
  destruct (Ascii.eqb (Re.lower x) (Re.lower ",")) eqn:X; [|discriminate].
  apply lower_comma in X. subst x. apply Hc.
  apply in_or_app; right. now left.
Qed.

(** X1.  Since the commas are removed before matching, the two patterns
    of [DATE_PATTERNS] that contain a comma never match: the result of
    [try_parse_date] is that of the first pattern, ["%A %B %d %Y"], on
    the stripped text. *)
Theorem try_parse_date_uses_first_pattern_only (text : list ascii) :
  try_parse_date text
  = option_map Strptime.isoformat
      (Strptime.strptime
         (Strptime.strip (filter (fun c => negb (Ascii.eqb c ",")) text))
         (str "%A %B %d %Y")).
Proof.
  rewrite try_parse_date_steps. cbv zeta.
  set (t := Strptime.strip _).
  assert (Hc : ~ In ","%char t).
  { unfold t. intros C. apply strip_incl in C. revert C.
    apply filter_no_comma. }
  rewrite (strptime_weekday_comma t Hc), (strptime_needs_comma t Hc).
  destruct (Strptime.strptime t (str "%A %B %d %Y")); reflexivity.
Qed.

(** X2.  A text that starts with the name of a month, as the date
    substring of [parse_wclc_print] does, is never normalised. *)
Theorem try_parse_date_rejects_month_first (month more : list ascii) :
  In month (map str month_names) -> try_parse_date (month ++ more) = None.
Proof. apply month_first_not_a_date. Qed.

Lemma try_parse_date_rejects_month_first_witness :
  try_parse_date (str "March" ++ str " 14, 2024") = None.
Proof.
  apply try_parse_date_rejects_month_first. simpl. tauto.
Defined.

(** ** De-duplication by date *)

Lemma date_eqb_sym (a b : option string) : date_eqb a b = date_eqb b a.
Proof. destruct a, b; simpl; auto. apply String.eqb_sym. Qed.

Lemma dict_get_set {V} (d : list (option string * V)) (k k' : option string)
    (v : V) :
  dict_get date_eqb (dict_set date_eqb d k v) k'
  = if date_eqb k' k then Ok v else dict_get date_eqb d k'.
Proof.
  induction d as [|[k0 v0] t IH]; simpl.
  - destruct (date_eqb k' k); reflexivity.
  - destruct (date_eqb k k0) eqn:E; simpl.
    + apply date_eqb_eq in E. subst k0.
      destruct (date_eqb k' k); reflexivity.
    + rewrite IH. destruct (date_eqb k' k0) eqn:E0; auto.
      destruct (date_eqb k' k) eqn:E1; auto.
      apply date_eqb_eq in E0, E1. subst. rewrite date_eqb_refl in E.
      discriminate.
Qed.

Lemma find_app {A} (f : A -> bool) (l1 l2 : list A) :
  find f (l1 ++ l2) = match find f l1 with
                      | Some x => Some x
                      | None => find f l2
                      end.
Proof.
  induction l1 as [|x t IH]; simpl; auto. destruct (f x); auto.
Qed.

(** the record a date maps to after the accumulation loop: the last one
    of the list with that date *)
Definition last_with (d : option string) (draws : list draw) : option draw :=
  find (fun r => date_eqb (date r) d) (rev draws).

Lemma uniq_get (draws : list draw)
    (d0 : list (option string * (list Z * option Z))) (k : option string) :
  dict_get date_eqb
    (fold_left (fun u r => dict_set date_eqb u (date r) (main r, bonus r))
               draws d0) k
  = match last_with k draws with
    | Some r => Ok (main r, bonus r)
    | None => dict_get date_eqb d0 k
    end.
Proof.
  unfold last_with. revert d0. induction draws as [|r t IH]; intros d0;
    simpl; auto.
  rewrite IH, find_app, dict_get_set. simpl.
  destruct (find _ (rev t)); auto.
  rewrite (date_eqb_sym k (date r)). destruct (date_eqb (date r) k); auto.
Qed.

Lemma collect_get (uniq : list (option string * (list Z * option Z)))
    (keys : list (option string)) (out : list draw) (r : draw) :
  collect uniq keys = Ok out -> In r out ->
  dict_get date_eqb uniq (date r) = Ok (main r, bonus r).
Proof.
  revert out. induction keys as [|d more IH]; intros out; simpl.
  - intros H. injection H as <-. intros [].
  - destruct (dict_get date_eqb uniq d) as [v|] eqn:E; [|discriminate].
    cbn [Py.bind]. destruct (collect uniq more) as [tl|]; [|discriminate].
    cbn [Py.bind]. intros H. injection H as <-. intros [<-|Hin].
    + cbn [date main bonus]. rewrite E. now destruct v.
    + now apply (IH tl).
Qed.

(** X3.  Every record [dedupe_by_date] returns is the last record of its
    input with that date: later records overwrite earlier ones. *)
Theorem dedupe_by_date_keeps_last (draws out : list draw) (r : draw) :
  dedupe_by_date draws = Ok out -> In r out ->
  last_with (date r) draws = Some r.
Proof.
  unfold dedupe_by_date. destruct (sorted_keys _) as [keys|]; [|discriminate].
  cbn [Py.bind]. intros H Hr. apply (collect_get _ _ _ r H) in Hr.
  rewrite uniq_get in Hr. destruct (last_with (date r) draws) as [x|] eqn:E;
    [|discriminate].
  injection Hr as Hm Hb. unfold last_with in E. apply find_some in E.
  destruct E as [_ E]. apply date_eqb_eq in E.
  destruct x, r; simpl in *; congruence.
Qed.

Definition two_days : list draw :=
  [ Draw (Some "2025-01-08"%string) [1; 2] None;
    Draw (Some "2025-01-04"%string) [3; 4] (Some 5);
    Draw (Some "2025-01-08"%string) [6; 7] (Some 8) ].

Lemma dedupe_by_date_keeps_last_witness :
  last_with (date (Draw (Some "2025-01-08"%string) [6; 7] (Some 8))) two_days
  = Some (Draw (Some "2025-01-08"%string) [6; 7] (Some 8)).
Proof.
  apply (dedupe_by_date_keeps_last two_days
           [ Draw (Some "2025-01-04"%string) [3; 4] (Some 5);
             Draw (Some "2025-01-08"%string) [6; 7] (Some 8) ]).
  - vm_compute. reflexivity.
  - simpl. tauto.
Defined.

Lemma dict_set_keys_mono {V} (d : list (option string * V))
    (k x : option string) (v : V) :
  x = k \/ In x (map fst d) -> In x (map fst (dict_set date_eqb d k v)).
Proof.
  induction d as [|[k0 v0] t IH]; simpl.
  - intros [H|[]]. now left.
  - destruct (date_eqb k k0) eqn:E; simpl.
    + apply date_eqb_eq in E. subst k0.
      intros [H|[H|H]]; [left; congruence|now left|now right].
    + intros [H|[H|H]]; [right; apply IH; now left|now left|].
      right. apply IH. now right.
Qed.

Lemma uniq_keys_of_draws (draws : list draw)
    (d0 : list (option string * (list Z * option Z))) (k : option string) :
  In k (map fst d0) \/ In k (map date draws) ->
  In k (map fst (fold_left
                   (fun u r => dict_set date_eqb u (date r) (main r, bonus r))
                   draws d0)).
Proof.
  revert d0. induction draws as [|r t IH]; intros d0; simpl.
  - tauto.
  - intros H. apply IH. destruct H as [H|[H|H]].
    + left. apply dict_set_keys_mono. now right.
    + left. apply dict_set_keys_mono. now left.
    + now right.
Qed.

(** the dates of the result: those of the input, once each *)
Lemma dedupe_dates (draws out : list draw) :
  dedupe_by_date draws = Ok out ->
  NoDup (map date out) /\
  forall d, In d (map date out) <-> In d (map date draws).
Proof.
  intros H. split; [now apply dedupe_by_date_NoDup in H|].
  intros d. split.
  - intros Hd. apply in_map_iff in Hd. destruct Hd as [r [<- Hr]].
    apply in_map. now apply (dedupe_by_date_incl _ _ H).
  - intros Hd. unfold dedupe_by_date in H.
    destruct (sorted_keys _) as [keys|] eqn:E; [|discriminate].
    cbn [Py.bind] in H. rewrite (collect_dates _ _ _ H).
    apply (Permutation_in _ (Permutation_sym (sorted_keys_perm _ _ E))).
    apply uniq_keys_of_draws. now right.
Qed.

(** X4.  [dedupe_by_date] returns exactly one record for every date of
    its input, and for no other date. *)
Theorem dedupe_by_date_one_per_date (draws out : list draw) :
  dedupe_by_date draws = Ok out ->
  NoDup (map date out) /\
  forall d, In d (map date out) <-> In d (map date draws).
Proof. apply dedupe_dates. Qed.

Lemma dedupe_by_date_one_per_date_witness :
  NoDup (map date
           [ Draw (Some "2025-01-04"%string) [3; 4] (Some 5);
             Draw (Some "2025-01-08"%string) [6; 7] (Some 8) ]) /\
  forall d,
    In d (map date
            [ Draw (Some "2025-01-04"%string) [3; 4] (Some 5);
              Draw (Some "2025-01-08"%string) [6; 7] (Some 8) ])
    <-> In d (map date two_days).
Proof.
  apply dedupe_by_date_one_per_date. vm_compute. reflexivity.
Defined.

(** strings in code-point order *)
Lemma string_compare_trans (a b c : string) :
  String.compare a b = Lt -> String.compare b c = Lt ->
  String.compare a c = Lt.
Proof.
  revert b c. induction a as [|x a IH]; intros [|y b] [|z c]; simpl;
    try discriminate; auto.
  destruct (Ascii.compare x y) eqn:Exy; try discriminate;
    destruct (Ascii.compare y z) eqn:Eyz; try discriminate.
  - apply Ascii.compare_eq_iff in Exy, Eyz. subst.
    assert (E : Ascii.compare z z = Eq).
    { unfold Ascii.compare. apply N.compare_refl. }
    rewrite E. apply IH.
  - apply Ascii.compare_eq_iff in Exy. subst. now rewrite Eyz.
  - apply Ascii.compare_eq_iff in Eyz. subst. now rewrite Exy.
  - unfold Ascii.compare in *. rewrite N.compare_lt_iff in Exy, Eyz.
    assert (E : (N_of_ascii x ?= N_of_ascii z)%N = Lt)
      by (apply N.compare_lt_iff; lia).
    now rewrite E.
Qed.

Lemma string_ltb_lt (a b : string) :
  String.ltb a b = true <-> String.compare a b = Lt.
Proof. unfold String.ltb. destruct (String.compare a b); split; congruence. Qed.

Lemma string_ltb_asym (a b : string) :
  String.ltb a b = true -> String.ltb b a = false.
Proof.
  rewrite string_ltb_lt. intros H. unfold String.ltb.
  rewrite String.compare_antisym, H. reflexivity.
Qed.

Lemma string_ltb_total (a b : string) :
  String.ltb a b = false -> a <> b -> String.ltb b a = true.
Proof.
  unfold String.ltb. rewrite (String.compare_antisym b a).
  destruct (String.compare a b) eqn:E; simpl; try congruence.
  apply String.compare_eq_iff in E. congruence.
Qed.

Lemma string_ltb_negtrans (a b c : string) :
  String.ltb a b = false -> String.ltb b c = false -> String.ltb a c = false.
Proof.
  intros H1 H2. destruct (String.ltb a c) eqn:E; auto.
  destruct (String.eqb_spec a b) as [->|Nab]; [congruence|].
  destruct (String.eqb_spec b c) as [->|Nbc]; [congruence|].
  apply string_ltb_total in H1, H2; auto.
  apply string_ltb_lt in H1, H2, E.
  assert (Y := string_compare_trans _ _ _ H2 H1).
  rewrite String.compare_antisym, Y in E. discriminate.
Qed.

Lemma sorted_map_some (ks : list string) :
  Py.sorted (fun k => k) date_ltb (map Some ks)
  = map Some (Py.sorted (fun k => k) String.ltb ks).
Proof.
  induction ks as [|k t IH]; simpl; auto. rewrite IH.
  generalize (Py.sorted (fun k0 => k0) String.ltb t) as l. intros l.
  induction l as [|y l IHl]; simpl; auto.
  destruct (String.ltb y k); simpl; [now rewrite IHl|reflexivity].
Qed.

Lemma all_some (keys : list (option string)) :
  forallb is_some keys = true -> exists ks, keys = map Some ks.
Proof.
  induction keys as [|[k|] t IH]; simpl; intros H; try discriminate.
  - now exists [].
  - destruct (IH H) as [ks ->]. now exists (k :: ks).
Qed.

Lemma StronglySorted_map {A B} (f : A -> B) (R : B -> B -> Prop)
    (l : list A) :
  StronglySorted R (map f l) <-> StronglySorted (fun a b => R (f a) (f b)) l.
Proof.
  induction l as [|x t IH]; simpl; split; intros H; try constructor;
    inversion H as [|? ? Hs Hx]; subst.
  - now apply IH.
  - rewrite Forall_forall in *. intros y Hy. apply Hx. now apply in_map.
  - now apply IH.
  - rewrite Forall_forall in *. intros y Hy. apply in_map_iff in Hy.
    destruct Hy as [z [<- Hz]]. now apply Hx.
Qed.

(** the keys [sorted_keys] returns are in strictly increasing order *)
Lemma sorted_keys_increasing (keys keys' : list (option string)) :
  NoDup keys -> sorted_keys keys = Ok keys' ->
  StronglySorted (fun a b => date_ltb a b = true) keys'.
Proof.
  intros Hn. unfold sorted_keys. destruct keys as [|a [|b t]].
  - intros H. injection H as <-. constructor.
  - intros H. injection H as <-. repeat constructor.
  - destruct (forallb is_some (a :: b :: t)) eqn:F; [|discriminate].
    intros H.
    assert (K : keys' = Py.sorted (fun k => k) date_ltb (a :: b :: t))
      by congruence.
    subst keys'. clear H.
    destruct (all_some _ F) as [ks E]. rewrite E, sorted_map_some.
    apply StronglySorted_map. cbn [date_ltb].
    apply (StronglySorted_impl
             (asc_before (fun k => k) String.ltb (fun x y => x <> y))).
    + intros x y _ _ [H1 [H2|H2]]; auto. now apply string_ltb_total.
    + apply sorted_sorted.
      * apply string_ltb_asym.
      * apply string_ltb_negtrans.
      * rewrite E in Hn. apply NoDup_map_inv in Hn.
        clear - Hn. induction Hn as [|x l Hx Hnd IH]; constructor; auto.
        rewrite Forall_forall. intros y Hy ->. contradiction.
Qed.

(** [r1] is dated before [r2] *)
Definition dated_before (r1 r2 : draw) : Prop :=
  date_ltb (date r1) (date r2) = true.

(** the result is in the order of the sorted keys *)
Lemma dedupe_sorted (draws out : list draw) :
  dedupe_by_date draws = Ok out -> StronglySorted dated_before out.
Proof.
  unfold dedupe_by_date.
  destruct (sorted_keys _) as [keys|] eqn:E; [|discriminate].
  cbn [Py.bind]. intros H. unfold dated_before.
  apply (StronglySorted_map date (fun a b => date_ltb a b = true)).
  rewrite (collect_dates _ _ _ H).
  apply (sorted_keys_increasing _ _ (uniq_keys_NoDup draws [] (NoDup_nil _)) E).
Qed.

(** X5.  The records [dedupe_by_date] returns are in strictly increasing
    order of their dates (ISO dates compared as strings). *)
Theorem dedupe_by_date_ascending (draws out : list draw) :
  dedupe_by_date draws = Ok out -> StronglySorted dated_before out.
Proof. apply dedupe_sorted. Qed.

Lemma dedupe_by_date_ascending_witness :
  StronglySorted dated_before
    [ Draw (Some "2025-01-04"%string) [3; 4] (Some 5);
      Draw (Some "2025-01-08"%string) [6; 7] (Some 8) ].
Proof.
  apply (dedupe_by_date_ascending two_days). vm_compute. reflexivity.
Defined.

Lemma undated_dec (r : draw) : {date r = None} + {date r <> None}.
Proof. destruct (date r); [right; discriminate|now left]. Qed.

(** the list holds an undated and a dated record *)
Definition mixed_dates (draws : list draw) : Prop :=
  exists r1 r2, In r1 draws /\ In r2 draws /\
                date r1 = None /\ date r2 <> None.

(** when the sort of the keys compares [None] with a string *)
Lemma dedupe_mixed (draws : list draw) :
  (mixed_dates draws -> dedupe_by_date draws = Raise TypeError) /\
  (~ mixed_dates draws -> exists out, dedupe_by_date draws = Ok out).
Proof.
  split.
  - intros [r1 [r2 [I1 [I2 [D1 D2]]]]]. unfold dedupe_by_date.
    set (uniq := fold_left _ draws []).
    assert (K1 : In None (dict_keys uniq)).
    { apply uniq_keys_of_draws. right. rewrite <- D1. now apply in_map. }
    assert (K2 : In (date r2) (dict_keys uniq)).
    { apply uniq_keys_of_draws. right. now apply in_map. }
    assert (F : forallb is_some (dict_keys uniq) = false).
    { destruct (forallb is_some (dict_keys uniq)) eqn:F; auto.
      rewrite forallb_forall in F. specialize (F None K1). discriminate. }
    unfold sorted_keys. destruct (dict_keys uniq) as [|a [|b t]] eqn:E.
    + destruct K1.
    + destruct K1 as [->|[]]. destruct K2 as [K2|[]]. congruence.
    + rewrite F. reflexivity.
  - intros H. apply dedupe_by_date_ok.
    destruct (Forall_Exists_dec (fun r : draw => date r = None)
                undated_dec draws) as [Ha|He].
    + left. now apply Forall_forall.
    + right. intros r Hr Dr. apply H. apply Exists_exists in He.
      destruct He as [r2 [I2 D2]]. now exists r, r2.
Qed.

(** X6.  [dedupe_by_date] fails, with the [TypeError] of comparing
    [None] with a string, exactly when its input holds both an undated
    and a dated record; otherwise it returns normally. *)
Theorem dedupe_by_date_fails_on_mixed_dates (draws : list draw) :
  (mixed_dates draws -> dedupe_by_date draws = Raise TypeError) /\
  (~ mixed_dates draws -> exists out, dedupe_by_date draws = Ok out).
Proof. apply dedupe_mixed. Qed.

Lemma dedupe_by_date_fails_witness :
  dedupe_by_date
    [ Draw None [1; 2] None; Draw (Some "2025-01-04"%string) [3; 4] None ]
  = Raise TypeError.
Proof.
  apply (proj1 (dedupe_by_date_fails_on_mixed_dates _)).
  exists (Draw None [1; 2] None), (Draw (Some "2025-01-04"%string) [3; 4] None).
  simpl. repeat split; try tauto. discriminate.
Defined.

Lemma StronglySorted_related {A} (R : A -> A -> Prop) (l : list A) (x y : A) :
  StronglySorted R l -> In x l -> In y l -> x = y \/ R x y \/ R y x.
Proof.
  induction 1 as [|h t Hs IH Hh]; intros Hx Hy; [destruct Hx|].
  rewrite Forall_forall in Hh.
  destruct Hx as [<-|Hx], Hy as [<-|Hy]; auto.
Qed.

Lemma same_dates_incl_eq (out' out : list draw) :
  map date out' = map date out -> incl out' out -> NoDup (map date out) ->
  out' = out.
Proof.
  revert out. induction out' as [|r' t' IH]; intros [|r t] Hm Hi Hn;
    try discriminate; auto.
  simpl in Hm. injection Hm as Hd Hm. simpl in Hn.
  inversion Hn as [|? ? Hr Ht]; subst.
  assert (E : r' = r).
  { destruct (Hi r' (or_introl eq_refl)) as [E|E]; auto.
    exfalso. apply Hr. rewrite <- Hd. now apply in_map. }
  subst r'. f_equal. apply IH; auto.
  intros x Hx. destruct (Hi x (or_intror Hx)) as [E|E]; auto.
  exfalso. subst x. apply Hr. rewrite <- Hm. now apply in_map.
Qed.

Lemma date_ltb_asym (a b : option string) :
  date_ltb a b = true -> date_ltb b a = true -> False.
Proof.
  destruct a as [x|], b as [y|]; simpl; try discriminate.
  intros H1 H2. apply string_ltb_asym in H1. congruence.
Qed.

(** X7.  De-duplicating twice changes nothing: the result of
    [dedupe_by_date] is a fixed point of it.  (Each parser de-duplicates
    its page, and the fetcher de-duplicates again what it gathered.) *)
Theorem dedupe_by_date_idempotent (draws out : list draw) :
  dedupe_by_date draws = Ok out -> dedupe_by_date out = Ok out.
Proof.
  intros H.
  assert (S := dedupe_sorted _ _ H).
  destruct (dedupe_dates _ _ H) as [N _].
  destruct (proj2 (dedupe_mixed out)) as [out' H'].
  { intros [r1 [r2 [I1 [I2 [D1 D2]]]]].
    destruct (StronglySorted_related _ _ r1 r2 S I1 I2) as [E|[E|E]].
    - congruence.
    - unfold dated_before in E. rewrite D1 in E. discriminate.
    - unfold dated_before in E. rewrite D1 in E.
      destruct (date r2); discriminate. }
  rewrite H'. f_equal.
  assert (S' := dedupe_sorted _ _ H').
  destruct (dedupe_dates _ _ H') as [N' M'].
  apply same_dates_incl_eq; auto.
  - apply (StronglySorted_perm_eq (fun a b => date_ltb a b = true)).
    + apply date_ltb_asym.
    + now apply StronglySorted_map.
    + now apply StronglySorted_map.
    + apply NoDup_Permutation; auto.
  - now apply dedupe_by_date_incl.
Qed.

Lemma dedupe_by_date_idempotent_witness :
  dedupe_by_date
    [ Draw (Some "2025-01-04"%string) [3; 4] (Some 5);
      Draw (Some "2025-01-08"%string) [6; 7] (Some 8) ]
  = Ok [ Draw (Some "2025-01-04"%string) [3; 4] (Some 5);
         Draw (Some "2025-01-08"%string) [6; 7] (Some 8) ].
Proof.
  apply (dedupe_by_date_idempotent two_days). vm_compute. reflexivity.
Defined.

(** ** The page parsers: normal termination *)

Lemma emit_ok (d : option string) (nums : list Z) (count : Z)
    (draws : list draw) :
  0 <= count -> exists out, emit d nums count draws = Ok out.
Proof.
  intros Hc. unfold emit. destruct (len nums >=? count); [|eauto].
  destruct (Z.gtb_spec (len nums) count) as [Hgt|Hle]; [|eauto].
  rewrite (getitem_in nums count 0) by lia. cbn [Py.bind]. eauto.
Qed.

Lemma wclc_loop_ok (max_n count : Z) (parts : list (list ascii)) :
  0 <= count ->
  forall draws, exists out, wclc_loop max_n count parts draws = Ok out.
Proof.
  intros Hc.
  assert (B : forall month rest draws,
             exists out, wclc_block max_n count month rest draws = Ok out).
  { intros month rest draws. unfold wclc_block.
    destruct (Re.search _ _); [|eauto]. now apply emit_ok. }
  assert (G : forall n ps, (List.length ps <= n)%nat ->
             forall draws, exists out,
               wclc_loop max_n count ps draws = Ok out).
  { induction n as [|n IH]; intros ps Hn draws.
    - destruct ps; [|simpl in Hn; lia]. simpl. eauto.
    - destruct ps as [|month [|rest more]]; cbn [wclc_loop].
      + eauto.
      + apply B.
      + destruct (B month rest draws) as [draws' ->]. cbn [Py.bind].
        apply IH. simpl in Hn. lia. }
  intros draws. apply (G (List.length parts) parts). lia.
Qed.

Lemma for_each_ok {A S} (body : A -> S -> res S) (l : list A) :
  (forall x s, exists s', body x s = Ok s') ->
  forall s, exists s', for_each body l s = Ok s'.
Proof.
  intros Hb. induction l as [|x t IH]; intros s; cbn [for_each].
  - eauto.
  - destruct (Hb x s) as [s1 ->]. cbn [Py.bind]. apply IH.
Qed.

Lemma parse_wclc_print_ok (s : soup) (max_n count : Z) :
  0 <= count -> exists recs, parse_wclc_print s max_n count = Ok recs.
Proof.
  intros Hc. unfold parse_wclc_print, Re.split.
  destruct (split_blocks (get_text s) None 0%nat []) as [piece [more [-> Hb]]].
  cbn [tl]. destruct (wclc_loop_ok max_n count more Hc []) as [draws E].
  rewrite E. cbn [Py.bind]. apply dedupe_by_date_ok. left.
  apply (wclc_loop_dates max_n count more Hb [] draws E). intros r [].
Qed.

Lemma parse_generic_tables_ok (s : soup) (max_n count : Z) :
  0 <= count -> exists recs, parse_generic_tables s max_n count = Ok recs.
Proof.
  intros Hc. unfold parse_generic_tables.
  assert (R : forall cells draws,
             exists out, generic_row max_n count cells draws = Ok out).
  { intros cells draws. unfold generic_row.
    destruct cells as [|c cs]; [eauto|].
    destruct (first_date (c :: cs)); [|eauto]. now apply emit_ok. }
  destruct (for_each_ok
              (fun table => for_each (generic_row max_n count) table)
              (tables s)
              (fun table d0 => for_each_ok _ table R d0) []) as [draws E].
  rewrite E. cbn [Py.bind]. apply dedupe_by_date_ok. right.
  set (P := Forall (fun d : draw => date d <> None)).
  assert (Rd : forall cells d0 d1,
             generic_row max_n count cells d0 = Ok d1 -> P d0 -> P d1).
  { intros cells d0 d1 Hg Hd. unfold generic_row in Hg.
    destruct cells as [|c cs]; [now injection Hg as <-|].
    destruct (first_date (c :: cs)) as [d|]; [|now injection Hg as <-].
    unfold P in *. rewrite Forall_forall in *. intros x Hx.
    destruct (emit_in _ _ _ _ _ x Hg Hx) as [Hin|[Hdate _]]; auto.
    rewrite Hdate. discriminate. }
  assert (F : P draws).
  { apply (for_each_invariant _ P _
             (fun table s0 s1 Ht => for_each_invariant _ P table Rd s0 s1 Ht)
             [] draws E).
    constructor. }
  unfold P in F. now rewrite Forall_forall in F.
Qed.

(** a page whose text holds no month name *)
Lemma split_without_match (s : list ascii) :
  forall prev cur,
    Re.search_from month_re prev s = None ->
    Re.split_from month_re prev s 0 cur = [rev cur ++ s].
Proof.
  induction s as [|c s IH]; intros prev cur H; cbn [Re.split_from].
  - now rewrite app_nil_r.
  - cbn [Re.search_from] in H.
    destruct (Re.match_at month_re prev (c :: s)); [discriminate|].
    rewrite IH by exact H. simpl. now rewrite <- app_assoc.
Qed.

(** ** The fallback fetcher: what it returns and what it requests *)

Section FetchMore.
Variable http_get : nat -> string -> option (Z * list ascii).
Variable make_soup : list ascii -> res soup.
Variable cfg : game_config.

(** [r] is a record one of the two parsers returned for some page, with
    the parameters of the game *)
Definition parsed_record (g : source_group) (r : draw) : Prop :=
  exists s parsed,
    (if String.eqb (parser g) "wclc"
     then parse_wclc_print s (max_n cfg) (count cfg)
     else parse_generic_tables s (max_n cfg) (count cfg)) = Ok parsed /\
    In r parsed.

Lemma fetch_url_parsed (g : source_group) (url : string)
    (st : list draw * list event) :
  Forall (parsed_record g) (fst st) ->
  Forall (parsed_record g) (fst (fetch_url http_get make_soup cfg g url st)).
Proof.
  destruct st as [all_draws log]. cbn [fst]. intros H. unfold fetch_url.
  destruct (http_get _ url) as [[status_code text]|]; [|exact H].
  destruct (negb (status_code =? 200)); [exact H|].
  destruct (make_soup text) as [s|]; cbn [Py.bind]; [|exact H].
  match goal with
  | |- context [match ?m with Ok _ => _ | Raise _ => _ end] =>
      destruct m as [parsed|] eqn:P
  end; cbn [fst]; [|exact H].
  apply Forall_app. split; [exact H|].
  apply Forall_forall. intros r Hr. now exists s, parsed.
Qed.

Lemma fetch_group_parsed (g : source_group) (log : list event)
    (recs : list draw) :
  fst (fetch_group http_get make_soup cfg g log) = Ok recs ->
  Forall (parsed_record g) recs.
Proof.
  unfold fetch_group.
  assert (U : forall l st, Forall (parsed_record g) (fst st) ->
                Forall (parsed_record g) (fst (fold_left
                  (fun st url => fetch_url http_get make_soup cfg g url st)
                  l st))).
  { induction l as [|u l IH]; intros st Hst; simpl; auto.
    apply IH. now apply fetch_url_parsed. }
  specialize (U (urls g) ([], log) (Forall_nil _)).
  destruct (fold_left _ (urls g) ([], log)) as [all_draws log'].
  cbn [fst] in *. intros H. apply Forall_forall. intros r Hr.
  rewrite Forall_forall in U. apply U.
  now apply (dedupe_by_date_incl _ _ H).
Qed.

Lemma try_groups_result (groups : list source_group) (log : list event)
    (recs : list draw) (lbl : string) :
  fst (try_groups http_get make_soup cfg groups log) = Ok (recs, lbl) ->
  (recs = [] /\ lbl = "none"%string) \/
  (recs <> [] /\
   exists g log', In g groups /\ lbl = label g /\
     fst (fetch_group http_get make_soup cfg g log') = Ok recs).
Proof.
  revert log. induction groups as [|g more IH]; intros log; cbn [try_groups].
  - cbn [fst]. intros H. injection H as <- <-. now left.
  - destruct (fetch_group http_get make_soup cfg g log) as [r log'] eqn:E.
    destruct r as [[|r0 all_draws]|e].
    + intros H. destruct (IH _ H) as [L|[N [g' [l' [I [L F]]]]]]; [now left|].
      right. split; [exact N|]. exists g', l'. split; [now right|now split].
    + cbn [fst]. intros H. injection H as <- <-. right.
      split; [discriminate|]. exists g, log. split; [now left|].
      split; [reflexivity|]. now rewrite E.
    + cbn [fst]. discriminate.
Qed.

Lemma try_groups_requested (groups : list source_group) (log : list event) :
  exists tried rest,
    groups = tried ++ rest /\
    requested (snd (try_groups http_get make_soup cfg groups log))
    = requested log ++ flat_map urls tried.
Proof.
  revert log. induction groups as [|g more IH]; intros log; cbn [try_groups].
  - exists [], []. split; [reflexivity|]. simpl. now rewrite app_nil_r.
  - assert (R := fetch_group_requested http_get make_soup cfg g log).
    destruct (fetch_group http_get make_soup cfg g log) as [r log'].
    cbn [snd] in R. destruct r as [[|r0 all_draws]|e].
    + destruct (IH log') as [tried [rest [-> E]]].
      exists (g :: tried), rest. split; [reflexivity|].
      rewrite E, R. simpl. now rewrite app_assoc.
    + exists [g], more. split; [reflexivity|]. cbn [snd]. rewrite R. simpl.
      now rewrite app_nil_r.
    + exists [g], more. split; [reflexivity|]. cbn [snd]. rewrite R. simpl.
      now rewrite app_nil_r.
Qed.

(** a group read with the print-layout parser ends with at most one
    record, and an undated one *)
Lemma wclc_group_single (g : source_group) (log : list event)
    (recs : list draw) :
  String.eqb (parser g) "wclc" = true ->
  fst (fetch_group http_get make_soup cfg g log) = Ok recs ->
  (List.length recs <= 1)%nat /\ forall r, In r recs -> date r = None.
Proof.
  intros Hp H.
  assert (P := fetch_group_parsed g log recs H).
  assert (D : forall r, In r recs -> date r = None).
  { intros r Hr. rewrite Forall_forall in P.
    destruct (P r Hr) as [s [parsed [E I]]]. rewrite Hp in E.
    apply (parse_wclc_print_never_dates _ _ _ _ r E I). }
  split; [|exact D].
  assert (N : NoDup (map date recs)).
  { unfold fetch_group in H. destruct (fold_left _ _ _) as [a l].
    cbn [fst] in H. now apply dedupe_by_date_NoDup in H. }
  destruct recs as [|r1 [|r2 t]]; simpl; try lia.
  exfalso. simpl in N. inversion N as [|? ? Hn _]; subst. apply Hn.
  left. rewrite (D r1), (D r2); simpl; auto.
Qed.
End FetchMore.

(** ** The statistics engine: rankings *)

(** larger value first, the smaller number first among equal values *)
Definition value_desc (x y : Z * Z) : Prop :=
  snd y <= snd x /\ (snd y < snd x \/ fst x < fst y).

(** smaller value first, the smaller number first among equal values *)
Definition value_asc (x y : Z * Z) : Prop :=
  snd x <= snd y /\ (snd x < snd y \/ fst x < fst y).

Lemma sorted_rev_listing (f : Z -> Z) (max_n : Z) :
  StronglySorted value_desc (sorted_rev snd Z.ltb (listing f max_n)).
Proof.
  apply (StronglySorted_impl (desc_before snd Z.ltb number_lt)).
  - intros x y _ _ [H1 H2]. apply Z.ltb_ge in H1. split; [exact H1|].
    destruct H2 as [H2|H2]; [left; now apply Z.ltb_lt|now right].
  - apply sorted_rev_sorted; [apply Zltb_asym|apply Zltb_negtrans|].
    apply listing_sorted.
Qed.

Lemma sorted_listing (f : Z -> Z) (max_n : Z) :
  StronglySorted value_asc (sorted snd Z.ltb (listing f max_n)).
Proof.
  apply (StronglySorted_impl (asc_before snd Z.ltb number_lt)).
  - intros x y _ _ [H1 H2]. apply Z.ltb_ge in H1. split; [exact H1|].
    destruct H2 as [H2|H2]; [left; now apply Z.ltb_lt|now right].
  - apply sorted_sorted; [apply Zltb_asym|apply Zltb_negtrans|].
    apply listing_sorted.
Qed.

(** X8.  The three rankings of a snapshot list every number of 1..max_n
    exactly once, each with its frequency (hot, cold) or its recency gap
    (overdue). *)
Theorem rankings_are_permutations
    (draws : list draw) (max_n count : Z) (lookback : option Z) (st : stats) :
  compute_stats draws max_n count lookback = Ok (Some st) ->
  Permutation (hot st) (listing (frequency st) max_n) /\
  Permutation (cold st) (listing (frequency st) max_n) /\
  Permutation (overdue st) (listing (gap st) max_n).
Proof.
  intros H. destruct (compute_stats_shape _ _ _ _ _ H) as [-> [-> ->]].
  repeat split; try apply sorted_rev_perm; apply sorted_perm.
Qed.

Lemma rankings_are_permutations_witness :
  Permutation (hot sample_stats) (listing (frequency sample_stats) 4) /\
  Permutation (cold sample_stats) (listing (frequency sample_stats) 4) /\
  Permutation (overdue sample_stats) (listing (gap sample_stats) 4).
Proof.
  apply (rankings_are_permutations sample_draws 4 2 None). reflexivity.
Defined.

(** X9.  The hot ranking is in decreasing order of frequency, the cold
    ranking in increasing order of frequency, the overdue ranking in
    decreasing order of recency gap; in all three, numbers with equal
    values are in increasing order. *)
Theorem rankings_are_ordered
    (draws : list draw) (max_n count : Z) (lookback : option Z) (st : stats) :
  compute_stats draws max_n count lookback = Ok (Some st) ->
  StronglySorted value_desc (hot st) /\
  StronglySorted value_asc (cold st) /\
  StronglySorted value_desc (overdue st).
Proof.
  intros H. destruct (compute_stats_shape _ _ _ _ _ H) as [-> [-> ->]].
  repeat split; try apply sorted_rev_listing; apply sorted_listing.
Qed.

Lemma rankings_are_ordered_witness :
  StronglySorted value_desc (hot sample_stats) /\
  StronglySorted value_asc (cold sample_stats) /\
  StronglySorted value_desc (overdue sample_stats).
Proof.
  apply (rankings_are_ordered sample_draws 4 2 None). reflexivity.
Defined.

(** ** The statistics engine: what is counted *)

(** A main number [m] is tallied for the number [n] when it is [n], or
    when it is the negative number that Python's indexing maps to the
    slot of [n] in an array of [max_n + 1] entries. *)
Definition counts_for (max_n n m : Z) : bool :=
  (m =? n) || (m =? n - (max_n + 1)).

Definition drawn (max_n n : Z) (d : draw) : bool :=
  existsb (counts_for max_n n) (main d).

Definition occurrences (max_n n : Z) (draws : list draw) : Z :=
  len (filter (counts_for max_n n) (flat_map main draws)).

(** [o] is the 1-based position of the last draw of [ds] in which the
    predicate [h] holds of a main number, [None] when there is none *)
Definition last_position (h : Z -> bool) (ds : list draw) (o : option Z)
  : Prop :=
  match o with
  | None => forall d, In d ds -> existsb h (main d) = false
  | Some p =>
      1 <= p <= len ds /\
      (exists d, nth_error ds (Z.to_nat (p - 1)) = Some d /\
                 existsb h (main d) = true) /\
      forall q d, p < q -> nth_error ds (Z.to_nat (q - 1)) = Some d ->
                  existsb h (main d) = false
  end.

Lemma norm_index_len {A} (l : list A) (i : Z) :
  norm_index l i = norm_index (repeat tt (List.length l)) i.
Proof. unfold norm_index, len. now rewrite repeat_length. Qed.

Lemma counts_for_slot (max_n n m : Z) (k : nat) :
  0 <= n <= max_n ->
  norm_index (repeat tt (Z.to_nat (max_n + 1))) m = Some k ->
  counts_for max_n n m = Nat.eqb k (Z.to_nat n).
Proof.
  intros Hn. unfold norm_index, len, counts_for. rewrite repeat_length.
  destruct (m <? 0) eqn:E1;
    destruct ((0 <=? _) && (_ <? _)) eqn:E2; try discriminate;
    intros H; injection H as <-;
    apply andb_prop in E2; destruct E2 as [E2 E3];
    apply Z.leb_le in E2; apply Z.ltb_lt in E3;
    [apply Z.ltb_lt in E1|apply Z.ltb_ge in E1];
    destruct (Nat.eqb_spec (Z.to_nat (if true then m + Z.of_nat (Z.to_nat (max_n + 1)) else m)) (Z.to_nat n)) as [K|K];
    destruct (Nat.eqb_spec (Z.to_nat m) (Z.to_nat n)) as [K'|K'];
    destruct (Z.eqb_spec m n); destruct (Z.eqb_spec m (n - (max_n + 1)));
    cbn [orb]; try reflexivity; try lia.
Qed.

Section Counting.
Variable L : nat.
Variable j : nat.
Variable h : Z -> bool.
Hypothesis j_in : (j < L)%nat.
Hypothesis h_slot : forall (m : Z) (k : nat),
  norm_index (repeat tt L) m = Some k -> h m = Nat.eqb k j.

Let sized (st : list Z * list (option Z)) : Prop :=
  List.length (fst st) = L /\ List.length (snd st) = L.

Lemma tally_slot (i m : Z) (st st' : list Z * list (option Z)) :
  tally i m st = Ok st' -> sized st ->
  sized st' /\
  nth j (fst st') 0 = nth j (fst st) 0 + (if h m then 1 else 0) /\
  nth j (snd st') None = if h m then Some i else nth j (snd st) None.
Proof.
  intros H [S1 S2]. unfold tally, getitem, setitem in H.
  rewrite (norm_index_len (fst st)), (norm_index_len (snd st)), S1, S2 in H.
  destruct (norm_index (repeat tt L) m) as [k|] eqn:E; [|discriminate].
  destruct (nth_error (fst st) k) as [a|] eqn:Ea; [|discriminate].
  cbn [Py.bind] in H. injection H as <-. cbn [fst snd].
  split; [split; cbn [fst snd]; now rewrite set_nth_length|].
  rewrite (h_slot m k E). destruct (Nat.eqb_spec k j) as [->|K].
  - rewrite !nth_set_nth_eq by lia.
    now rewrite (nth_error_nth _ _ 0 Ea).
  - rewrite !nth_set_nth_neq by assumption. split; [lia|reflexivity].
Qed.

Lemma tally_main_slot (i : Z) (ns : list Z)
    (st st' : list Z * list (option Z)) :
  for_each (tally i) ns st = Ok st' -> sized st ->
  sized st' /\
  nth j (fst st') 0 = nth j (fst st) 0 + len (filter h ns) /\
  nth j (snd st') None = if existsb h ns then Some i else nth j (snd st) None.
Proof.
  revert st. induction ns as [|m ns IH]; intros st H Hs;
    cbn [for_each] in H.
  - injection H as <-. split; [exact Hs|]. cbn. split; [lia|reflexivity].
  - destruct (tally i m st) as [st1|] eqn:E; [|discriminate].
    cbn [Py.bind] in H.
    destruct (tally_slot _ _ _ _ E Hs) as [Hs1 [F1 L1]].
    destruct (IH _ H Hs1) as [Hs2 [F2 L2]].
    split; [exact Hs2|]. rewrite F2, L2, F1, L1. cbn [filter existsb].
    destruct (h m); cbn [orb]; unfold len; cbn [List.length].
    + split; [lia|]. now destruct (existsb h ns).
    + split; [lia|reflexivity].
Qed.

Lemma last_position_snoc (done : list draw) (d : draw) (o : option Z) :
  last_position h done o ->
  last_position h (done ++ [d])
    (if existsb h (main d) then Some (len done + 1) else o).
Proof.
  intros Ho. assert (Ld : len (done ++ [d]) = len done + 1).
  { unfold len. rewrite length_app. cbn. lia. }
  assert (Nd : nth_error (done ++ [d]) (List.length done) = Some d).
  { rewrite nth_error_app2 by lia. now rewrite Nat.sub_diag. }
  destruct (existsb h (main d)) eqn:E.
  - cbn [last_position]. rewrite Ld. unfold len. split; [lia|]. split.
    + exists d. split; [|exact E].
      replace (Z.to_nat (Z.of_nat (List.length done) + 1 - 1))
        with (List.length done) by lia. exact Nd.
    + intros q d' Hq Hn.
      assert (Hb : (Z.to_nat (q - 1) < List.length (done ++ [d]))%nat)
        by (apply nth_error_Some; congruence).
      rewrite length_app in Hb. cbn in Hb. lia.
  - destruct o as [p|]; cbn [last_position] in *.
    + destruct Ho as [Hp [[d' [N' E']] Hno]]. unfold len in Hp.
      rewrite Ld. unfold len. split; [lia|]. split.
      * exists d'. split; [|exact E'].
        rewrite nth_error_app1; [exact N'|]. lia.
      * intros q d2 Hq Hn.
        destruct (Nat.lt_ge_cases (Z.to_nat (q - 1)) (List.length done))
          as [Hlt|Hge].
        -- rewrite nth_error_app1 in Hn by assumption.
           now apply (Hno q d2).
        -- assert (Hb : (Z.to_nat (q - 1) < List.length (done ++ [d]))%nat)
             by (apply nth_error_Some; congruence).
           rewrite length_app in Hb. cbn in Hb.
           replace (Z.to_nat (q - 1)) with (List.length done) in Hn by lia.
           rewrite Nd in Hn. now injection Hn as <-.
    + intros d' Hd'. apply in_app_or in Hd'.
      destruct Hd' as [Hd'|[<-|[]]]; [now apply Ho|exact E].
Qed.

Lemma tally_draws_slot (more done : list draw) (i : Z)
    (st : list Z * list (option Z)) (r : Z * (list Z * list (option Z))) :
  tally_draws more i st = Ok r -> i = len done -> sized st ->
  nth j (fst st) 0 = len (filter h (flat_map main done)) ->
  last_position h done (nth j (snd st) None) ->
  fst r = len (done ++ more) /\
  nth j (fst (snd r)) 0 = len (filter h (flat_map main (done ++ more))) /\
  last_position h (done ++ more) (nth j (snd (snd r)) None).
Proof.
  revert done i st. induction more as [|d more IH];
    intros done i st H Hi Hs HF HL; cbn [tally_draws] in H.
  - injection H as <-. rewrite app_nil_r. cbn [fst snd]. auto.
  - destruct (for_each (tally (i + 1)) (main d) st) as [st1|] eqn:E;
      [|discriminate].
    cbn [Py.bind] in H.
    destruct (tally_main_slot _ _ _ _ E Hs) as [Hs1 [F1 L1]].
    replace (done ++ d :: more) with ((done ++ [d]) ++ more)
      by (rewrite <- app_assoc; reflexivity).
    apply (IH (done ++ [d]) (i + 1) st1 H).
    + subst i. unfold len. rewrite length_app. cbn. lia.
    + exact Hs1.
    + rewrite F1, HF, flat_map_app, filter_app. cbn [flat_map].
      rewrite app_nil_r. unfold len. rewrite length_app. lia.
    + rewrite L1. subst i. now apply last_position_snoc.
Qed.
End Counting.

(** what a snapshot holds for a number of 0..max_n *)
Lemma compute_stats_counts (draws : list draw) (max_n count n : Z)
    (lookback : option Z) (st : stats) :
  compute_stats draws max_n count lookback = Ok (Some st) ->
  0 <= n <= max_n ->
  sample_size st = len (window draws lookback) /\
  frequency st n = occurrences max_n n (window draws lookback) /\
  last_position (counts_for max_n n) (window draws lookback)
    (item (last_seen st) n None).
Proof.
  unfold compute_stats. destruct draws as [|d0 ds]; [discriminate|].
  set (w := window (d0 :: ds) lookback).
  destruct (tally_draws w 0 _) as [[i [f l]]|e] eqn:E; [|discriminate].
  cbn [Py.bind]. intros H Hn. injection H as <-.
  cbn [sample_size]. unfold frequency, occurrences, item.
  cbn [freq last_seen].
  apply (tally_draws_slot (Z.to_nat (max_n + 1)) (Z.to_nat n)
           (counts_for max_n n)) with (done := []) in E.
  - exact E.
  - lia.
  - intros m k. now apply counts_for_slot.
  - reflexivity.
  - split; cbn [fst snd]; apply repeat_length.
  - cbn [fst]. now rewrite nth_repeat.
  - cbn [snd]. rewrite nth_repeat. intros d [].
Qed.

(** X10.  In a snapshot, the frequency of a number of 1..max_n is the
    number of times it occurs among the main numbers of the draws of the
    lookback window, where an occurrence of the negative number
    [n - (max_n + 1)], which indexes the same array slot, counts as one
    of [n]. *)
Theorem frequency_counts_occurrences
    (draws : list draw) (max_n count n : Z) (lookback : option Z)
    (st : stats) :
  compute_stats draws max_n count lookback = Ok (Some st) ->
  1 <= n <= max_n ->
  frequency st n = occurrences max_n n (window draws lookback).
Proof.
  intros H Hn.
  apply (compute_stats_counts draws max_n count n lookback st H). lia.
Qed.

Lemma frequency_counts_occurrences_witness :
  frequency sample_stats 4 = occurrences 4 4 (window sample_draws None).
Proof.
  apply (frequency_counts_occurrences sample_draws 4 2 4 None);
    [reflexivity|lia].
Defined.

Lemma In_skipn_nth_error {A} (k : nat) (l : list A) (x : A) :
  In x (skipn k l) -> exists q, (k <= q)%nat /\ nth_error l q = Some x.
Proof.
  revert l. induction k as [|k IH]; intros l H.
  - apply In_nth_error in H. destruct H as [q Hq]. exists q. split; [lia|].
    exact Hq.
  - destruct l as [|y l]; [destruct H|]. cbn [skipn] in H.
    destruct (IH l H) as [q [Hq Nq]]. exists (S q). split; [lia|exact Nq].
Qed.

(** X11.  The recency gap of a number of 1..max_n is between 1 and
    [sample_size + 1]; the last [gap - 1] draws of the window do not hold
    the number, and, unless the gap is [sample_size + 1], the draw just
    before them does. *)
Theorem gap_counts_draws_since_last_drawn
    (draws : list draw) (max_n count n : Z) (lookback : option Z)
    (st : stats) :
  compute_stats draws max_n count lookback = Ok (Some st) ->
  1 <= n <= max_n ->
  let w := window draws lookback in
  sample_size st = len w /\
  1 <= gap st n <= len w + 1 /\
  (forall d, In d (skipn (Z.to_nat (len w + 1 - gap st n)) w) ->
             drawn max_n n d = false) /\
  (gap st n <= len w ->
   exists d, nth_error w (Z.to_nat (len w - gap st n)) = Some d /\
             drawn max_n n d = true).
Proof.
  intros H Hn w.
  destruct (compute_stats_counts draws max_n count n lookback st H)
    as [Hs [_ Hl]]; [lia|].
  fold w in Hs, Hl. split; [exact Hs|]. unfold gap. rewrite Hs.
  destruct (item (last_seen st) n None) as [p|]; cbn [last_position] in Hl.
  - destruct Hl as [Hp [[d [Nd Ed]] Hno]]. split; [lia|]. split.
    + intros d' Hd'. apply In_skipn_nth_error in Hd'.
      destruct Hd' as [q [Hq Nq]].
      apply (Hno (Z.of_nat q + 1) d'); [lia|].
      now replace (Z.to_nat (Z.of_nat q + 1 - 1)) with q by lia.
    + intros _. exists d. split; [|exact Ed].
      now replace (len w - (len w + 1 - p)) with (p - 1) by lia.
  - split; [unfold len; lia|]. split.
    + intros d Hd. apply Hl.
      replace (Z.to_nat (len w + 1 - (len w + 1))) with O in Hd by lia.
      exact Hd.
    + lia.
Qed.

Lemma gap_counts_draws_witness :
  let w := window sample_draws None in
  sample_size sample_stats = len w /\
  1 <= gap sample_stats 2 <= len w + 1 /\
  (forall d, In d (skipn (Z.to_nat (len w + 1 - gap sample_stats 2)) w) ->
             drawn 4 2 d = false) /\
  (gap sample_stats 2 <= len w ->
   exists d, nth_error w (Z.to_nat (len w - gap sample_stats 2)) = Some d /\
             drawn 4 2 d = true).
Proof.
  apply (gap_counts_draws_since_last_drawn sample_draws 4 2 2 None);
    [reflexivity|lia].
Defined.

Lemma filter_nil_iff {A} (h : A -> bool) (l : list A) :
  filter h l = [] <-> forall x, In x l -> h x = false.
Proof.
  induction l as [|y l IH]; cbn [filter].
  - split; [intros _ x []|reflexivity].
  - destruct (h y) eqn:E.
    + split; [discriminate|]. intros K. specialize (K y (or_introl eq_refl)).
      congruence.
    + rewrite IH. split.
      * intros K x [<-|Hx]; auto.
      * intros K x Hx. apply K. now right.
Qed.

(** X12.  A number of 1..max_n has the largest possible recency gap,
    [sample_size + 1], exactly when its frequency is 0, that is when no
    draw of the window holds it. *)
Theorem never_drawn_has_largest_gap
    (draws : list draw) (max_n count n : Z) (lookback : option Z)
    (st : stats) :
  compute_stats draws max_n count lookback = Ok (Some st) ->
  1 <= n <= max_n ->
  (gap st n = sample_size st + 1 <-> frequency st n = 0) /\
  (frequency st n = 0 <->
   forall d, In d (window draws lookback) -> drawn max_n n d = false).
Proof.
  intros H Hn.
  destruct (compute_stats_counts draws max_n count n lookback st H)
    as [Hs [Hf Hl]]; [lia|].
  set (w := window draws lookback) in *.
  assert (Z0 : frequency st n = 0 <->
               forall d, In d w -> drawn max_n n d = false).
  { rewrite Hf. unfold occurrences, len.
    split.
    - intros K d Hd. unfold drawn.
      assert (K' : filter (counts_for max_n n) (flat_map main w) = []).
      { destruct (filter _ _); [reflexivity|cbn in K; lia]. }
      destruct (existsb _ (main d)) eqn:E; [|reflexivity].
      apply existsb_exists in E. destruct E as [m [Hm Em]].
      rewrite (proj1 (filter_nil_iff _ _) K' m) in Em; [discriminate|].
      apply in_flat_map. now exists d.
    - intros K.
      assert (K' : filter (counts_for max_n n) (flat_map main w) = []).
      { apply filter_nil_iff. intros m Hm. apply in_flat_map in Hm.
        destruct Hm as [d [Hd Hm]]. specialize (K d Hd). unfold drawn in K.
        destruct (counts_for max_n n m) eqn:E; [|reflexivity].
        assert (X : existsb (counts_for max_n n) (main d) = true)
          by (apply existsb_exists; now exists m).
        congruence. }
      now rewrite K'. }
  split; [|exact Z0]. rewrite Z0. unfold gap.
  destruct (item (last_seen st) n None) as [p|]; cbn [last_position] in Hl.
  - destruct Hl as [Hp [[d [Nd Ed]] _]]. split; [lia|].
    intros K. apply nth_error_In in Nd. specialize (K d Nd).
    unfold drawn in K. congruence.
  - split; [intros _; exact Hl|reflexivity].
Qed.

Lemma never_drawn_witness :
  (gap sample_stats 3 = sample_size sample_stats + 1 <->
   frequency sample_stats 3 = 0) /\
  (frequency sample_stats 3 = 0 <->
   forall d, In d (window sample_draws None) -> drawn 4 3 d = false).
Proof.
  apply (never_drawn_has_largest_gap sample_draws 4 2 3 None);
    [reflexivity|lia].
Defined.

(** ** The statistics engine: when it fails *)

Definition within (L m : Z) : bool := (- L <=? m) && (m <? L).

Lemma norm_index_within {A} (l : list A) (m : Z) :
  (within (len l) m = true ->
   exists k, norm_index l m = Some k /\ (k < List.length l)%nat) /\
  (within (len l) m = false -> norm_index l m = None).
Proof.
  unfold within, norm_index. split; intros H.
  - apply andb_prop in H. destruct H as [H1 H2].
    apply Z.leb_le in H1. apply Z.ltb_lt in H2.
    destruct (m <? 0) eqn:E;
      [apply Z.ltb_lt in E|apply Z.ltb_ge in E].
    + replace ((0 <=? m + len l) && (m + len l <? len l)) with true
        by (symmetry; apply andb_true_intro; split;
            [apply Z.leb_le|apply Z.ltb_lt]; lia).
      eexists; split; [reflexivity|]. unfold len in *. lia.
    + replace ((0 <=? m) && (m <? len l)) with true
        by (symmetry; apply andb_true_intro; split;
            [apply Z.leb_le|apply Z.ltb_lt]; lia).
      eexists; split; [reflexivity|]. unfold len in *. lia.
  - destruct (m <? 0) eqn:E;
      [apply Z.ltb_lt in E|apply Z.ltb_ge in E];
      destruct ((0 <=? _) && (_ <? _)) eqn:E2; try reflexivity;
      apply andb_prop in E2; destruct E2 as [E2 E3];
      apply Z.leb_le in E2; apply Z.ltb_lt in E3;
      apply andb_false_iff in H;
      destruct H as [H|H]; [apply Z.leb_gt in H|apply Z.ltb_ge in H
                           |apply Z.leb_gt in H|apply Z.ltb_ge in H]; lia.
Qed.

Section Bounds.
Variable L : nat.

Let sized (st : list Z * list (option Z)) : Prop :=
  List.length (fst st) = L /\ List.length (snd st) = L.

Lemma tally_within (i m : Z) (st : list Z * list (option Z)) :
  sized st ->
  if within (Z.of_nat L) m
  then exists st', tally i m st = Ok st' /\ sized st'
  else tally i m st = Raise IndexError.
Proof.
  intros [S1 S2]. unfold tally, getitem, setitem.
  destruct (norm_index_within (fst st) m) as [A1 A2].
  destruct (norm_index_within (snd st) m) as [B1 B2].
  unfold len in *. rewrite S1 in A1, A2. rewrite S2 in B1, B2.
  destruct (within (Z.of_nat L) m).
  - destruct (A1 eq_refl) as [k [-> Hk]].
    destruct (B1 eq_refl) as [k' [-> Hk']].
    destruct (nth_error (fst st) k) as [a|] eqn:E.
    + cbn [Py.bind]. eexists; split; [reflexivity|].
      split; cbn [fst snd]; now rewrite set_nth_length.
    + apply nth_error_None in E. lia.
  - now rewrite (A2 eq_refl).
Qed.

Lemma tally_main_within (i : Z) (ns : list Z)
    (st : list Z * list (option Z)) :
  sized st ->
  if forallb (within (Z.of_nat L)) ns
  then exists st', for_each (tally i) ns st = Ok st' /\ sized st'
  else for_each (tally i) ns st = Raise IndexError.
Proof.
  revert st. induction ns as [|m ns IH]; intros st Hs;
    cbn [forallb for_each].
  - now exists st.
  - pose proof (tally_within i m st Hs) as T.
    destruct (within (Z.of_nat L) m); cbn [andb].
    + destruct T as [st1 [-> Hs1]]. cbn [Py.bind]. now apply IH.
    + now rewrite T.
Qed.

Lemma tally_draws_within (ds : list draw) (i : Z)
    (st : list Z * list (option Z)) :
  sized st ->
  if forallb (fun d => forallb (within (Z.of_nat L)) (main d)) ds
  then exists r, tally_draws ds i st = Ok r
  else tally_draws ds i st = Raise IndexError.
Proof.
  revert i st. induction ds as [|d ds IH]; intros i st Hs;
    cbn [forallb tally_draws].
  - now eexists.
  - pose proof (tally_main_within (i + 1) (main d) st Hs) as T.
    destruct (forallb (within (Z.of_nat L)) (main d)); cbn [andb].
    + destruct T as [st1 [-> Hs1]]. cbn [Py.bind]. now apply IH.
    + now rewrite T.
Qed.
End Bounds.

(** X13.  For a non-empty draw list, [compute_stats] returns a snapshot
    when every main number of the lookback window is a valid index of an
    array of [max_n + 1] entries (from [-(max_n + 1)] to [max_n]), and
    ends with [IndexError] when one of them is not; the bonus numbers
    play no part. *)
Theorem compute_stats_index_error
    (draws : list draw) (max_n count : Z) (lookback : option Z) :
  draws <> [] ->
  let L := Z.max 0 (max_n + 1) in
  ((forall d m, In d (window draws lookback) -> In m (main d) ->
                - L <= m < L) ->
   exists st, compute_stats draws max_n count lookback = Ok (Some st)) /\
  ((exists d m, In d (window draws lookback) /\ In m (main d) /\
                ~ (- L <= m < L)) ->
   compute_stats draws max_n count lookback = Raise IndexError).
Proof.
  intros Hne L. unfold compute_stats.
  destruct draws as [|d0 ds]; [congruence|].
  set (w := window (d0 :: ds) lookback).
  pose proof (tally_draws_within (Z.to_nat (max_n + 1)) w 0
                (repeat 0 (Z.to_nat (max_n + 1)),
                 repeat None (Z.to_nat (max_n + 1)))) as T.
  replace (Z.of_nat (Z.to_nat (max_n + 1))) with L in T by (unfold L; lia).
  specialize (T (conj (repeat_length _ _) (repeat_length _ _))).
  assert (W : forall m, within L m = true <-> - L <= m < L).
  { intros m. unfold within. rewrite andb_true_iff, Z.leb_le, Z.ltb_lt.
    tauto. }
  destruct (forallb (fun d => forallb (within L) (main d)) w) eqn:E.
  - split.
    + intros _. destruct T as [[i [f l]] ->]. cbn [Py.bind].
      eexists; reflexivity.
    + intros [d [m [Hd [Hm Hb]]]]. exfalso. apply Hb, W.
      rewrite forallb_forall in E. specialize (E d Hd).
      rewrite forallb_forall in E. now apply E.
  - split.
    + intros K. exfalso.
      assert (X : forallb (fun d => forallb (within L) (main d)) w = true).
      { apply forallb_forall. intros d Hd. apply forallb_forall.
        intros m Hm. apply W. now apply (K d m). }
      congruence.
    + intros _. now rewrite T.
Qed.

Lemma compute_stats_index_error_witness :
  let draws := [Draw None [3; 9] (Some 50)] in
  draws <> [] /\
  compute_stats draws 4 2 None = Raise IndexError.
Proof.
  split; [discriminate|].
  apply (compute_stats_index_error [Draw None [3; 9] (Some 50)] 4 2 None);
    [discriminate|].
  exists (Draw None [3; 9] (Some 50)), 9.
  split; [now left|]. split; [cbn; auto|]. cbn. lia.
Defined.

(** the draws left by the lookback slice *)
Lemma window_spec (draws : list draw) (lookback : option Z) :
  let n := List.length draws in
  window draws lookback =
    match lookback with
    | None => draws
    | Some lb =>
        if lb =? 0 then draws
        else if 0 <? lb then skipn (n - Z.to_nat lb) draws
        else skipn (Z.to_nat (- lb)) draws
    end /\
  len (window draws lookback) =
    match lookback with
    | None => len draws
    | Some lb =>
        if lb =? 0 then len draws
        else if 0 <? lb then Z.min lb (len draws)
        else Z.max 0 (len draws + lb)
    end.
Proof.
  intros n. unfold window. destruct lookback as [lb|]; [|now split].
  destruct (Z.eqb_spec lb 0) as [->|Hz]; [now split|].
  unfold slice_from, clamp, len. fold n.
  destruct (Z.ltb_spec 0 lb) as [Hp|Hp].
  - replace (- lb <? 0) with true by (symmetry; apply Z.ltb_lt; lia).
    replace (Z.to_nat (Z.max 0 (- lb + Z.of_nat n)))
      with (n - Z.to_nat lb)%nat by lia.
    split; [reflexivity|]. rewrite length_skipn. fold n. lia.
  - replace (- lb <? 0) with false by (symmetry; apply Z.ltb_ge; lia).
    destruct (Z.le_gt_cases (- lb) (Z.of_nat n)) as [Hl|Hl].
    + rewrite Z.min_l by lia. split; [reflexivity|].
      rewrite length_skipn. fold n. lia.
    + rewrite Z.min_r by lia. rewrite Nat2Z.id. split.
      * unfold n. rewrite skipn_all. symmetry. apply skipn_all2. lia.
      * rewrite length_skipn. fold n. lia.
Qed.

(** X14.  A lookback of 0 is no lookback.  With a positive lookback the
    snapshot is the one of the last [lookback] draws alone, or of all
    draws when there are fewer.  With a negative lookback the snapshot
    is taken after dropping that many draws from the front, and when
    this leaves no draw the result is not the empty snapshot of an empty
    draw list but a snapshot of sample size 0. *)
Theorem lookback_takes_last_draws
    (draws : list draw) (max_n count lb : Z) :
  compute_stats draws max_n count (Some 0)
  = compute_stats draws max_n count None /\
  (0 < lb ->
   let recent := skipn (List.length draws - Z.to_nat lb) draws in
   len recent = Z.min lb (len draws) /\
   compute_stats draws max_n count (Some lb)
   = compute_stats recent max_n count None) /\
  (lb < 0 -> draws <> [] -> len draws <= - lb ->
   exists st, compute_stats draws max_n count (Some lb) = Ok (Some st) /\
              sample_size st = 0).
Proof.
  split; [reflexivity|]. split.
  - intros Hp recent.
    generalize (window_spec draws (Some lb)). cbv zeta.
    destruct (Z.eqb_spec lb 0) as [->|_]; [lia|].
    destruct (Z.ltb_spec 0 lb) as [_|]; [|lia].
    intros [W L].
    fold recent in W. split; [now rewrite <- W|].
    unfold compute_stats. destruct draws as [|d0 ds]; [reflexivity|].
    rewrite W. destruct recent as [|r0 rs] eqn:R; [|reflexivity].
    exfalso. unfold len in L. rewrite W in L. cbn [List.length] in L.
    clear - L Hp. lia.
  - intros Hn Hne Hl.
    generalize (window_spec draws (Some lb)). cbv zeta.
    destruct (Z.eqb_spec lb 0) as [->|_]; [lia|].
    destruct (Z.ltb_spec 0 lb) as [|_]; [lia|].
    intros [W L].
    assert (E : window draws (Some lb) = []).
    { destruct (window draws (Some lb)); [reflexivity|].
      unfold len in *. cbn [List.length] in L. lia. }
    unfold compute_stats. destruct draws as [|d0 ds]; [congruence|].
    rewrite E. cbn [tally_draws Py.bind]. eexists. split; reflexivity.
Qed.

Lemma lookback_takes_last_draws_witness :
  let recent := skipn (List.length sample_draws - Z.to_nat 2) sample_draws in
  len recent = Z.min 2 (len sample_draws) /\
  compute_stats sample_draws 4 2 (Some 2) = compute_stats recent 4 2 None.
Proof.
  apply (proj1 (proj2 (lookback_takes_last_draws sample_draws 4 2 2))). lia.
Defined.

(** a negative lookback that leaves no draw *)
Example lookback_leaves_nothing :
  option_map sample_size
    (match compute_stats sample_draws 4 2 (Some (-3)) with
     | Ok st => st
     | Raise _ => None
     end) = Some 0.
Proof. reflexivity. Qed.

(** ** The weighting model: bounds *)

Lemma score_of_le_one (total rank : Z) :
  0 < total -> 1 <= rank -> (score_of total rank <= 1)%Q.
Proof.
  intros Ht Hr. unfold score_of. apply Qle_shift_div_r.
  - change 0%Q with (inject_Z 0). rewrite <- Zlt_Qlt. lia.
  - rewrite Qmult_1_l. rewrite <- Zle_Qle. lia.
Qed.

Lemma rank_score_covered_bounds (r : list (Z * Z)) (n : Z) :
  NoDup (map fst r) -> In n (map fst r) ->
  exists q, rank_score (rank_dict r 0 []) n = Ok q /\ (0 < q)%Q /\ (q <= 1)%Q.
Proof.
  intros Hnd Hin. destruct (in_keys_split r n Hin) as [l1 [v [l2 [-> Hl1]]]].
  rewrite rank_score_at by exact Hnd. eexists; split; [reflexivity|].
  assert (L : 1 <= len l1 + 1 <= len (l1 ++ (n, v) :: l2)).
  { unfold len. rewrite length_app. simpl. lia. }
  split; [apply score_of_pos; exact L|apply score_of_le_one; lia].
Qed.

Lemma flavor_bonus_bounds (flavor : string) (hr orank : Q) :
  (0 < hr)%Q -> (hr <= 1)%Q -> (0 < orank)%Q -> (orank <= 1)%Q ->
  (0 < flavor_bonus flavor hr orank)%Q /\
  (flavor_bonus flavor hr orank <= 5 # 2)%Q.
Proof.
  intros H1 H2 H3 H4. unfold flavor_bonus.
  destruct (String.eqb flavor "hot"); [split; lra|].
  destruct (String.eqb flavor "overdue"); split; lra.
Qed.

(** X15.  From a snapshot [compute_stats] returned, [smart_weight] never
    fails, whatever the flavor; its list has one entry per array slot,
    and every number of 1..max_n weighs more than 1 and at most 7/2. *)
Theorem smart_weight_bounds
    (draws : list draw) (max_n count : Z) (lookback : option Z)
    (flavor : string) (st : stats) :
  compute_stats draws max_n count lookback = Ok (Some st) ->
  exists base,
    smart_weight (Some st) max_n flavor = Ok base /\
    len base = Z.max 0 (max_n + 1) /\
    forall n, 1 <= n <= max_n ->
      (1 < weight base n)%Q /\ (weight base n <= 7 # 2)%Q.
Proof.
  intros H. assert (Hcov := computed_snapshot_covers _ _ _ _ _ H).
  destruct (smart_weight_covered st max_n flavor Hcov) as [base [E [L W]]].
  exists base. split; [exact E|]. split; [lia|].
  intros n Hn. destruct (W n Hn) as [hr [orank [E1 [E2 [_ [_ Hw]]]]]].
  destruct Hcov as [Hh [Ho Hc]]. destruct (Hc n Hn) as [I1 I2].
  destruct (rank_score_covered_bounds _ n Hh I1) as [q1 [F1 [P1 Q1]]].
  destruct (rank_score_covered_bounds _ n Ho I2) as [q2 [F2 [P2 Q2]]].
  assert (q1 = hr) by congruence. assert (q2 = orank) by congruence.
  subst q1 q2. unfold weight. rewrite Hw.
  destruct (flavor_bonus_bounds flavor hr orank P1 Q1 P2 Q2) as [B1 B2].
  split; lra.
Qed.

Lemma smart_weight_bounds_witness :
  exists base,
    smart_weight (Some sample_stats) 4 "hot" = Ok base /\
    len base = Z.max 0 (4 + 1) /\
    forall n, 1 <= n <= 4 ->
      (1 < weight base n)%Q /\ (weight base n <= 7 # 2)%Q.
Proof.
  apply (smart_weight_bounds sample_draws 4 2 None). reflexivity.
Defined.

(** ** The biased line sampler: more numbers than the pool holds *)

Lemma final_zero (s : Q) (w : list Q) :
  Forall (fun x => x == 0)%Q w -> (final s w == s)%Q.
Proof.
  intros H. revert s. induction H as [|y t Hy Ht IH]; intros s.
  - reflexivity.
  - cbn [final fold_left]. fold (final (s + y)%Q t). rewrite IH. lra.
Qed.

Section SamplerExhausted.
Variables max_n count : Z.
Variable random : nat -> Q.
Hypothesis random_ok : valid_random random.
Hypothesis pool : 1 <= max_n.
Hypothesis too_many : max_n < count.

(** once every number is picked, the total of the weights is zero and
    [random.choices] refuses it *)
Lemma pick_step_exhausted (base : list Q) (picks : list Z) (k : nat) :
  picking max_n (base, picks, k) k -> Z.of_nat k = max_n ->
  pick_step max_n random (base, picks, k) = Raise ValueError.
Proof.
  intros [_ [Hk [Hb [Hnd [Hr Hw]]]]] Hfull.
  assert (Hall : forall n, 1 <= n <= max_n -> In n picks).
  { intros n Hn.
    apply (NoDup_length_incl Hnd (l' := range 1 (max_n + 1))).
    - rewrite range_length. lia.
    - intros p Hp. apply In_range. specialize (Hr p Hp). lia.
    - apply In_range. lia. }
  destruct base as [|b0 w]; [unfold len in Hb; simpl in Hb; lia|].
  assert (Lw : Z.of_nat (List.length w) = max_n).
  { unfold len in Hb. cbn [List.length] in Hb. lia. }
  assert (Hz : Forall (fun x => x == 0)%Q w).
  { apply Forall_forall. intros x Hx.
    destruct (In_nth w x 0%Q Hx) as [j [Hj <-]].
    destruct (Hw (Z.of_nat j + 1)) as [H1 _]; [lia|].
    assert (Hin : In (Z.of_nat j + 1) picks) by (apply Hall; lia).
    specialize (H1 Hin). unfold item in H1.
    replace (Z.to_nat (Z.of_nat j + 1)) with (S j) in H1 by lia.
    exact H1. }
  destruct w as [|y t]; [cbn [List.length] in Lw; lia|].
  unfold pick_step, choices.
  assert (S1 : slice_from (b0 :: y :: t) 1 = y :: t).
  { unfold slice_from, clamp. change (1 <? 0) with false. cbv iota.
    replace (Z.to_nat (Z.min 1 (len (b0 :: y :: t)))) with 1%nat;
      [reflexivity|]. unfold len. cbn [List.length]. lia. }
  rewrite S1.
  assert (LA : len (accumulate (y :: t)) = len (range 1 (max_n + 1))).
  { unfold len. rewrite range_length. cbn [accumulate List.length].
    rewrite running_length. cbn [List.length] in Lw. lia. }
  rewrite LA, Z.eqb_refl. cbn [negb].
  cbn [accumulate]. rewrite (getitem_last (running y t) y y).
  cbn [Py.bind].
  assert (LT : last (y :: running y t) y = final y t).
  { destruct t as [|z t']; [reflexivity|].
    change (last (y :: running y (z :: t')) y)
      with (last (running y (z :: t')) y).
    apply running_last. discriminate. }
  rewrite LT.
  assert (T0 : (final y t <= 0)%Q).
  { inversion Hz as [|? ? Hy Ht]; subst. rewrite (final_zero y t Ht). lra. }
  apply Qle_bool_iff in T0. now rewrite T0.
Qed.

Lemma pick_loop_exhausts (m : nat) (st : pick_state) (k fuel : nat) :
  picking max_n st k -> Z.of_nat (k + m) = max_n ->
  pick_loop fuel max_n count random st
  = if (m <? fuel)%nat then Raise ValueError else Ok None.
Proof.
  revert st k fuel. induction m as [|m IH]; intros st k fuel H Hk.
  - destruct fuel as [|fuel]; cbn [pick_loop];
      rewrite (picking_guard max_n count st k H);
      (destruct (Z.ltb_spec (Z.of_nat k) count); [|lia]).
    + reflexivity.
    + destruct st as [[base picks] k'].
      assert (E : k' = k) by apply H. subst k'.
      rewrite (pick_step_exhausted base picks k H) by lia. reflexivity.
  - destruct fuel as [|fuel]; cbn [pick_loop];
      rewrite (picking_guard max_n count st k H);
      (destruct (Z.ltb_spec (Z.of_nat k) count); [|lia]).
    + reflexivity.
    + destruct (picking_step max_n random random_ok st k H)
        as [i [st1 [E P]]]; [lia|].
      rewrite E. cbn [Py.bind snd].
      rewrite (IH st1 (S k) fuel P) by lia. reflexivity.
Qed.
End SamplerExhausted.

(** X16.  Asked for more numbers than 1..max_n holds, [smart_pick] never
    returns a line: it picks all [max_n] numbers, one per iteration, and
    the next iteration ends with [ValueError], every weight being zero
    by then.  With fuel for at most [max_n] iterations the loop is still
    running. *)
Theorem smart_pick_fails_beyond_pool
    (st : stats) (max_n count : Z) (flavor : string) (random : nat -> Q)
    (fuel : nat) :
  snapshot_covers st max_n -> 1 <= max_n -> max_n < count ->
  valid_random random ->
  smart_pick fuel random (Some st) max_n count flavor
  = if (Z.to_nat max_n <? fuel)%nat then Raise ValueError else Ok None.
Proof.
  intros Hcov Hp Hc Hr.
  destruct (smart_weight_covered st max_n flavor Hcov) as [base [E [L W]]].
  assert (Hb : len base = max_n + 1) by lia.
  assert (Hw : forall n, 1 <= n <= max_n -> (0 < item base n 0)%Q).
  { intros n Hn. destruct (W n Hn) as [hr [orank [_ [_ [P1 [P2 ->]]]]]].
    assert (P := flavor_bonus_pos flavor hr orank P1 P2). lra. }
  assert (P0 := picking_start max_n base Hb Hw).
  unfold smart_pick. rewrite E. cbn [Py.bind].
  rewrite (pick_loop_exhausts max_n count random Hr Hp Hc
             (Z.to_nat max_n) _ O fuel P0) by lia.
  now destruct (Z.to_nat max_n <? fuel)%nat.
Qed.

Lemma smart_pick_fails_witness :
  smart_pick 9 coin (Some sample_stats) 4 5 "balanced"
  = if (Z.to_nat 4 <? 9)%nat then Raise ValueError else Ok None.
Proof.
  apply smart_pick_fails_beyond_pool.
  - exact sample_stats_covers.
  - lia.
  - lia.
  - exact coin_valid.
Defined.

(** ** The top-probability selector: the line *)

Lemma slice_to_firstn {A} (l : list A) (k : Z) :
  0 <= k -> slice_to l k = firstn (Z.to_nat k) l.
Proof.
  intros Hk. unfold slice_to, clamp.
  destruct (Z.ltb_spec k 0); [lia|].
  destruct (Z.le_gt_cases k (len l)) as [Hle|Hgt].
  - now rewrite Z.min_l by lia.
  - rewrite Z.min_r by lia. unfold len in *. rewrite Nat2Z.id.
    rewrite firstn_all. symmetry. apply firstn_all2. lia.
Qed.





(** ** The page parsers: what they return *)

(** X18.  Whatever the page, [parse_wclc_print] returns at most one record,
    and that record has no date; when the count is not negative its main
    numbers are exactly [count] numbers of 1..max_n. *)
Theorem parse_wclc_print_one_undated_record
    (s : soup) (max_n count : Z) (recs : list draw) :
  parse_wclc_print s max_n count = Ok recs ->
  (List.length recs <= 1)%nat /\
  forall r, In r recs ->
    date r = None /\ (0 <= count -> main_shaped max_n count r).
Proof.
  intros H. split; [now apply (parse_wclc_print_at_most_one s max_n count)|].
  intros r Hr. split.
  - now apply (parse_wclc_print_never_dates s max_n count recs).
  - intros Hc. now apply (parse_wclc_print_main_shape s max_n count recs).
Qed.

Lemma parse_wclc_print_one_undated_witness :
  let recs := [Draw None [8; 3; 14; 21; 30; 41] (Some 44)] in
  (List.length recs <= 1)%nat /\
  forall r, In r recs ->
    date r = None /\ (0 <= 6 -> main_shaped 49 6 r).
Proof.
  apply (parse_wclc_print_one_undated_record (Soup announcement_text []) 49 6).
  vm_compute. reflexivity.
Defined.

(** X19.  With a count that is not negative, the records
    [parse_generic_tables] returns are in strictly increasing order of
    their dates, so no two share a date; each has a date and exactly
    [count] main numbers, distinct and in 1..max_n. *)
Theorem parse_generic_tables_records
    (s : soup) (max_n count : Z) (recs : list draw) :
  0 <= count ->
  parse_generic_tables s max_n count = Ok recs ->
  StronglySorted dated_before recs /\
  forall r, In r recs ->
    date r <> None /\ len (main r) = count /\ NoDup (main r) /\
    forall n, In n (main r) -> 1 <= n <= max_n.
Proof.
  intros Hc H. split.
  - unfold parse_generic_tables in H.
    destruct (for_each _ (tables s) []) as [draws|]; [|discriminate].
    cbn [Py.bind] in H. now apply (dedupe_sorted draws).
  - intros r Hr.
    destruct (parse_generic_tables_shape s max_n count recs r Hc H Hr)
      as [[Hl Hn] [Hd Ht]].
    auto.
Qed.

Lemma parse_generic_tables_records_witness :
  let recs :=
    [Draw (Some "2025-01-08"%string) [8; 3; 14; 21; 30; 41] (Some 44)] in
  StronglySorted dated_before recs /\
  forall r, In r recs ->
    date r <> None /\ len (main r) = 6 /\ NoDup (main r) /\
    forall n, In n (main r) -> 1 <= n <= 49.
Proof.
  apply (parse_generic_tables_records
           (Soup [] [[[str "Wednesday January 8, 2025";
                       str "03 14 21 30 41 44"; str "17"]]]) 49 6).
  - lia.
  - vm_compute. reflexivity.
Defined.

(** X20.  With a count that is not negative neither parser ends with an
    exception, whatever the page. *)
Theorem parsers_return_for_valid_count (s : soup) (max_n count : Z) :
  0 <= count ->
  (exists recs, parse_wclc_print s max_n count = Ok recs) /\
  (exists recs, parse_generic_tables s max_n count = Ok recs).
Proof.
  intros Hc. split;
    [now apply parse_wclc_print_ok|now apply parse_generic_tables_ok].
Qed.

Lemma parsers_return_witness :
  (exists recs, parse_wclc_print (Soup scenario_text []) 49 6 = Ok recs) /\
  (exists recs, parse_generic_tables (Soup scenario_text []) 49 6 = Ok recs).
Proof. apply parsers_return_for_valid_count. lia. Defined.

(** X21.  A page in whose text [re.search] finds no month name gives
    [parse_wclc_print] nothing to read: it returns no record. *)
Theorem parse_wclc_print_needs_month_name (s : soup) (max_n count : Z) :
  Re.search month_re (get_text s) = None ->
  parse_wclc_print s max_n count = Ok [].
Proof.
  intros H. unfold parse_wclc_print, Re.split.
  rewrite (split_without_match (get_text s) None [] H). reflexivity.
Qed.

Lemma parse_wclc_print_needs_month_witness :
  parse_wclc_print (Soup (str "Results of draw 14: 03 14 21 30 41 44") [])
    49 6 = Ok [].
Proof.
  apply parse_wclc_print_needs_month_name. vm_compute. reflexivity.
Defined.

(** ** The fallback fetcher: the records it returns *)

Lemma GAMES_configured (game : string) (cfg : game_config) :
  dict_get String.eqb GAMES game = Ok cfg ->
  1 <= count cfg <= max_n cfg /\
  forall g, In g (sources cfg) ->
    label g <> "none"%string /\
    (label g = "WCLC"%string -> String.eqb (parser g) "wclc" = true).
Proof.
  unfold GAMES. cbn [dict_get].
  destruct (String.eqb game "Lotto 6/49");
    [|destruct (String.eqb game "Lotto Max"); [|discriminate]];
    intros H; injection H as <-; cbn [count max_n sources];
    (split; [lia|]);
    intros g [<-|[<-|[<-|[]]]]; cbn [label parser];
    (split; [discriminate|]); try reflexivity; discriminate.
Qed.

Lemma fetch_group_dates
    (http_get : nat -> string -> option (Z * list ascii))
    (make_soup : list ascii -> res soup) (cfg : game_config)
    (g : source_group) (log : list event) (recs : list draw) :
  fst (fetch_group http_get make_soup cfg g log) = Ok recs ->
  NoDup (map date recs).
Proof.
  unfold fetch_group. destruct (fold_left _ _ _) as [a l].
  cbn [fst]. apply dedupe_by_date_NoDup.
Qed.

Lemma parsed_record_shape (cfg : game_config) (g : source_group) (r : draw) :
  0 <= count cfg -> parsed_record cfg g r ->
  main_shaped (max_n cfg) (count cfg) r.
Proof.
  intros Hc [s [parsed [E I]]].
  destruct (String.eqb (parser g) "wclc").
  - now apply (parse_wclc_print_main_shape s _ _ parsed).
  - now apply (parse_generic_tables_shape s _ _ parsed r Hc E I).
Qed.

Lemma fetch_with_result
    (available : bool) (http_get : nat -> string -> option (Z * list ascii))
    (make_soup : list ascii -> res soup) (cfg : game_config)
    (recs : list draw) (lbl : string) :
  fst (fetch_with available http_get make_soup cfg) = Ok (recs, lbl) ->
  (recs = [] /\ (lbl = "none" \/ lbl = "offline")%string) \/
  (recs <> [] /\
   exists g log, In g (sources cfg) /\ lbl = label g /\
     fst (fetch_group http_get make_soup cfg g log) = Ok recs).
Proof.
  unfold fetch_with. destruct available; cbn [negb].
  - intros H. apply try_groups_result in H.
    destruct H as [[-> ->]|H]; [left; auto|now right].
  - cbn [fst]. intros H. injection H as <- <-. left. auto.
Qed.

(** X22.  Whatever the web answers, every record the fetcher returns for
    a game whose count is not negative has exactly [count] main numbers,
    each in 1..max_n, and no two records share a date.  With no record
    the label is "none" or "offline"; with records it is the label of a
    configured group. *)
Theorem fetched_records_are_lines
    (available : bool) (http_get : nat -> string -> option (Z * list ascii))
    (make_soup : list ascii -> res soup) (cfg : game_config)
    (recs : list draw) (lbl : string) :
  0 <= count cfg ->
  fst (fetch_with available http_get make_soup cfg) = Ok (recs, lbl) ->
  Forall (main_shaped (max_n cfg) (count cfg)) recs /\
  NoDup (map date recs) /\
  ((recs = [] /\ (lbl = "none" \/ lbl = "offline")%string) \/
   (recs <> [] /\ exists g, In g (sources cfg) /\ lbl = label g)).
Proof.
  intros Hc H. apply fetch_with_result in H.
  destruct H as [[-> L]|[Hne [g [log [Hg [L F]]]]]].
  - split; [constructor|]. split; [constructor|]. now left.
  - split.
    + apply Forall_forall. intros r Hr.
      apply (parsed_record_shape cfg g r Hc).
      assert (P := fetch_group_parsed http_get make_soup cfg g log recs F).
      rewrite Forall_forall in P. now apply P.
    + split; [now apply fetch_group_dates in F|].
      right. split; [exact Hne|]. now exists g.
Qed.

Lemma fetched_records_witness :
  let recs := [Draw (Some "2025-01-04"%string) [4] None] in
  Forall (main_shaped (max_n demo_config) (count demo_config)) recs /\
  NoDup (map date recs) /\
  ((recs = [] /\ (label demo_three = "none" \/
                  label demo_three = "offline")%string) \/
   (recs <> [] /\
    exists g, In g (sources demo_config) /\ label demo_three = label g)).
Proof.
  apply (fetched_records_are_lines true demo_web demo_soup demo_config).
  - cbn. lia.
  - vm_compute. reflexivity.
Defined.

(** X23.  For the configured games, whenever the fetcher answers with the
    label "WCLC" it returns exactly one record, and that record has no
    date: the print-layout source never yields a history of draws. *)
Theorem wclc_source_gives_one_undated_record
    (available : bool) (http_get : nat -> string -> option (Z * list ascii))
    (make_soup : list ascii -> res soup) (game : string)
    (recs : list draw) :
  fst (fetch_archives_with_fallback available http_get make_soup game)
  = Ok (recs, "WCLC"%string) ->
  exists r, recs = [r] /\ date r = None.
Proof.
  unfold fetch_archives_with_fallback.
  destruct (dict_get String.eqb GAMES game) as [cfg|e] eqn:G;
    [|cbn [fst]; discriminate].
  intros H. apply fetch_with_result in H.
  destruct H as [[_ [L|L]]|[Hne [g [log [Hg [L F]]]]]]; try discriminate.
  destruct (GAMES_configured game cfg G) as [_ S].
  destruct (S g Hg) as [_ P]. specialize (P (eq_sym L)).
  destruct (wclc_group_single http_get make_soup cfg g log recs P F)
    as [L1 D].
  destruct recs as [|r [|r2 t]]; [congruence| |simpl in L1; lia].
  exists r. split; [reflexivity|]. apply D. now left.
Qed.

(** every page is the announcement of one draw *)
Definition announcement_web (k : nat) (url : string)
  : option (Z * list ascii) := Some (200, announcement_text).

Definition text_soup (text : list ascii) : res soup := Ok (Soup text []).

Lemma wclc_source_witness :
  exists r, [Draw None [8; 3; 14; 21; 30; 41] (Some 44)] = [r] /\
            date r = None.
Proof.
  apply (wclc_source_gives_one_undated_record true announcement_web
           text_soup "Lotto 6/49").
  vm_compute. reflexivity.
Defined.

(** X24.  The fetcher requests nothing but the URLs of the configured
    groups, in the configured order and once each, and stops between two
    groups: what it requested is the URL lists of a front part of
    [cfg["sources"]], and nothing at all when the libraries are
    missing. *)
Theorem fetch_requests_follow_configuration
    (available : bool) (http_get : nat -> string -> option (Z * list ascii))
    (make_soup : list ascii -> res soup) (cfg : game_config) :
  exists tried rest,
    sources cfg = tried ++ rest /\
    requested (snd (fetch_with available http_get make_soup cfg))
    = flat_map urls tried /\
    (available = false -> tried = []).
Proof.
  unfold fetch_with. destruct available; cbn [negb].
  - destruct (try_groups_requested http_get make_soup cfg (sources cfg) [])
      as [tried [rest [E R]]].
    exists tried, rest. split; [exact E|]. split; [exact R|discriminate].
  - exists [], (sources cfg). repeat split.
Qed.

(** ** Double precision: order and sign *)

(** the doubles that are neither negative nor NaN *)
Definition nonneg (x : Double.double) : bool :=
  match x with
  | S754_zero false | S754_infinity false | S754_finite false _ _ => true
  | _ => false
  end.

(** where a non-negative double stands: zero, then the finite numbers by
    exponent and mantissa, then infinity *)
Definition place (x : Double.double) : Z * Z * Z :=
  match x with
  | S754_finite _ m e => (1, e, Zpos m)
  | S754_infinity _ => (2, 0, 0)
  | _ => (0, 0, 0)
  end.

Definition lt3 (a b : Z * Z * Z) : Prop :=
  let '(c1, e1, m1) := a in
  let '(c2, e2, m2) := b in
  c1 < c2 \/ (c1 = c2 /\ (e1 < e2 \/ (e1 = e2 /\ m1 < m2))).

Lemma ltb_place (x y : Double.double) :
  nonneg x = true -> nonneg y = true ->
  (Double.ltb x y = true <-> lt3 (place x) (place y)).
Proof.
  unfold Double.ltb, SFltb.
  destruct x as [[|]|[|]| |[|] m1 e1]; try discriminate;
    destruct y as [[|]|[|]| |[|] m2 e2]; try discriminate; intros _ _;
    cbn [SFcompare place lt3]; try (split; [discriminate|lia]);
    try (split; [lia|reflexivity]).
  change (Pos.compare_cont Eq m1 m2) with (Pos.compare m1 m2).
  destruct (Z.compare_spec e1 e2) as [E|E|E].
  - destruct (Pos.compare_spec m1 m2) as [M|M|M]; split; try discriminate;
      try reflexivity; lia.
  - split; [lia|reflexivity].
  - split; [discriminate|lia].
Qed.

Lemma ltb_asym_nonneg (x y : Double.double) :
  nonneg x = true -> nonneg y = true ->
  Double.ltb x y = true -> Double.ltb y x = false.
Proof.
  intros Hx Hy H. apply (ltb_place x y Hx Hy) in H.
  destruct (Double.ltb y x) eqn:E; [|reflexivity].
  apply (ltb_place y x Hy Hx) in E. exfalso.
  destruct (place x) as [[c1 e1] m1], (place y) as [[c2 e2] m2].
  cbn [lt3] in *. lia.
Qed.

Lemma ltb_negtrans_nonneg (x y z : Double.double) :
  nonneg x = true -> nonneg y = true -> nonneg z = true ->
  Double.ltb x y = false -> Double.ltb y z = false -> Double.ltb x z = false.
Proof.
  intros Hx Hy Hz H1 H2.
  destruct (Double.ltb x z) eqn:E; [|reflexivity].
  apply (ltb_place x z Hx Hz) in E. exfalso.
  assert (N1 : ~ lt3 (place x) (place y))
    by (intros C; apply (ltb_place x y Hx Hy) in C; congruence).
  assert (N2 : ~ lt3 (place y) (place z))
    by (intros C; apply (ltb_place y z Hy Hz) in C; congruence).
  destruct (place x) as [[c1 e1] m1], (place y) as [[c2 e2] m2],
    (place z) as [[c3 e3] m3].
  cbn [lt3] in *. lia.
Qed.

(** ** Double precision: rounding keeps the sign *)

Lemma iter_pos_invariant {A} (f : A -> A) (P : A -> Prop) :
  (forall x, P x -> P (f x)) ->
  forall p x, P x -> P (iter_pos f p x).
Proof.
  intros Hf. induction p as [p IH|p IH|]; intros x Hx; cbn [iter_pos]; auto.
Qed.

Lemma shr_1_bounds (M : Z) (r : shr_record) :
  0 <= shr_m r <= M -> 0 <= shr_m (shr_1 r) <= M.
Proof.
  destruct r as [m r s]. cbn [shr_m]. unfold shr_1.
  destruct m as [|[p|p|]|[p|p|]]; cbn [shr_m]; lia.
Qed.

Lemma shr_m_of_loc (m : Z) (l : location) :
  shr_m (shr_record_of_loc m l) = m.
Proof. destruct l as [|[| |]]; reflexivity. Qed.

(** the first step of rounding: the mantissa does not grow and the
    exponent is the larger of the given one and the one of the format *)
Lemma shr_fexp_bounds (m e : Z) (l : location) :
  0 <= m ->
  0 <= shr_m (fst (shr_fexp Double.prec Double.emax m e l)) <= m /\
  snd (shr_fexp Double.prec Double.emax m e l)
  = Z.max e (fexp Double.prec Double.emax (Zdigits2 m + e)).
Proof.
  intros Hm. unfold shr_fexp, shr.
  set (n := fexp Double.prec Double.emax (Zdigits2 m + e) - e).
  assert (En : fexp Double.prec Double.emax (Zdigits2 m + e) = e + n)
    by (unfold n; lia).
  rewrite En. destruct n as [|p|p]; cbn [fst snd].
  - rewrite shr_m_of_loc. lia.
  - split; [|lia].
    apply (iter_pos_invariant shr_1 (fun r => 0 <= shr_m r <= m)).
    + apply shr_1_bounds.
    + rewrite shr_m_of_loc. lia.
  - rewrite shr_m_of_loc. lia.
Qed.

Lemma round_nearest_even_bounds (m : Z) (l : location) :
  0 <= m -> m <= round_nearest_even m l <= m + 1.
Proof.
  intros Hm. unfold round_nearest_even.
  destruct l as [|[| |]]; try lia. destruct (Z.even m); lia.
Qed.

Lemma fexp_eq (x : Z) :
  fexp Double.prec Double.emax x = Z.max (x - 53) (-1074).
Proof. reflexivity. Qed.

(** the result of rounding a non-negative mantissa *)
Lemma binary_round_aux_cases (mx ex : Z) (lx : location) :
  0 <= mx ->
  exists m1 e1,
    0 <= m1 <= mx /\
    e1 = Z.max ex (fexp Double.prec Double.emax (Zdigits2 mx + ex)) /\
    let mr := round_nearest_even m1
                (loc_of_shr_record
                   (fst (shr_fexp Double.prec Double.emax mx ex lx))) in
    let e2 := Z.max e1 (fexp Double.prec Double.emax (Zdigits2 mr + e1)) in
    m1 <= mr <= m1 + 1 /\
    (binary_round_aux Double.prec Double.emax false mx ex lx = S754_zero false \/
     exists m, binary_round_aux Double.prec Double.emax false mx ex lx
               = if e2 <=? Double.emax - Double.prec
                 then S754_finite false m e2 else S754_infinity false).
Proof.
  intros Hm. unfold binary_round_aux.
  destruct (shr_fexp_bounds mx ex lx Hm) as [B1 E1].
  destruct (shr_fexp Double.prec Double.emax mx ex lx) as [mrs1 e1].
  cbn [fst snd] in *.
  exists (shr_m mrs1), e1. split; [exact B1|]. split; [exact E1|].
  cbv zeta.
  set (mr := round_nearest_even (shr_m mrs1) (loc_of_shr_record mrs1)).
  assert (Br : shr_m mrs1 <= mr <= shr_m mrs1 + 1)
    by (apply round_nearest_even_bounds; lia).
  split; [exact Br|].
  assert (Hr : 0 <= mr) by lia.
  destruct (shr_fexp_bounds mr e1 loc_Exact Hr) as [B2 E2].
  destruct (shr_fexp Double.prec Double.emax mr e1 loc_Exact) as [mrs2 e2].
  cbn [fst snd] in *. rewrite <- E2.
  destruct (shr_m mrs2) as [|m|m]; [now left| |lia].
  right. now exists m.
Qed.

Lemma binary_round_aux_nonneg (mx ex : Z) (lx : location) :
  0 <= mx ->
  nonneg (binary_round_aux Double.prec Double.emax false mx ex lx) = true.
Proof.
  intros Hm.
  destruct (binary_round_aux_cases mx ex lx Hm) as [m1 [e1 [_ [_ H]]]].
  cbv zeta in H. destruct H as [_ [->|[m ->]]]; [reflexivity|].
  now destruct (_ <=? _).
Qed.

Lemma add_nonneg (x y : Double.double) :
  nonneg x = true -> nonneg y = true -> nonneg (Double.add x y) = true.
Proof.
  unfold Double.add.
  destruct x as [[|]|[|]| |[|] m1 e1]; try discriminate;
    destruct y as [[|]|[|]| |[|] m2 e2]; try discriminate; intros _ _;
    try reflexivity.
  unfold SFadd. cbn [cond_Zopp]. cbv zeta.
  set (ez := Z.min e1 e2).
  destruct (shl_align m1 e1 ez) as [a ea], (shl_align m2 e2 ez) as [b eb].
  cbn [fst]. cbn [Z.add binary_normalize]. unfold binary_round.
  destruct (shl_align _ _ _) as [mz ez'].
  apply binary_round_aux_nonneg. lia.
Qed.

(** a product by one of the literals *)
Lemma mul_nonneg (s : bool) (m : positive) (e : Z) (y : Double.double) :
  s = false -> nonneg y = true ->
  nonneg (Double.mul (S754_finite s m e) y) = true.
Proof.
  intros -> Hy. unfold Double.mul.
  destruct y as [[|]|[|]| |[|] m2 e2]; try discriminate; try reflexivity.
  unfold SFmul. cbn [xorb]. apply binary_round_aux_nonneg. lia.
Qed.

Lemma flavor_bonus_nonneg (flavor : string) (hr orank : Double.double) :
  nonneg hr = true -> nonneg orank = true ->
  nonneg (Double.flavor_bonus flavor hr orank) = true.
Proof.
  intros H1 H2. unfold Double.flavor_bonus.
  destruct (String.eqb flavor "hot");
    [|destruct (String.eqb flavor "overdue")];
    apply add_nonneg; now apply mul_nonneg.
Qed.

(** ** Double precision: the quotient of two integers *)

Lemma Zdigits2_le_pow (x k : Z) :
  0 <= k -> 0 <= x <= 2 ^ k -> Zdigits2 x <= k + 1.
Proof.
  intros Hk [H0 Hx]. destruct x as [|p|p]; [cbn; lia| |lia].
  clear H0. cbn [Zdigits2]. revert k Hk Hx.
  induction p as [p IH|p IH|]; intros k Hk Hx; cbn [digits2_pos].
  - assert (K : 1 <= k).
    { destruct (Z.eq_dec k 0) as [->|]; [cbn in Hx; lia|lia]. }
    replace k with (Z.succ (k - 1)) in Hx by lia.
    rewrite Z.pow_succ_r in Hx by lia.
    specialize (IH (k - 1)). rewrite Pos2Z.inj_succ. lia.
  - assert (K : 1 <= k).
    { destruct (Z.eq_dec k 0) as [->|]; [cbn in Hx; lia|lia]. }
    replace k with (Z.succ (k - 1)) in Hx by lia.
    rewrite Z.pow_succ_r in Hx by lia.
    specialize (IH (k - 1)). rewrite Pos2Z.inj_succ. lia.
  - lia.
Qed.

(** the integer quotient handed to the rounding, for a dividend that is
    at most the divisor *)
Lemma div_core_bounds (a b : positive) :
  (a <= b)%positive ->
  exists q l s,
    SFdiv_core_binary Double.prec Double.emax (Zpos a) 0 (Zpos b) 0
    = (q, - s, l) /\ 0 <= s <= 1074 /\ 0 <= q <= 2 ^ s.
Proof.
  intros Hab. unfold SFdiv_core_binary.
  set (d := Zdigits2 (Zpos a) + 0 - (Zdigits2 (Zpos b) + 0)).
  rewrite fexp_eq.
  set (e' := Z.min (Z.max (d - 53) (-1074)) (0 - 0)).
  assert (He : -1074 <= e' <= 0) by (unfold e'; lia).
  set (s := 0 - 0 - e'). assert (Hs : s = - e') by (unfold s; lia).
  set (m' := match s with
             | 0 => Zpos a
             | Zpos _ => Z.shiftl (Zpos a) s
             | Zneg _ => 0
             end).
  assert (Hm : m' = Zpos a * 2 ^ s).
  { unfold m'. destruct s as [|p|p] eqn:E.
    - cbn. lia.
    - rewrite Z.shiftl_mul_pow2 by lia. reflexivity.
    - lia. }
  destruct (Z.div_eucl m' (Zpos b)) as [q r] eqn:E.
  assert (Hq : q = m' / Zpos b) by (unfold Z.div; now rewrite E).
  exists q, (new_location (Zpos b) r), s. split.
  - f_equal. f_equal. lia.
  - split; [lia|]. rewrite Hq, Hm. split.
    + apply Z.div_pos; [|lia]. apply Z.mul_nonneg_nonneg; [lia|].
      apply Z.pow_nonneg. lia.
    + apply Z.div_le_upper_bound; [lia|].
      apply Z.mul_le_mono_nonneg_r; [apply Z.pow_nonneg; lia|lia].
Qed.

(** [a / b] for [1 <= a <= b]: a double, zero or finite, not negative *)
Lemma truediv_ok (a b : Z) :
  1 <= a <= b ->
  exists q, Double.truediv a b = Ok q /\ nonneg q = true.
Proof.
  intros H. destruct a as [|pa|pa]; try lia. destruct b as [|pb|pb]; try lia.
  unfold Double.truediv. cbn [Z.ltb Z.compare Z.abs Z.to_pos].
  unfold SFdiv.
  destruct (div_core_bounds pa pb) as [q [l [s [E [Hs Hq]]]]]; [lia|].
  rewrite E. cbn [xorb].
  destruct (binary_round_aux_cases q (- s) l) as [m1 [e1 [B1 [E1 R]]]];
    [lia|].
  cbv zeta in R. destruct R as [Br R].
  set (mr := round_nearest_even m1 _) in *.
  assert (D1 : Zdigits2 q <= s + 1) by (apply Zdigits2_le_pow; lia).
  assert (Dr : Zdigits2 mr <= s + 2).
  { replace (s + 2) with ((s + 1) + 1) by lia. apply Zdigits2_le_pow; [lia|].
    replace (s + 1) with (Z.succ s) by lia. rewrite Z.pow_succ_r by lia.
    assert (P : 1 <= 2 ^ s) by (apply (Z.pow_le_mono_r 2 0 s); lia).
    lia. }
  rewrite !fexp_eq in *.
  assert (E2 : Z.max e1 (Z.max (Zdigits2 mr + e1 - 53) (-1074)) <= 971)
    by lia.
  destruct R as [->|[m ->]]; [now eexists|].
  change (Double.emax - Double.prec) with 971.
  destruct (Z.leb_spec (Z.max e1 (Z.max (Zdigits2 mr + e1 - 53) (-1074))) 971);
    [|lia].
  now eexists.
Qed.

(** ** The weights in double precision *)

Lemma double_rank_score_covered (r : list (Z * Z)) (n : Z) :
  NoDup (map fst r) -> In n (map fst r) ->
  exists q, Double.rank_score (rank_dict r 0 []) n = Ok q /\ nonneg q = true.
Proof.
  intros Hnd Hin. destruct (in_keys_split r n Hin) as [l1 [v [l2 [-> Hl1]]]].
  unfold Double.rank_score.
  rewrite rank_dict_nodup by exact Hnd. cbn [app].
  rewrite ranks_from_get by exact Hl1. cbn [Py.bind].
  rewrite ranks_from_length. apply truediv_ok.
  unfold len. rewrite length_app. cbn [List.length]. lia.
Qed.

Section UpdateLoop.
Context {T : Type}.
Variables rs1 rs2 : Z -> res T.
Variable fb : T -> T -> T.
Variable plus : T -> T -> T.
Variable d : T.

Let body (n : Z) (base : list T) : res (list T) :=
  hr <- rs1 n ;;
  orank <- rs2 n ;;
  b <- getitem base n ;;
  setitem base n (plus b (fb hr orank)).

Lemma update_loop (l : list Z) (base : list T) :
  NoDup l ->
  (forall n, In n l -> 0 <= n < len base) ->
  (forall n, In n l -> exists hr orank, rs1 n = Ok hr /\ rs2 n = Ok orank) ->
  exists base',
    for_each body l base = Ok base' /\ len base' = len base /\
    (forall n, 0 <= n -> ~ In n l -> item base' n d = item base n d) /\
    (forall n, In n l ->
       exists hr orank, rs1 n = Ok hr /\ rs2 n = Ok orank /\
         item base' n d = plus (item base n d) (fb hr orank)).
Proof.
  intros Hnd. revert base.
  induction Hnd as [|x l Hx Hnd IH]; intros base Hr Hs.
  - exists base. simpl. repeat split; auto. intros n [].
  - destruct (Hs x (or_introl eq_refl)) as [hr [orank [E1 E2]]].
    assert (Hxr : 0 <= x < len base) by (apply Hr; now left).
    cbn [for_each]. unfold body at 1. rewrite E1, E2. cbn [Py.bind].
    rewrite (getitem_in base x d Hxr). cbn [Py.bind].
    rewrite setitem_in by exact Hxr. cbn [Py.bind].
    set (base1 := set_nth base (Z.to_nat x) (plus (item base x d) (fb hr orank))).
    assert (L1 : len base1 = len base) by apply len_set_nth.
    destruct (IH base1) as [base' [E [L [Hout Hin]]]].
    { intros n Hn. rewrite L1. apply Hr. now right. }
    { intros n Hn. apply Hs. now right. }
    exists base'. split; [exact E|]. split; [congruence|]. split.
    + intros n Hn0 Hn. rewrite Hout by (simpl in Hn; tauto).
      apply item_set_nth_neq; try lia. simpl in Hn. intros C. apply Hn.
      now left.
    + intros n [<-|Hn].
      * exists hr, orank. repeat split; auto.
        rewrite Hout by (try lia; assumption).
        apply item_set_nth_eq. exact Hxr.
      * destruct (Hin n Hn) as [hr' [or' [F1 [F2 F3]]]].
        exists hr', or'. repeat split; auto. rewrite F3. f_equal.
        apply item_set_nth_neq; try lia.
        -- destruct (Hr n (or_intror Hn)). lia.
        -- intros ->. contradiction.
Qed.
End UpdateLoop.

(** the weight the code gives [n] *)
Definition double_weight (base : list Double.double) (n : Z) : Double.double :=
  item base n Double.zero.

(** For a snapshot covering 1..max_n the weights are computed without an
    exception, and none of them is negative or NaN. *)
Lemma double_smart_weight_covered (st : stats) (max_n : Z) (flavor : string) :
  snapshot_covers st max_n ->
  exists base,
    Double.smart_weight (Some st) max_n flavor = Ok base /\
    len base = Z.of_nat (Z.to_nat (max_n + 1)) /\
    forall n, nonneg (double_weight base n) = true.
Proof.
  intros [Hh [Ho Hc]]. unfold Double.smart_weight.
  set (base0 := repeat Double.one (Z.to_nat (max_n + 1))).
  assert (L0 : len base0 = Z.of_nat (Z.to_nat (max_n + 1))).
  { unfold len, base0. now rewrite repeat_length. }
  destruct (update_loop (Double.rank_score (rank_dict (hot st) 0 []))
              (Double.rank_score (rank_dict (overdue st) 0 []))
              (Double.flavor_bonus flavor) Double.add Double.zero
              (range 1 (max_n + 1)) base0)
    as [base [E [L [Hout Hin]]]].
  - apply NoDup_range.
  - intros n Hn. apply In_range in Hn. lia.
  - intros n Hn. apply In_range in Hn.
    destruct (Hc n) as [H1 H2]; [lia|].
    destruct (double_rank_score_covered _ n Hh H1) as [q1 [E1 _]].
    destruct (double_rank_score_covered _ n Ho H2) as [q2 [E2 _]].
    now exists q1, q2.
  - exists base. split; [exact E|]. split; [congruence|].
    assert (B0 : forall n, nonneg (item base0 n Double.zero) = true).
    { intros n. unfold item, base0.
      destruct (Nat.lt_ge_cases (Z.to_nat n) (Z.to_nat (max_n + 1))) as [Hl|Hg].
      - now rewrite nth_repeat_lt.
      - rewrite nth_overflow; [reflexivity|]. now rewrite repeat_length. }
    intros n. unfold double_weight.
    destruct (Z.le_gt_cases 0 n) as [Hn0|Hneg].
    + destruct (in_dec Z.eq_dec n (range 1 (max_n + 1))) as [Hi|Hni].
      * destruct (Hin n Hi) as [hr [orank [E1 [E2 ->]]]].
        apply In_range in Hi. destruct (Hc n) as [I1 I2]; [lia|].
        destruct (double_rank_score_covered _ n Hh I1) as [q1 [F1 P1]].
        destruct (double_rank_score_covered _ n Ho I2) as [q2 [F2 P2]].
        assert (q1 = hr) by congruence. assert (q2 = orank) by congruence.
        subst q1 q2. apply add_nonneg; [apply B0|].
        now apply flavor_bonus_nonneg.
      * rewrite Hout by assumption. apply B0.
    + replace (item base n Double.zero) with (item base 0 Double.zero)
        by (unfold item; now replace (Z.to_nat n) with (Z.to_nat 0) by lia).
      rewrite Hout; [apply B0|lia|].
      intros C. apply In_range in C. lia.
Qed.

(** ** The selector in double precision *)

(** [a] is ranked before [b]: [b] does not weigh more, and it weighs
    less or [a] is the smaller number *)
Definition double_ranks_before (base : list Double.double) (a b : Z) : Prop :=
  Double.ltb (double_weight base a) (double_weight base b) = false /\
  (Double.ltb (double_weight base b) (double_weight base a) = true \/ a < b).

(** the comparison of doubles, made total by reading a negative number
    or a NaN as zero *)
Definition ltb0 (x y : Double.double) : bool :=
  Double.ltb (if nonneg x then x else Double.zero)
             (if nonneg y then y else Double.zero).

Lemma ltb0_asym (x y : Double.double) : ltb0 x y = true -> ltb0 y x = false.
Proof.
  unfold ltb0. apply ltb_asym_nonneg.
  - now destruct (nonneg x) eqn:E.
  - now destruct (nonneg y) eqn:E.
Qed.

Lemma ltb0_negtrans (x y z : Double.double) :
  ltb0 x y = false -> ltb0 y z = false -> ltb0 x z = false.
Proof.
  unfold ltb0. apply ltb_negtrans_nonneg.
  - now destruct (nonneg x) eqn:E.
  - now destruct (nonneg y) eqn:E.
  - now destruct (nonneg z) eqn:E.
Qed.

Lemma ltb0_nonneg (x y : Double.double) :
  nonneg x = true -> nonneg y = true -> ltb0 x y = Double.ltb x y.
Proof. intros Hx Hy. unfold ltb0. now rewrite Hx, Hy. Qed.

Lemma insert_desc_ext {A K} (key1 key2 : A -> K) (ltb1 ltb2 : K -> K -> bool)
    (x : A) (l : list A) :
  (forall y, In y l ->
     ltb1 (key1 x) (key1 y) = ltb2 (key2 x) (key2 y)) ->
  insert_desc key1 ltb1 x l = insert_desc key2 ltb2 x l.
Proof.
  induction l as [|y t IH]; intros H; cbn [insert_desc]; [reflexivity|].
  rewrite (H y (or_introl eq_refl)). rewrite IH; [reflexivity|].
  intros z Hz. apply H. now right.
Qed.

(** the result of the sort depends only on the comparisons between the
    keys of the elements sorted *)
Lemma sorted_rev_ext {A K} (key1 key2 : A -> K) (ltb1 ltb2 : K -> K -> bool)
    (l : list A) :
  (forall x y, In x l -> In y l ->
     ltb1 (key1 x) (key1 y) = ltb2 (key2 x) (key2 y)) ->
  sorted_rev key1 ltb1 l = sorted_rev key2 ltb2 l.
Proof.
  induction l as [|x t IH]; intros H; [reflexivity|].
  cbn [sorted_rev fold_right].
  change (fold_right (insert_desc key1 ltb1) [] t)
    with (sorted_rev key1 ltb1 t).
  change (fold_right (insert_desc key2 ltb2) [] t)
    with (sorted_rev key2 ltb2 t).
  rewrite IH by (intros a b Ha Hb; apply H; now right).
  apply insert_desc_ext. intros y Hy.
  apply (Permutation_in _ (sorted_rev_perm key2 ltb2 t)) in Hy.
  apply H; [now left|now right].
Qed.

Lemma double_ranking_perm (base : list Double.double) (max_n : Z) :
  Permutation (Double.ranking_of base max_n) (range 1 (max_n + 1)).
Proof. apply sorted_rev_perm. Qed.

Lemma double_ranking_sorted (base : list Double.double) (max_n : Z) :
  (forall n, nonneg (double_weight base n) = true) ->
  StronglySorted (double_ranks_before base) (Double.ranking_of base max_n).
Proof.
  intros Hb. unfold Double.ranking_of.
  rewrite (sorted_rev_ext _ (fun n => item base n Double.zero) _ ltb0).
  - apply (StronglySorted_impl
             (desc_before (fun n => item base n Double.zero) ltb0 Z.lt)).
    + intros a b _ _ [H1 H2]. unfold double_ranks_before, double_weight.
      rewrite <- !ltb0_nonneg by apply Hb. now split.
    + apply sorted_rev_sorted;
        [apply ltb0_asym|apply ltb0_negtrans|apply range_sorted].
  - intros x y _ _. symmetry. apply ltb0_nonneg; apply Hb.
Qed.

Lemma double_ranks_before_asym (base : list Double.double) (a b : Z) :
  double_ranks_before base a b -> double_ranks_before base b a -> False.
Proof.
  intros [H1 [H2|H2]] [H3 [H4|H4]]; try congruence. lia.
Qed.

(** the line cut from a ranking of 1..max_n *)
Lemma line_shape (ranking : list Z) (max_n count : Z) :
  Permutation ranking (range 1 (max_n + 1)) -> 0 <= count <= max_n ->
  let line := sorted (fun n => n) Z.ltb (slice_to ranking count) in
  len line = count /\ StronglySorted Z.lt line /\
  forall n, In n line -> 1 <= n <= max_n.
Proof.
  intros Pr Hc line. unfold line. rewrite slice_to_firstn by lia.
  set (c := Z.to_nat count).
  assert (Nr : NoDup ranking)
    by (apply (Permutation_NoDup (Permutation_sym Pr)), NoDup_range).
  assert (Ps : Permutation (sorted (fun n => n) Z.ltb (firstn c ranking))
                 (firstn c ranking)) by apply sorted_perm.
  assert (Nf : NoDup (firstn c ranking)).
  { rewrite <- (firstn_skipn c ranking) in Nr.
    now apply NoDup_app_remove_r in Nr. }
  split.
  { unfold len. rewrite (Permutation_length Ps), length_firstn.
    rewrite (Permutation_length Pr), range_length. unfold c. lia. }
  split; [now apply sorted_set_increasing|].
  intros n Hn. apply (Permutation_in _ Ps) in Hn.
  assert (Hr : In n ranking)
    by (rewrite <- (firstn_skipn c ranking); apply in_or_app; now left).
  apply (Permutation_in _ Pr) in Hr. apply In_range in Hr. lia.
Qed.

(** C10.  For a snapshot covering 1..max_n, every flavor and every count,
    [top_probability_line], with the weights computed in double precision
    as the code computes them, returns the sorted first [count] entries
    of a ranking of 1..max_n in which no number comes before a heavier
    one and, of two numbers of equal weight, the smaller comes first.
    That ranking is the only one with this order, so the line depends on
    the weights alone: weight vectors that agree on 1..max_n give the
    same line. *)
Theorem top_probability_line_breaks_ties_by_number
    (st : stats) (max_n count : Z) (flavor : string) :
  snapshot_covers st max_n ->
  exists base,
    Double.smart_weight (Some st) max_n flavor = Ok base /\
    Double.top_probability_line (Some st) max_n count flavor
    = Ok (sorted (fun n => n) Z.ltb
            (slice_to (Double.ranking_of base max_n) count)) /\
    Permutation (Double.ranking_of base max_n) (range 1 (max_n + 1)) /\
    StronglySorted (double_ranks_before base) (Double.ranking_of base max_n) /\
    (forall r, Permutation r (range 1 (max_n + 1)) ->
               StronglySorted (double_ranks_before base) r ->
               r = Double.ranking_of base max_n) /\
    (forall base',
       (forall n, 1 <= n <= max_n ->
                  double_weight base' n = double_weight base n) ->
       Double.top_line base' max_n count = Double.top_line base max_n count).
Proof.
  intros Hc.
  destruct (double_smart_weight_covered st max_n flavor Hc)
    as [base [E [_ Hb]]].
  exists base. split; [exact E|]. split.
  { unfold Double.top_probability_line. rewrite E. reflexivity. }
  split; [apply double_ranking_perm|].
  assert (S := double_ranking_sorted base max_n Hb).
  split; [exact S|]. split.
  - intros r Hp Hs.
    apply (StronglySorted_perm_eq (double_ranks_before base)).
    + apply double_ranks_before_asym.
    + exact Hs.
    + exact S.
    + rewrite Hp. symmetry. apply double_ranking_perm.
  - intros base' H. unfold Double.top_line, Double.ranking_of.
    rewrite (sorted_rev_ext (fun n => item base' n Double.zero)
               (fun n => item base n Double.zero) Double.ltb Double.ltb);
      [reflexivity|].
    intros x y Hx Hy. apply In_range in Hx, Hy.
    unfold double_weight in H. rewrite (H x), (H y) by lia. reflexivity.
Qed.

(** number 1 was drawn more often, number 2 longer ago *)
Definition tie_draws : list draw :=
  [ Draw None [2] None; Draw None [1] None; Draw None [1] None ].

Definition tie_stats : stats :=
  Stats [0; 2; 1] [None; Some 3; Some 1]
        [(1, 2); (2, 1)] [(2, 1); (1, 2)] [(2, 3); (1, 1)] 3.

Lemma tie_stats_computed :
  compute_stats tie_draws 2 1 None = Ok (Some tie_stats).
Proof. reflexivity. Qed.

Lemma tie_stats_covers : snapshot_covers tie_stats 2.
Proof.
  apply (computed_snapshot_covers tie_draws 2 1 None). reflexivity.
Defined.

(** In the balanced flavor the two numbers of [tie_stats] get the same
    weight, 5/2, and the line of one number is the smaller of them. *)
Lemma top_probability_line_witness :
  (exists w, Double.smart_weight (Some tie_stats) 2 "balanced"
             = Ok [Double.one; w; w]) /\
  Double.top_probability_line (Some tie_stats) 2 1 "balanced" = Ok [1] /\
  exists base,
    Double.smart_weight (Some tie_stats) 2 "balanced" = Ok base /\
    Double.top_probability_line (Some tie_stats) 2 1 "balanced"
    = Ok (sorted (fun n => n) Z.ltb (slice_to (Double.ranking_of base 2) 1)) /\
    Permutation (Double.ranking_of base 2) (range 1 (2 + 1)) /\
    StronglySorted (double_ranks_before base) (Double.ranking_of base 2) /\
    (forall r, Permutation r (range 1 (2 + 1)) ->
               StronglySorted (double_ranks_before base) r ->
               r = Double.ranking_of base 2) /\
    (forall base',
       (forall n, 1 <= n <= 2 ->
                  double_weight base' n = double_weight base n) ->
       Double.top_line base' 2 1 = Double.top_line base 2 1).
Proof.
  split; [eexists; vm_compute; reflexivity|].
  split; [vm_compute; reflexivity|].
  apply (top_probability_line_breaks_ties_by_number tie_stats 2 1 "balanced").
  exact tie_stats_covers.
Defined.

(** After the single draw 2, 3 over 1..6 the exact weights of 2 and 4
    are both 7/3, but the doubles the code computes differ in the last
    place, 4 being the heavier: the line of the code is 1, 4, where
    exact arithmetic would give 1, 2. *)
Example rounding_separates_equal_weights :
  let st := Stats [0; 0; 1; 1; 0; 0; 0]
                  [None; None; Some 1; Some 1; None; None; None]
                  [(2, 1); (3, 1); (1, 0); (4, 0); (5, 0); (6, 0)]
                  [(1, 0); (4, 0); (5, 0); (6, 0); (2, 1); (3, 1)]
                  [(1, 2); (4, 2); (5, 2); (6, 2); (2, 1); (3, 1)] 1 in
  compute_stats [Draw None [2; 3] None] 6 2 None = Ok (Some st) /\
  Double.top_probability_line (Some st) 6 2 "balanced" = Ok [1; 4] /\
  top_probability_line (Some st) 6 2 "balanced" = Ok [1; 2].
Proof. repeat split; vm_compute; reflexivity. Qed.

(** ** The update worker and the smart-pick action: properties *)

Lemma dict_get_set_string {V} (d : list (string * V)) (k k' : string) (v : V) :
  dict_get String.eqb (dict_set String.eqb d k v) k'
  = if String.eqb k' k then Ok v else dict_get String.eqb d k'.
Proof.
  induction d as [|[k0 v0] t IH]; simpl.
  - destruct (String.eqb k' k); reflexivity.
  - destruct (String.eqb_spec k k0) as [->|E]; simpl.
    + destruct (String.eqb k' k0); reflexivity.
    + rewrite IH. destruct (String.eqb_spec k' k0) as [->|E0]; auto.
      destruct (String.eqb_spec k0 k) as [->|E1]; [congruence|reflexivity].
Qed.

(** snapshots of lists of lines *)
Lemma compute_stats_lines (draws : list draw) (max_n count : Z)
    (lookback : option Z) :
  draws <> [] -> Forall (main_shaped max_n count) draws ->
  exists st,
    compute_stats draws max_n count lookback = Ok (Some st) /\
    sample_size st = len (window draws lookback) /\
    frequency_sum st max_n = sample_size st * count.
Proof.
  intros Hne Hd. rewrite Forall_forall in Hd. unfold compute_stats.
  destruct draws as [|d0 ds]; [congruence|].
  set (w := window (d0 :: ds) lookback).
  destruct (tally_draws_ok max_n count w 0
              (repeat 0 (Z.to_nat (max_n + 1)),
               repeat None (Z.to_nat (max_n + 1))))
    as [[f l] [E [_ T]]].
  - split; simpl; unfold len; rewrite repeat_length; reflexivity.
  - intros d Hin. apply Hd. apply (In_window _ lookback). exact Hin.
  - fold w. rewrite E. simpl. eexists; split; [reflexivity|]. simpl.
    split; [lia|]. unfold frequency_sum. simpl. simpl in T.
    rewrite T, total_zero. lia.
Qed.

(** a line of a game: [count] numbers of 1..max_n in increasing order *)
Definition line_of (cfg : game_config) (l : list Z) : Prop :=
  len l = count cfg /\ StronglySorted Z.lt l /\
  forall n, In n l -> 1 <= n <= max_n cfg.

Lemma smart_pick_line
    (st : stats) (cfg : game_config) (flavor : string) (random : nat -> Q)
    (fuel : nat) :
  snapshot_covers st (max_n cfg) -> 1 <= count cfg <= max_n cfg ->
  valid_random random -> (Z.to_nat (count cfg) <= fuel)%nat ->
  exists line,
    smart_pick fuel random (Some st) (max_n cfg) (count cfg) flavor
    = Ok (Some line) /\ line_of cfg line.
Proof.
  intros Hcov Hc Hr Hf.
  destruct (smart_weight_covered st (max_n cfg) flavor Hcov)
    as [base [E [L W]]].
  assert (Hb : len base = max_n cfg + 1) by lia.
  assert (Hw : forall n, 1 <= n <= max_n cfg -> (0 < item base n 0)%Q).
  { intros n Hn. destruct (W n Hn) as [hr [orank [_ [_ [P1 [P2 ->]]]]]].
    assert (P := flavor_bonus_pos flavor hr orank P1 P2). lra. }
  assert (P0 := picking_start (max_n cfg) base Hb Hw).
  destruct (pick_steps_ok (max_n cfg) random Hr (Z.to_nat (count cfg)) _ O P0)
    as [[[fb picks] k] [E1 P]]; [lia|].
  unfold smart_pick. rewrite E. cbn [Py.bind].
  rewrite (pick_loop_steps (max_n cfg) (count cfg) random Hr Hc
             (Z.to_nat (count cfg)) _ O); [|exact P0|lia|exact Hf].
  rewrite E1. cbn [Py.bind option_map fst snd].
  destruct P as [_ [Hl [_ [Hnd [Hrange _]]]]].
  set (line := sorted (fun n => n) Z.ltb picks).
  assert (Hp : Permutation line picks) by apply sorted_perm.
  exists line. split; [reflexivity|]. split.
  { unfold len. rewrite (Permutation_length Hp), Hl. simpl. lia. }
  split; [apply sorted_set_increasing; exact Hnd|].
  intros n Hn. apply Hrange. apply (Permutation_in _ Hp Hn).
Qed.

Lemma double_top_probability_line_of
    (st : stats) (cfg : game_config) (flavor : string) :
  snapshot_covers st (max_n cfg) -> 1 <= count cfg <= max_n cfg ->
  exists line,
    Double.top_probability_line (Some st) (max_n cfg) (count cfg) flavor
    = Ok line /\
    line_of cfg line.
Proof.
  intros Hcov Hc.
  destruct (double_smart_weight_covered st (max_n cfg) flavor Hcov)
    as [base [E _]].
  exists (Double.top_line base (max_n cfg) (count cfg)). split.
  { unfold Double.top_probability_line. rewrite E. reflexivity. }
  apply (line_shape (Double.ranking_of base (max_n cfg))).
  - apply double_ranking_perm.
  - lia.
Qed.

Section WorkerFacts.
Variable available : bool.
Variable http_get : string -> nat -> string -> option (Z * list ascii).
Variable make_soup : list ascii -> res soup.
Variable lookback : option Z.

(** The caches hold the outcome of an update for [game]: the draws the
    fetcher returned for it and, unless there is none, the snapshot
    [compute_stats] makes of them. *)
Definition updated (game : string) (cfg : game_config) (c : caches) : Prop :=
  exists draws source_label,
    fst (fetch_archives_with_fallback available (http_get game) make_soup
           game) = Ok (draws, source_label) /\
    dict_get String.eqb (draw_cache c) game = Ok draws /\
    ((draws = [] /\ dict_get String.eqb (stats_cache c) game = Ok None) \/
     (draws <> [] /\
      exists st,
        compute_stats draws (max_n cfg) (count cfg) lookback = Ok (Some st) /\
        dict_get String.eqb (stats_cache c) game = Ok (Some st) /\
        snapshot_covers st (max_n cfg) /\
        sample_size st = len (window draws lookback) /\
        frequency_sum st (max_n cfg) = sample_size st * count cfg)).

Lemma update_game_ok (game : string) (cfg : game_config) (c : caches) :
  dict_get String.eqb GAMES game = Ok cfg ->
  exists c',
    update_game available http_get make_soup lookback game c = (None, c') /\
    updated game cfg c' /\
    forall other, other <> game ->
      dict_get String.eqb (draw_cache c') other
      = dict_get String.eqb (draw_cache c) other /\
      dict_get String.eqb (stats_cache c') other
      = dict_get String.eqb (stats_cache c) other.
Proof.
  intros G. destruct (GAMES_configured game cfg G) as [Hc S].
  unfold update_game, updated.
  assert (F : fetch_archives_with_fallback available (http_get game)
                make_soup game
              = fetch_with available (http_get game) make_soup cfg).
  { unfold fetch_archives_with_fallback. now rewrite G. }
  rewrite F.
  destruct (fst (fetch_with available (http_get game) make_soup cfg))
    as [[draws lbl]|e] eqn:E.
  2:{ exfalso.
      assert (X : exists recs l,
                 fst (fetch_with available (http_get game) make_soup cfg)
                 = Ok (recs, l)).
      { unfold fetch_with. destruct available; cbn [negb].
        - apply try_groups_ok.
        - now exists [], "offline"%string. }
      destruct X as [recs [l X]]. congruence. }
  assert (K : forall (V : Type) (d : list (string * V)) (v : V) other,
             other <> game ->
             dict_get String.eqb (dict_set String.eqb d game v) other
             = dict_get String.eqb d other).
  { intros V d v other Ho. rewrite dict_get_set_string.
    destruct (String.eqb_spec other game); [contradiction|reflexivity]. }
  destruct (fetch_with_result _ _ _ _ _ _ E)
    as [[-> L]|[Hne [g [log [Hg [L Fg]]]]]].
  - rewrite orb_true_r. eexists; split; [reflexivity|]. split.
    + exists [], lbl. split; [reflexivity|]. cbn [draw_cache stats_cache].
      rewrite !dict_get_set_string, String.eqb_refl. split; auto.
    + intros other Ho. cbn [draw_cache stats_cache]. split; now apply K.
  - assert (Ln : String.eqb lbl "none" = false).
    { destruct (String.eqb_spec lbl "none") as [X|X]; [|reflexivity].
      destruct (S g Hg) as [N _]. congruence. }
    rewrite Ln. destruct draws as [|d0 ds]; [congruence|].
    cbn [is_empty orb]. rewrite G. cbn [Py.bind].
    assert (Sh : Forall (main_shaped (max_n cfg) (count cfg)) (d0 :: ds)).
    { apply Forall_forall. intros r Hr.
      apply (parsed_record_shape cfg g r); [lia|].
      assert (P := fetch_group_parsed (http_get game) make_soup cfg g log
                     _ Fg).
      rewrite Forall_forall in P. now apply P. }
    destruct (compute_stats_lines (d0 :: ds) (max_n cfg) (count cfg) lookback
                Hne Sh) as [st [C [Z1 Z2]]].
    rewrite C. eexists; split; [reflexivity|]. split.
    + exists (d0 :: ds), lbl. split; [reflexivity|].
      cbn [draw_cache stats_cache].
      rewrite !dict_get_set_string, String.eqb_refl. split; [reflexivity|].
      right. split; [exact Hne|]. exists st. split; [exact C|].
      split; [reflexivity|].
      split; [now apply (computed_snapshot_covers _ _ _ _ _ C)|now split].
    + intros other Ho. cbn [draw_cache stats_cache]. split; now apply K.
Qed.

Lemma update_worker_ok (c : caches) :
  exists c',
    _update_worker available http_get make_soup lookback c = (None, c') /\
    forall game cfg,
      dict_get String.eqb GAMES game = Ok cfg -> updated game cfg c'.
Proof.
  unfold _update_worker.
  change (dict_keys GAMES) with ["Lotto 6/49"; "Lotto Max"]%string.
  cbn [update_games].
  destruct (dict_get String.eqb GAMES "Lotto 6/49"%string) as [cfg1|] eqn:G1;
    [|discriminate].
  destruct (dict_get String.eqb GAMES "Lotto Max"%string) as [cfg2|] eqn:G2;
    [|discriminate].
  destruct (update_game_ok "Lotto 6/49"%string cfg1 c G1) as [c1 [E1 [U1 _]]].
  rewrite E1.
  destruct (update_game_ok "Lotto Max"%string cfg2 c1 G2) as [c2 [E2 [U2 K2]]].
  rewrite E2. exists c2. split; [reflexivity|].
  intros game cfg G.
  assert (D : (game = "Lotto 6/49"%string /\ cfg = cfg1) \/
              (game = "Lotto Max"%string /\ cfg = cfg2)).
  { destruct (String.eqb_spec game "Lotto 6/49"%string) as [->|N1];
      [left; split; congruence|].
    destruct (String.eqb_spec game "Lotto Max"%string) as [->|N2];
      [right; split; congruence|].
    exfalso. apply String.eqb_neq in N1, N2.
    unfold GAMES in G. cbn [dict_get] in G. rewrite N1, N2 in G.
    discriminate. }
  destruct D as [[-> ->]|[-> ->]]; [|exact U2].
  destruct U1 as [draws [lbl [F1 [D1 R1]]]].
  destruct (K2 "Lotto 6/49"%string) as [Kd Ks]; [discriminate|].
  exists draws, lbl. rewrite Kd, Ks. split; [exact F1|].
  split; [exact D1|exact R1].
Qed.
End WorkerFacts.

(** X25.  Whatever the web answers and whatever the lookback, the fetch
    and the statistics of [_update_worker] raise nothing for its [except]
    clause to catch.  Afterwards, for each configured game, the draw
    cache holds exactly the draws the fetcher returned for that game;
    when there is none the statistics cache holds nothing for the game,
    and otherwise it holds the snapshot [compute_stats] returns for
    those draws, the game's parameters and the lookback, a snapshot
    that covers 1..max_n, whose sample size is the length of the lookback
    window and whose frequencies over 1..max_n add up to
    [sample_size * count]. *)
Theorem update_worker_never_fails
    (available : bool)
    (http_get : string -> nat -> string -> option (Z * list ascii))
    (make_soup : list ascii -> res soup) (lookback : option Z)
    (c : caches) :
  exists c',
    _update_worker available http_get make_soup lookback c = (None, c') /\
    forall game cfg,
      dict_get String.eqb GAMES game = Ok cfg ->
      updated available http_get make_soup lookback game cfg c'.
Proof. apply update_worker_ok. Qed.

(** the caches after an update on a web whose every page announces the
    draw of [announcement_text] *)
Example update_worker_sample :
  let r := _update_worker true (fun _ => announcement_web) text_soup None
             (Caches [] []) in
  fst r = None /\
  draw_cache (snd r)
  = [ ("Lotto 6/49"%string, [Draw None [8; 3; 14; 21; 30; 41] (Some 44)]);
      ("Lotto Max"%string, [Draw None [8; 3; 14; 21; 30; 41; 44] (Some 17)]) ] /\
  map fst (stats_cache (snd r)) = ["Lotto 6/49"; "Lotto Max"]%string.
Proof. repeat split; vm_compute; reflexivity. Qed.

(** X26.  After [_update_worker], for a configured game,
    [generate_smart_with_bonus] raises nothing.  When the fetcher
    returned no draw for the game it shows the warning.  When it
    returned draws, and given fuel for [count] iterations per line, it
    produces the three lines [smart_pick] returns for the snapshot of
    those draws and the line [top_probability_line] returns for it, each
    of exactly [count] numbers of 1..max_n in strictly increasing
    order. *)
Theorem generate_smart_after_update
    (available : bool)
    (http_get : string -> nat -> string -> option (Z * list ascii))
    (make_soup : list ascii -> res soup) (lookback : option Z)
    (c : caches) (fuel : nat) (randoms : nat -> nat -> Q)
    (game flavor : string) (cfg : game_config)
    (draws : list draw) (source_label : string) :
  dict_get String.eqb GAMES game = Ok cfg ->
  (forall j, valid_random (randoms j)) ->
  (Z.to_nat (count cfg) <= fuel)%nat ->
  fst (fetch_archives_with_fallback available (http_get game) make_soup game)
  = Ok (draws, source_label) ->
  let c' := snd (_update_worker available http_get make_soup lookback c) in
  (draws = [] ->
   generate_smart_with_bonus fuel randoms c' game flavor = Ok None) /\
  (draws <> [] ->
   exists st l1 l2 l3 bonus_line,
     compute_stats draws (max_n cfg) (count cfg) lookback = Ok (Some st) /\
     smart_pick fuel (randoms 0%nat) (Some st) (max_n cfg) (count cfg) flavor
     = Ok (Some l1) /\
     smart_pick fuel (randoms 1%nat) (Some st) (max_n cfg) (count cfg) flavor
     = Ok (Some l2) /\
     smart_pick fuel (randoms 2%nat) (Some st) (max_n cfg) (count cfg) flavor
     = Ok (Some l3) /\
     Double.top_probability_line (Some st) (max_n cfg) (count cfg) flavor
     = Ok bonus_line /\
     generate_smart_with_bonus fuel randoms c' game flavor
     = Ok (Some ([Some l1; Some l2; Some l3], bonus_line)) /\
     Forall (line_of cfg) [l1; l2; l3; bonus_line]).
Proof.
  intros G Hr Hf Hfetch.
  destruct (update_worker_ok available http_get make_soup lookback c)
    as [c1 [E U]].
  rewrite E. cbn [snd]. cbv zeta.
  destruct (U game cfg G) as [draws' [lbl' [F [_ R]]]].
  assert (Ed : draws' = draws) by congruence. subst draws'.
  unfold generate_smart_with_bonus. rewrite G. cbn [Py.bind].
  destruct R as [[-> S]|[Hne [st [C [S [Hcov _]]]]]].
  - split; [|congruence]. intros _. now rewrite S.
  - split; [congruence|]. intros _. rewrite S.
    destruct (GAMES_configured game cfg G) as [Hc _].
    destruct (smart_pick_line st cfg flavor (randoms 0%nat) fuel Hcov Hc
                (Hr _) Hf) as [l1 [E1 L1]].
    destruct (smart_pick_line st cfg flavor (randoms 1%nat) fuel Hcov Hc
                (Hr _) Hf) as [l2 [E2 L2]].
    destruct (smart_pick_line st cfg flavor (randoms 2%nat) fuel Hcov Hc
                (Hr _) Hf) as [l3 [E3 L3]].
    destruct (double_top_probability_line_of st cfg flavor Hcov Hc)
      as [b [E4 L4]].
    exists st, l1, l2, l3, b. rewrite E1, E2, E3, E4. cbn [Py.bind].
    split; [exact C|]. repeat (split; [reflexivity|]).
    repeat (constructor; [assumption|]). constructor.
Qed.

Definition lotto_649 : game_config :=
  match GAMES with
  | (_, cfg) :: _ => cfg
  | [] => GameConfig 0 0 [] EmptyString
  end.

(** the draw every page of [announcement_web] announces, as the
    print-layout parser reads it *)
Definition announced : list draw :=
  [Draw None [8; 3; 14; 21; 30; 41] (Some 44)].

Lemma generate_smart_after_update_witness :
  let c' := snd (_update_worker true (fun _ => announcement_web) text_soup
                   (Some 100) (Caches [] [])) in
  exists st l1 l2 l3 bonus_line,
    compute_stats announced (max_n lotto_649) (count lotto_649) (Some 100)
    = Ok (Some st) /\
    smart_pick 6 coin (Some st) (max_n lotto_649) (count lotto_649) "hot"
    = Ok (Some l1) /\
    smart_pick 6 coin (Some st) (max_n lotto_649) (count lotto_649) "hot"
    = Ok (Some l2) /\
    smart_pick 6 coin (Some st) (max_n lotto_649) (count lotto_649) "hot"
    = Ok (Some l3) /\
    Double.top_probability_line (Some st) (max_n lotto_649)
      (count lotto_649) "hot" = Ok bonus_line /\
    generate_smart_with_bonus 6 (fun _ => coin) c' "Lotto 6/49" "hot"
    = Ok (Some ([Some l1; Some l2; Some l3], bonus_line)) /\
    Forall (line_of lotto_649) [l1; l2; l3; bonus_line].
Proof.
  apply (generate_smart_after_update true (fun _ => announcement_web)
           text_soup (Some 100) (Caches [] []) 6 (fun _ => coin)
           "Lotto 6/49" "hot" lotto_649 announced "WCLC").
  - reflexivity.
  - intros j. exact coin_valid.
  - simpl. lia.
  - vm_compute. reflexivity.
  - discriminate.
Defined.

(** what the update and the action produce on that web *)
Example generate_smart_sample :
  generate_smart_with_bonus 6 (fun _ => coin)
    (snd (_update_worker true (fun _ => announcement_web) text_soup
            (Some 100) (Caches [] []))) "Lotto 6/49" "hot"
  = Ok (Some ([Some [12; 13; 14; 32; 33; 34]; Some [12; 13; 14; 32; 33; 34];
               Some [12; 13; 14; 32; 33; 34]], [1; 2; 3; 4; 5; 6])).
Proof. vm_compute. reflexivity. Qed.
